(** * Relative-position attention (NeZha) and the ELECTRA pretraining
      objective, over a model of the tensor operations they call.

    Tensors are kept the way the framework keeps them: a shape and a flat
    row-major buffer.  [float32] and [float64] values are read as real
    numbers, with two refinements where a property depends on them: the
    softmax kernel takes the rounding of its float type as a parameter, and
    a quotient whose divisor may be zero is an extended value that can be
    infinite or NaN.  [int64] values are integers with the wrap-around
    written out; Python exceptions are the [Raise] results of an error
    monad. *)

From Stdlib Require Import String List ZArith Reals Lia Lra Bool Arith.
Import ListNotations.

(** ** The tensor framework *)

Module Paddle.

(** The Python exceptions; the framework's invalid-argument errors (a shape
    that does not fit, an id outside a table) reach Python as [ValueError]. *)
Inductive error : Type :=
| ValueError
| IndexError
| ZeroDivisionError
| AssertionError
| KeyError.

Inductive result (A : Type) : Type :=
| OK : A -> result A
| Raise : error -> result A.

Arguments OK {A} _.
Arguments Raise {A} _.

Definition bind {A B : Type} (c : result A) (k : A -> result B) : result B :=
  match c with
  | OK a => k a
  | Raise e => Raise e
  end.

Notation "x <- c ;; k" := (bind c (fun x => k))
  (at level 61, c at next level, right associativity).

Definition raises {A : Type} (c : result A) : Prop :=
  match c with
  | OK _ => False
  | Raise _ => True
  end.

(** [for_range n body acc] is [for i in range(n): acc = body(i, acc)]. *)
Fixpoint for_range {A : Type} (n : nat) (body : nat -> A -> result A) (acc : A)
  : result A :=
  match n with
  | O => OK acc
  | S n' => acc' <- for_range n' body acc ;; body n' acc'
  end.

(** A tensor: its shape and its elements in row-major order. *)
Record tensor (A : Type) : Type := Tensor { shape : list nat; data : list A }.

Arguments Tensor {A} _ _.
Arguments shape {A} _.
Arguments data {A} _.

Definition numel (s : list nat) : nat := fold_right Nat.mul 1 s.

Definition wf {A : Type} (t : tensor A) : Prop :=
  length (data t) = numel (shape t).

(** Offset of a multi-index in the flat buffer, and back. *)
Fixpoint ravel (s idx : list nat) : nat :=
  match s, idx with
  | _ :: s', i :: idx' => i * numel s' + ravel s' idx'
  | _, _ => 0
  end.

Fixpoint unravel (s : list nat) (k : nat) : list nat :=
  match s with
  | [] => []
  | _ :: s' => k / numel s' :: unravel s' (k mod numel s')
  end.

Fixpoint in_bounds (s idx : list nat) : Prop :=
  match s, idx with
  | [], [] => True
  | n :: s', i :: idx' => i < n /\ in_bounds s' idx'
  | _, _ => False
  end.

Class Default (A : Type) : Type := dflt : A.
#[global] Instance Default_R : Default R := 0%R.
#[global] Instance Default_Z : Default Z := 0%Z.
#[global] Instance Default_bool : Default bool := false.

Definition get {A : Type} `{Default A} (t : tensor A) (idx : list nat) : A :=
  nth (ravel (shape t) idx) (data t) dflt.

(** The tensor of shape [s] whose element at [idx] is [g idx]. *)
Definition build {A : Type} (s : list nat) (g : list nat -> A) : tensor A :=
  Tensor s (map (fun k => g (unravel s k)) (seq 0 (numel s))).

Definition full {A : Type} (s : list nat) (v : A) : tensor A :=
  Tensor s (repeat v (numel s)).

Definition zeros (s : list nat) : tensor R := full s 0%R.
Definition zeros_like {A : Type} (t : tensor A) : tensor Z := full (shape t) 0%Z.
Definition ones_like {A : Type} (t : tensor A) : tensor Z := full (shape t) 1%Z.

(** A tensor all of whose elements are zero. *)
Definition is_zero (x : tensor R) : Prop := Forall (eq 0%R) (data x).

(** Element-wise unary operations, casts and operations with a scalar. *)
Definition map1 {A B : Type} (f : A -> B) (t : tensor A) : tensor B :=
  Tensor (shape t) (map f (data t)).

(** Broadcasting of two shapes, aligned on the last axis. *)
Fixpoint broadcast_rev (r1 r2 : list nat) : result (list nat) :=
  match r1, r2 with
  | [], r => OK r
  | r, [] => OK r
  | a :: r1', b :: r2' =>
      r <- broadcast_rev r1' r2' ;;
      if a =? b then OK (a :: r)
      else if a =? 1 then OK (b :: r)
      else if b =? 1 then OK (a :: r)
      else Raise ValueError
  end.

Definition broadcast_shapes (s1 s2 : list nat) : result (list nat) :=
  r <- broadcast_rev (rev s1) (rev s2) ;; OK (rev r).

(** The index into an operand of shape [s] read for the index [idx] of the
    broadcast result: the leading axes the operand lacks are dropped and an
    axis of size one is read at 0. *)
Definition bindex (s idx : list nat) : list nat :=
  map (fun ni => if fst ni =? 1 then 0 else snd ni)
      (combine s (skipn (length idx - length s) idx)).

Definition map2 {A B C : Type} `{Default A} `{Default B}
  (f : A -> B -> C) (x : tensor A) (y : tensor B) : result (tensor C) :=
  s <- broadcast_shapes (shape x) (shape y) ;;
  OK (build s (fun idx => f (get x (bindex (shape x) idx))
                            (get y (bindex (shape y) idx)))).

(** [int64] arithmetic. *)
Definition wrap64 (z : Z) : Z := ((z + 2 ^ 63) mod 2 ^ 64 - 2 ^ 63)%Z.
Definition int64_range (z : Z) : Prop := (- 2 ^ 63 <= z < 2 ^ 63)%Z.
Definition add64 (a b : Z) : Z := wrap64 (a + b).
Definition sub64 (a b : Z) : Z := wrap64 (a - b).
Definition mul64 (a b : Z) : Z := wrap64 (a * b).

Definition add := map2 Rplus.
Definition subtract := map2 Rminus.
Definition multiply := map2 Rmult.
Definition divide := map2 Rdiv.
Definition add_int := map2 add64.
Definition subtract_int := map2 sub64.
Definition multiply_int := map2 mul64.
Definition equal := map2 Z.eqb.

(** [astype]: an integer read as a float, a float truncated to [int64],
    a boolean read as 0 or 1. *)
Definition Rtrunc (r : R) : Z :=
  if Rle_dec 0 r then Zfloor r else (- Zfloor (- r))%Z.
Definition astype_float (t : tensor Z) : tensor R := map1 IZR t.
Definition astype_int64 (t : tensor R) : tensor Z :=
  map1 (fun r => wrap64 (Rtrunc r)) t.
Definition astype_int (t : tensor bool) : tensor Z :=
  map1 (fun b : bool => if b then 1%Z else 0%Z) t.

Definition rsum (l : list R) : R := fold_right Rplus 0%R l.
(** [x.sum()], read as a scalar. *)
Definition sum (x : tensor R) : R := rsum (data x).

(** A float that may not be finite: the quotient of two scalars is infinite
    when only the divisor is zero and NaN when both are, and sums and
    products carry that on. *)
Inductive fval : Type :=
| Finite (r : R)
| PosInf
| NegInf
| NaN.

Definition fdiv (x y : R) : fval :=
  if Req_dec_T y 0 then
    if Req_dec_T x 0 then NaN
    else if Rlt_dec 0 x then PosInf else NegInf
  else Finite (x / y).

Definition fneg (v : fval) : fval :=
  match v with
  | Finite r => Finite (- r)
  | PosInf => NegInf
  | NegInf => PosInf
  | NaN => NaN
  end.

(** The product of a finite scalar and a float. *)
Definition fscale (w : R) (v : fval) : fval :=
  match v with
  | Finite r => Finite (w * r)
  | NaN => NaN
  | _ =>
      if Req_dec_T w 0 then NaN
      else if Rlt_dec 0 w then v else fneg v
  end.

Definition fadd (u v : fval) : fval :=
  match u, v with
  | NaN, _ | _, NaN => NaN
  | Finite a, Finite b => Finite (a + b)
  | PosInf, NegInf | NegInf, PosInf => NaN
  | PosInf, _ | _, PosInf => PosInf
  | NegInf, _ | _, NegInf => NegInf
  end.

(** [dot k f g] is the sum of [f t * g t] for [t < k]. *)
Definition dot (k : nat) (f g : nat -> R) : R :=
  rsum (map (fun t => (f t * g t)%R) (seq 0 k)).

Definition split_last2 (s : list nat) : option (list nat * nat * nat) :=
  match rev s with
  | n :: m :: b => Some (rev b, m, n)
  | _ => None
  end.

(** [paddle.matmul] on operands of rank at least two: a matrix product on
    the last two axes, the leading axes broadcast. *)
Definition matmul (x y : tensor R) : result (tensor R) :=
  match split_last2 (shape x), split_last2 (shape y) with
  | Some (bx, m, k), Some (by_, k', n) =>
      if k =? k' then
        bs <- broadcast_shapes bx by_ ;;
        OK (build (bs ++ [m; n]) (fun idx =>
              let bi := firstn (length bs) idx in
              let i := nth (length bs) idx 0 in
              let j := nth (S (length bs)) idx 0 in
              dot k (fun t => get x (bindex bx bi ++ [i; t]))
                    (fun t => get y (bindex by_ bi ++ [t; j]))))
      else Raise ValueError
  | _, _ => Raise ValueError
  end.

Fixpoint index_of (c : nat) (l : list nat) : nat :=
  match l with
  | [] => 0
  | a :: l' => if a =? c then 0 else S (index_of c l')
  end.

Definition is_perm (perm : list nat) (n : nat) : bool :=
  (length perm =? n) && forallb (fun c => existsb (Nat.eqb c) perm) (seq 0 n).

(** [x.transpose(perm)]: axis [a] of the result is axis [perm[a]] of [x]. *)
Definition transpose {A : Type} `{Default A} (x : tensor A) (perm : list nat)
  : result (tensor A) :=
  if is_perm perm (length (shape x)) then
    OK (build (map (fun a => nth a (shape x) 0) perm)
              (fun idx => get x (map (fun c => nth (index_of c perm) idx 0)
                                     (seq 0 (length perm)))))
  else Raise ValueError.

(** [paddle.t]: the transpose of a matrix. *)
Definition t {A : Type} `{Default A} (x : tensor A) : result (tensor A) :=
  match shape x with
  | [_; _] => transpose x [1; 0]
  | _ => Raise ValueError
  end.

(** [x.reshape(s)]: the same buffer under another shape; one entry of [s]
    may be -1 and is then inferred. *)
Definition reshape {A : Type} (x : tensor A) (s : list nat) : result (tensor A) :=
  if numel (shape x) =? numel s then OK (Tensor s (data x))
  else Raise ValueError.

Definition infer_shape (n : nat) (s : list Z) : result (list nat) :=
  let known := map Z.to_nat (filter (fun z => negb (z =? -1)%Z) s) in
  if existsb (fun z => (z <? -1)%Z) s then Raise ValueError
  else match length s - length known with
       | 0 => OK known
       | 1 => if numel known =? 0 then Raise ValueError
              else OK (map (fun z => if (z =? -1)%Z then n / numel known
                                     else Z.to_nat z) s)
       | _ => Raise ValueError
       end.

Definition reshape_infer {A : Type} (x : tensor A) (s : list Z) : result (tensor A) :=
  s' <- infer_shape (numel (shape x)) s ;; reshape x s'.

(** [x[:n0, :n1, ...]]: a stop beyond the axis is clamped to it, [None] is
    the full slice [:]. *)
Definition slice_stop (n : nat) (stop : option nat) : nat :=
  match stop with
  | Some k => Nat.min k n
  | None => n
  end.

Fixpoint slice_shape (s : list nat) (stops : list (option nat)) : list nat :=
  match s, stops with
  | n :: s', k :: stops' => slice_stop n k :: slice_shape s' stops'
  | _, _ => s
  end.

Definition slice_prefix {A : Type} `{Default A} (x : tensor A)
  (stops : list (option nat)) : result (tensor A) :=
  if length stops <=? length (shape x) then
    OK (build (slice_shape (shape x) stops) (fun idx => get x idx))
  else Raise IndexError.

(** [x.unsqueeze(axis)]. *)
Definition unsqueeze {A : Type} (x : tensor A) (axis : nat) : result (tensor A) :=
  if axis <=? length (shape x) then
    OK (Tensor (firstn axis (shape x) ++ 1 :: skipn axis (shape x)) (data x))
  else Raise ValueError.

(** The rows of a buffer along the last axis, of size [n]. *)
Definition rows {A : Type} (n : nat) (l : list A) : list (list A) :=
  map (fun r => firstn n (skipn (r * n) l)) (seq 0 (length l / n)).

Definition last_dim (s : list nat) : nat := last s 1.

(** The largest element of a row. *)
Definition row_max (l : list R) : R :=
  match l with
  | [] => 0%R
  | x :: l' => fold_left Rmax l' x
  end.

(** One row of [softmax(x, axis=-1)] as the kernel computes it: the row is
    shifted by its largest element, the shifted values are clipped at -64
    and exponentiated, the exponentials are summed, and each is multiplied
    by the inverse of the sum.  [rnd] is the rounding of the float type,
    applied to the result of every operation. *)
Definition softmax_kernel_row (rnd : R -> R) (l : list R) : list R :=
  let m := row_max l in
  let e := map (fun x => rnd (exp (Rmax (rnd (x - m)%R) (-64)%R))) l in
  let inv := rnd (1 / fold_left (fun a v => rnd (a + v)%R) e 0%R)%R in
  map (fun v => rnd (v * inv)%R) e.

Definition softmax_rounded (rnd : R -> R) (x : tensor R) : tensor R :=
  Tensor (shape x)
         (concat (map (softmax_kernel_row rnd) (rows (last_dim (shape x)) (data x)))).

(** The softmax in exact arithmetic. *)
Definition exact (x : R) : R := x.
Definition softmax_row : list R -> list R := softmax_kernel_row exact.
Definition softmax : tensor R -> tensor R := softmax_rounded exact.

(** Rounding to the nearest [float32], ties to even, of a real within the
    range of the type: the exponent of [x] is that of its binade, not below
    that of the subnormal numbers, and [x] is rounded to a multiple of the
    unit in the last place of that binade. *)
Definition round_even (r : R) : Z :=
  let f := Zfloor r in
  if Rlt_dec (r - IZR f) (/ 2) then f
  else if Rlt_dec (/ 2) (r - IZR f) then (f + 1)%Z
  else if Z.even f then f else (f + 1)%Z.

Definition ulp32 (x : R) : R :=
  powerRZ 2 (Z.max (Zfloor (ln (Rabs x) / ln 2)) (-126) - 23).

Definition round32 (x : R) : R :=
  if Req_dec_T x 0 then 0%R
  else (IZR (round_even (x / ulp32 x)) * ulp32 x)%R.

(** The first index of a largest element of a row: what [argmax] returns. *)
Definition first_max (l : list R) (k : nat) : Prop :=
  k < length l /\
  (forall j, j < length l -> (nth j l 0 <= nth k l 0)%R) /\
  (forall j, j < k -> (nth j l 0 < nth k l 0)%R).

Fixpoint argmax_from (best_i : nat) (best : R) (i : nat) (l : list R) : nat :=
  match l with
  | [] => best_i
  | x :: l' =>
      if Rlt_dec best x then argmax_from i x (S i) l'
      else argmax_from best_i best (S i) l'
  end.

Definition argmax_row (l : list R) : Z :=
  match l with
  | [] => 0%Z
  | x :: l' => Z.of_nat (argmax_from 0 x 1 l')
  end.

(** [argmax(x, axis=-1)]: the first index of the largest element of each row. *)
Definition argmax (x : tensor R) : result (tensor Z) :=
  match shape x with
  | [] => Raise ValueError
  | _ :: _ =>
      if last_dim (shape x) =? 0 then Raise ValueError
      else OK (Tensor (removelast (shape x))
                      (map argmax_row (rows (last_dim (shape x)) (data x))))
  end.

(** [one_hot(x, num_classes)]: a class outside [0, num_classes) is an error. *)
Definition one_hot (x : tensor Z) (num_classes : nat) : result (tensor R) :=
  if forallb (fun z => (0 <=? z)%Z && (z <? Z.of_nat num_classes)%Z) (data x) then
    OK (build (shape x ++ [num_classes]) (fun idx =>
          if (get x (removelast idx) =? Z.of_nat (last idx 0%nat))%Z then 1%R else 0%R))
  else Raise ValueError.

(** [where(cond, x, y)] on operands of one shape. *)
Fixpoint where_data {A : Type} (c : list bool) (x y : list A) : list A :=
  match c, x, y with
  | b :: c', a :: x', a' :: y' => (if b then a else a') :: where_data c' x' y'
  | _, _, _ => []
  end.

Definition where_ {A : Type} (c : tensor bool) (x y : tensor A) : result (tensor A) :=
  if list_eq_dec Nat.eq_dec (shape c) (shape x) then
    if list_eq_dec Nat.eq_dec (shape c) (shape y) then
      OK (Tensor (shape c) (where_data (data c) (data x) (data y)))
    else Raise ValueError
  else Raise ValueError.

(** [paddle.arange(n)] and [paddle.tile(x, [k])] of a vector; a repeat
    count of 0 is refused. *)
Definition arange (n : nat) : tensor Z := Tensor [n] (map Z.of_nat (seq 0 n)).

Definition tile {A : Type} (x : tensor A) (k : nat) : result (tensor A) :=
  match shape x with
  | [n] =>
      if k =? 0 then Raise ValueError
      else OK (Tensor [k * n] (concat (repeat (data x) k)))
  | _ => Raise ValueError
  end.

(** [paddle.rand(s)]: a tensor of shape [s] of the generator's next draws. *)
Definition rand (s : list nat) (rng : nat -> R) : tensor R :=
  Tensor s (map rng (seq 0 (numel s))).

(** [paddle.clip(x, lo, hi)]. *)
Definition clip (x : tensor R) (lo hi : R) : tensor R :=
  map1 (fun v => Rmin (Rmax v lo) hi) x.

(** Layers. *)
Record Linear : Type := { weight : tensor R; bias : tensor R }.

(** [nn.Linear(i, o)]: a fresh weight of shape [i, o], filled from the
    initializer's samples, and a zero bias.  Creating a parameter asserts
    that every size is positive. *)
Definition Linear_new (i o : Z) (sample : list nat -> R) : result Linear :=
  if (i <=? 0)%Z || (o <=? 0)%Z then Raise AssertionError
  else OK {| weight := build [Z.to_nat i; Z.to_nat o] sample;
             bias := zeros [Z.to_nat o] |}.

Definition Linear_forward (l : Linear) (x : tensor R) : result (tensor R) :=
  y <- matmul x (weight l) ;; add y (bias l).

Record LayerNorm : Type := { ln_weight : list R; ln_bias : list R; epsilon : R }.

Definition LayerNorm_new (n : Z) (eps : R) : result LayerNorm :=
  if (n <=? 0)%Z then Raise AssertionError
  else OK {| ln_weight := repeat 1%R (Z.to_nat n);
             ln_bias := repeat 0%R (Z.to_nat n);
             epsilon := eps |}.

Definition mean (l : list R) : R := (rsum l / INR (length l))%R.

Fixpoint scale_shift (xs w b : list R) : list R :=
  match xs, w, b with
  | x :: xs', g :: w', c :: b' => (x * g + c)%R :: scale_shift xs' w' b'
  | _, _, _ => []
  end.

(** One row of [nn.LayerNorm].  The variance is not negative, so with a
    positive epsilon, as [LayerNorm_new] and [init_weights] set it, the
    divisor is positive; with an epsilon of zero and a constant row the
    float computation gives NaN, which this reading in the reals does not
    show. *)
Definition layer_norm_row (ln : LayerNorm) (l : list R) : list R :=
  let mu := mean l in
  let var := mean (map (fun x => ((x - mu) * (x - mu))%R) l) in
  scale_shift (map (fun x => ((x - mu) / sqrt (var + epsilon ln))%R) l)
              (ln_weight ln) (ln_bias ln).

Definition LayerNorm_forward (ln : LayerNorm) (x : tensor R) : result (tensor R) :=
  if (last_dim (shape x) =? length (ln_weight ln))
     && (last_dim (shape x) =? length (ln_bias ln)) then
    OK (Tensor (shape x)
               (concat (map (layer_norm_row ln) (rows (last_dim (shape x)) (data x)))))
  else Raise ValueError.

(** [nn.Dropout]: in training mode an element is kept and rescaled by
    [1 / (1 - rate)] or zeroed, as the layer's random bits say; otherwise the
    layer is the identity. *)
Record Dropout : Type := { rate : R; training : bool; keep : nat -> bool }.

Definition Dropout_forward (d : Dropout) (x : tensor R) : tensor R :=
  if training d then
    Tensor (shape x)
           (map (fun kv => if keep d (fst kv) then (snd kv / (1 - rate d))%R else 0%R)
                (combine (seq 0 (length (data x))) (data x)))
  else x.

(** Ids that index a table of [n] rows. *)
Definition valid_ids (n : nat) (ids : tensor Z) : bool :=
  forallb (fun z => (0 <=? z)%Z && (z <? Z.of_nat n)%Z) (data ids).

(** [nn.Embedding(n, h)], which refuses a size that is not positive, and its
    lookup: the rows of the weight at the given ids, an id outside the table
    being an invalid argument. *)
Definition Embedding_new (n h : Z) (sample : list nat -> R) : result (tensor R) :=
  if (n <=? 0)%Z || (h <=? 0)%Z then Raise ValueError
  else OK (build [Z.to_nat n; Z.to_nat h] sample).

Definition Embedding_forward (w : tensor R) (ids : tensor Z) : result (tensor R) :=
  match shape w with
  | [v; h] =>
      if forallb (fun z => (0 <=? z)%Z && (z <? Z.of_nat v)%Z) (data ids) then
        OK (build (shape ids ++ [h]) (fun idx =>
              get w [Z.to_nat (get ids (removelast idx)); last idx 0]))
      else Raise ValueError
  | _ => Raise ValueError
  end.

(** [x.expand_as(y)]. *)
Definition expand_as {A B : Type} `{Default A} (x : tensor A) (y : tensor B)
  : result (tensor A) :=
  s <- broadcast_shapes (shape x) (shape y) ;;
  if list_eq_dec Nat.eq_dec s (shape y) then
    OK (build (shape y) (fun idx => get x (bindex (shape x) idx)))
  else Raise ValueError.

(** [x[:, 0]] on a tensor of rank three. *)
Definition select_first {A : Type} `{Default A} (x : tensor A) : result (tensor A) :=
  match shape x with
  | [b; s; h] =>
      if s =? 0 then Raise IndexError
      else OK (build [b; h] (fun idx => get x [nth 0 idx 0; 0; nth 1 idx 0]))
  | _ => Raise IndexError
  end.

(** NumPy arrays: [np.zeros(shape)] and the assignment [a[idx] = v]. *)
Definition np_zeros (s : list Z) : result (tensor R) :=
  if existsb (fun z => (z <? 0)%Z) s then Raise ValueError
  else OK (zeros (map Z.to_nat s)).

Fixpoint in_boundsb (s idx : list nat) : bool :=
  match s, idx with
  | [], [] => true
  | n :: s', i :: idx' => (i <? n) && in_boundsb s' idx'
  | _, _ => false
  end.

Fixpoint update {A : Type} (k : nat) (v : A) (l : list A) : list A :=
  match l, k with
  | [], _ => []
  | _ :: l', O => v :: l'
  | a :: l', S k' => a :: update k' v l'
  end.

Definition setitem {A : Type} (a : tensor A) (idx : list nat) (v : A)
  : result (tensor A) :=
  if in_boundsb (shape a) idx then
    OK (Tensor (shape a) (update (ravel (shape a) idx) v (data a)))
  else Raise IndexError.

(** [paddle.cumsum(x, axis=-1)] on integers. *)
Fixpoint cumsum_row (acc : Z) (l : list Z) : list Z :=
  match l with
  | [] => []
  | x :: l' => add64 acc x :: cumsum_row (add64 acc x) l'
  end.

Definition cumsum (x : tensor Z) : tensor Z :=
  Tensor (shape x)
         (concat (map (cumsum_row 0%Z) (rows (last_dim (shape x)) (data x)))).

(** [paddle.unstack(x, axis=0)]: the slices of [x] along its first axis. *)
Definition unstack {A : Type} (x : tensor A) : result (list (tensor A)) :=
  match shape x with
  | n :: rest =>
      OK (map (fun i => Tensor rest (firstn (numel rest)
                                            (skipn (i * numel rest) (data x))))
              (seq 0 n))
  | [] => Raise ValueError
  end.

End Paddle.

(** ** paddlenlp/transformers/nezha/modeling.py *)

Module NeZha.
Import Paddle.

Definition mish (x : R) : R := (x * tanh (ln (1 + exp x)))%R.
Definition linear_act (x : R) : R := x.
Definition sigmoid (x : R) : R := (1 / (1 + exp (- x)))%R.
Definition swish (x : R) : R := (x * sigmoid x)%R.
Definition relu (x : R) : R := Rmax 0 x.
Definition gelu_new (x : R) : R :=
  (0.5 * x * (1 + tanh (sqrt (2 / PI) * (x + 0.044715 * (x * x * x)))))%R.

(** The activation table; [F.gelu] is the framework's and is a parameter. *)
Definition ACT2FN (F_gelu : R -> R) (name : string) : option (R -> R) :=
  if String.eqb name "relu"%string then Some relu
  else if String.eqb name "gelu"%string then Some F_gelu
  else if String.eqb name "gelu_new"%string then Some gelu_new
  else if String.eqb name "tanh"%string then Some tanh
  else if String.eqb name "sigmoid"%string then Some sigmoid
  else if String.eqb name "mish"%string then Some mish
  else if String.eqb name "linear"%string then Some linear_act
  else if String.eqb name "swish"%string then Some swish
  else None.

Record NeZhaAttention : Type := {
  num_attention_heads : nat;
  attention_head_size : nat;
  all_head_size : nat;
  query : Linear;
  key : Linear;
  value : Linear;
  relative_positions_embeddings : tensor R;
  attention_dropout : Dropout;
  dense : Linear;
  layer_norm : LayerNorm;
  output_dropout : Dropout
}.

(** [pos / np.power(10000, 2 * i / depth)]. *)
Definition angle (pos i depth : nat) : R :=
  (INR pos / Rpower 10000 (INR (2 * i) / INR depth))%R.

(** What the loops of [generate_relative_positions_embeddings] leave at
    row [pos], column [c] of a table of [depth] columns: the columns
    [2 * i] and [2 * i + 1] for [i < depth // 2] are written, a last odd
    column keeps the zero of [np.zeros]. *)
Definition sinusoid (depth pos c : nat) : R :=
  if Nat.even c then sin (angle pos (c / 2) depth) else cos (angle pos (c / 2) depth).

Definition table_entry (depth pos c : nat) : R :=
  if c <? 2 * (depth / 2) then sinusoid depth pos c else 0%R.

(** [clip(x, lo, hi)] on integers, and the bucket of the pair [(i, j)]. *)
Definition clipZ (lo hi z : Z) : Z := Z.min (Z.max z lo) hi.

Definition bucket (max_relative_position : Z) (i j : nat) : Z :=
  (clipZ (- max_relative_position) max_relative_position
         (Z.of_nat j - Z.of_nat i) + max_relative_position)%Z.



Definition generate_relative_positions_embeddings
  (length : nat) (depth max_relative_position : Z) : result (tensor R) :=
  let vocab_size := (max_relative_position * 2 + 1)%Z in
  let range_vec := arange length in
  tiled <- tile range_vec length ;;
  range_mat <- reshape tiled [length; length] ;;
  range_mat_t <- t range_mat ;;
  distance_mat <- subtract_int range_mat range_mat_t ;;
  let distance_mat_clipped :=
    clip (astype_float distance_mat)
         (IZR (- max_relative_position)) (IZR max_relative_position) in
  let final_mat :=
    map1 (fun v => (v + IZR max_relative_position)%R) distance_mat_clipped in
  embeddings_table <- np_zeros [vocab_size; depth] ;;
  embeddings_table <-
    for_range (Z.to_nat vocab_size) (fun pos table =>
      for_range (Z.to_nat (depth / 2)) (fun i table =>
        table <- setitem table [pos; 2 * i] (sin (angle pos i (Z.to_nat depth))) ;;
        setitem table [pos; 2 * i + 1] (cos (angle pos i (Z.to_nat depth))))
        table)
      embeddings_table ;;
  let embeddings_table_tensor := embeddings_table in
  flat_relative_positions_matrix <- reshape_infer final_mat [(-1)%Z] ;;
  one_hot_relative_positions_matrix <-
    one_hot (astype_int64 flat_relative_positions_matrix) (Z.to_nat vocab_size) ;;
  embeddings <- matmul one_hot_relative_positions_matrix embeddings_table_tensor ;;
  let my_shape := shape final_mat ++ [Z.to_nat depth] in
  reshape embeddings my_shape.

(** [NeZhaAttention.__init__].  [init k] gives the initial values of the
    k-th weight the layer creates, [d_hidden] and [d_attn] the random bits
    of its two dropout layers. *)
Definition NeZhaAttention_init
  (hidden_size num_attention_heads : Z)
  (hidden_dropout_prob attention_probs_dropout_prob : R)
  (max_relative_position : Z) (layer_norm_eps : R)
  (init : nat -> list nat -> R) (d_hidden d_attn : nat -> bool)
  : result NeZhaAttention :=
  if (num_attention_heads =? 0)%Z then Raise ZeroDivisionError
  else if negb (hidden_size mod num_attention_heads =? 0)%Z then Raise ValueError
  else
    let attention_head_size :=
      Rtrunc (IZR hidden_size / IZR num_attention_heads) in
    let all_head_size := (num_attention_heads * attention_head_size)%Z in
    query <- Linear_new hidden_size all_head_size (init 0) ;;
    key <- Linear_new hidden_size all_head_size (init 1) ;;
    value <- Linear_new hidden_size all_head_size (init 2) ;;
    relative_positions_embeddings <-
      generate_relative_positions_embeddings
        512 attention_head_size max_relative_position ;;
    dense <- Linear_new hidden_size hidden_size (init 3) ;;
    layer_norm <- LayerNorm_new hidden_size layer_norm_eps ;;
    OK {| num_attention_heads := Z.to_nat num_attention_heads;
          attention_head_size := Z.to_nat attention_head_size;
          all_head_size := Z.to_nat all_head_size;
          query := query;
          key := key;
          value := value;
          relative_positions_embeddings := relative_positions_embeddings;
          attention_dropout :=
            {| rate := attention_probs_dropout_prob; training := true; keep := d_attn |};
          dense := dense;
          layer_norm := layer_norm;
          output_dropout :=
            {| rate := hidden_dropout_prob; training := true; keep := d_hidden |} |}.

Definition transpose_for_scores (self : NeZhaAttention) (x : tensor R)
  : result (tensor R) :=
  let new_x_shape :=
    removelast (shape x) ++ [num_attention_heads self; attention_head_size self] in
  x <- reshape x new_x_shape ;;
  transpose x [0; 2; 1; 3].

(** The local variables of [NeZhaAttention.forward] that the properties
    below speak about, as they are when it returns; [attention_probs] is the
    value the softmax assigns, [attention_probs_dropout] the value the
    dropout then assigns to the same variable. *)
Record forward_locals : Type := {
  query_layer : tensor R;
  key_layer : tensor R;
  value_layer : tensor R;
  attention_scores : tensor R;
  attention_probs : tensor R;
  attention_probs_dropout : tensor R;
  layer_normed_context_layer : tensor R
}.

Definition forward_body (self : NeZhaAttention)
  (hidden_states attention_mask : tensor R) : result forward_locals :=
  mixed_query_layer <- Linear_forward (query self) hidden_states ;;
  mixed_key_layer <- Linear_forward (key self) hidden_states ;;
  mixed_value_layer <- Linear_forward (value self) hidden_states ;;
  query_layer <- transpose_for_scores self mixed_query_layer ;;
  key_layer <- transpose_for_scores self mixed_key_layer ;;
  value_layer <- transpose_for_scores self mixed_value_layer ;;
  key_layer_t <- transpose key_layer [0; 1; 3; 2] ;;
  attention_scores <- matmul query_layer key_layer_t ;;
  match shape attention_scores with
  | [batch_size; num_attention_heads; from_seq_length; to_seq_length] =>
      relations_keys <-
        slice_prefix (relative_positions_embeddings self)
                     [Some to_seq_length; Some to_seq_length; None] ;;
      query_layer_t <- transpose query_layer [2; 0; 1; 3] ;;
      query_layer_r <-
        reshape query_layer_t
                [from_seq_length; batch_size * num_attention_heads;
                 attention_head_size self] ;;
      relations_keys_t <- transpose relations_keys [0; 2; 1] ;;
      key_position_scores <- matmul query_layer_r relations_keys_t ;;
      key_position_scores_r <-
        reshape key_position_scores
                [from_seq_length; batch_size; num_attention_heads; from_seq_length] ;;
      key_position_scores_r_t <- transpose key_position_scores_r [1; 2; 0; 3] ;;
      attention_scores <- add attention_scores key_position_scores_r_t ;;
      let attention_scores :=
        map1 (fun v => (v / sqrt (INR (attention_head_size self)))%R)
             attention_scores in
      attention_scores <- add attention_scores attention_mask ;;
      let attention_probs := softmax attention_scores in
      let attention_probs_dropout :=
        Dropout_forward (attention_dropout self) attention_probs in
      context_layer <- matmul attention_probs_dropout value_layer ;;
      relations_values <-
        slice_prefix (relative_positions_embeddings self)
                     [Some to_seq_length; Some to_seq_length; None] ;;
      attention_probs_t <- transpose attention_probs_dropout [2; 0; 1; 3] ;;
      attentions_probs_r <-
        reshape attention_probs_t
                [from_seq_length; batch_size * num_attention_heads; to_seq_length] ;;
      value_position_scores <- matmul attentions_probs_r relations_values ;;
      value_position_scores_r <-
        reshape value_position_scores
                [from_seq_length; batch_size; num_attention_heads;
                 attention_head_size self] ;;
      value_position_scores_r_t <- transpose value_position_scores_r [1; 2; 0; 3] ;;
      context_layer <- add context_layer value_position_scores_r_t ;;
      context_layer <- transpose context_layer [0; 2; 1; 3] ;;
      let new_context_layer_shape :=
        removelast (removelast (shape context_layer)) ++ [all_head_size self] in
      context_layer <- reshape context_layer new_context_layer_shape ;;
      projected_context_layer <- Linear_forward (dense self) context_layer ;;
      let projected_context_layer_dropout :=
        Dropout_forward (output_dropout self) projected_context_layer in
      residual <- add hidden_states projected_context_layer_dropout ;;
      layer_normed_context_layer <- LayerNorm_forward (layer_norm self) residual ;;
      OK {| query_layer := query_layer;
            key_layer := key_layer;
            value_layer := value_layer;
            attention_scores := attention_scores;
            attention_probs := attention_probs;
            attention_probs_dropout := attention_probs_dropout;
            layer_normed_context_layer := layer_normed_context_layer |}
  | _ => Raise ValueError
  end.

(** [NeZhaAttention.forward]. *)
Definition forward (self : NeZhaAttention) (hidden_states attention_mask : tensor R)
  : result (tensor R * tensor R) :=
  l <- forward_body self hidden_states attention_mask ;;
  OK (layer_normed_context_layer l, attention_scores l).

(** Standard scaled dot-product attention with the same layers, as the
    specification words it: query times transposed key over the square root
    of the head size plus the mask, softmax, times value, merged heads,
    output projection, residual add, layer norm. *)
Definition standard_attention (self : NeZhaAttention)
  (hidden_states attention_mask : tensor R) : result (tensor R * tensor R) :=
  mixed_query_layer <- Linear_forward (query self) hidden_states ;;
  mixed_key_layer <- Linear_forward (key self) hidden_states ;;
  mixed_value_layer <- Linear_forward (value self) hidden_states ;;
  query_layer <- transpose_for_scores self mixed_query_layer ;;
  key_layer <- transpose_for_scores self mixed_key_layer ;;
  value_layer <- transpose_for_scores self mixed_value_layer ;;
  key_layer_t <- transpose key_layer [0; 1; 3; 2] ;;
  qk <- matmul query_layer key_layer_t ;;
  let scaled := map1 (fun v => (v / sqrt (INR (attention_head_size self)))%R) qk in
  scores <- add scaled attention_mask ;;
  let probs := softmax scores in
  context_layer <- matmul probs value_layer ;;
  context_layer <- transpose context_layer [0; 2; 1; 3] ;;
  merged <-
    reshape context_layer
            (removelast (removelast (shape context_layer)) ++ [all_head_size self]) ;;
  projected <- Linear_forward (dense self) merged ;;
  residual <- add hidden_states projected ;;
  out <- LayerNorm_forward (layer_norm self) residual ;;
  OK (out, scores).

Record NeZhaLayer : Type := {
  layer_layer_norm : LayerNorm;
  attention : NeZhaAttention;
  ffn : Linear;
  ffn_output : Linear;
  activation : R -> R;
  dropout : Dropout
}.

Definition NeZhaLayer_init (F_gelu : R -> R)
  (hidden_size num_attention_heads intermediate_size : Z) (hidden_act : string)
  (hidden_dropout_prob attention_probs_dropout_prob : R)
  (max_relative_position : Z) (layer_norm_eps : R)
  (init : nat -> list nat -> R) (d_hidden d_attn d_ffn : nat -> bool)
  : result NeZhaLayer :=
  layer_norm <- LayerNorm_new hidden_size layer_norm_eps ;;
  attention <-
    NeZhaAttention_init hidden_size num_attention_heads hidden_dropout_prob
      attention_probs_dropout_prob max_relative_position layer_norm_eps
      init d_hidden d_attn ;;
  ffn <- Linear_new hidden_size intermediate_size (init 4) ;;
  ffn_output <- Linear_new intermediate_size hidden_size (init 5) ;;
  match ACT2FN F_gelu hidden_act with
  | None => Raise KeyError
  | Some act =>
      OK {| layer_layer_norm := layer_norm;
            attention := attention;
            ffn := ffn;
            ffn_output := ffn_output;
            activation := act;
            dropout := {| rate := hidden_dropout_prob; training := true; keep := d_ffn |} |}
  end.

Definition NeZhaLayer_forward (self : NeZhaLayer)
  (hidden_states attention_mask : tensor R) : result (tensor R * tensor R) :=
  r <- forward (attention self) hidden_states attention_mask ;;
  let attention_output := fst r in
  let layer_att := snd r in
  ffn_out <- Linear_forward (ffn self) attention_output ;;
  let ffn_out := map1 (activation self) ffn_out in
  ffn_out <- Linear_forward (ffn_output self) ffn_out ;;
  let ffn_output_dropout := Dropout_forward (dropout self) ffn_out in
  s <- add ffn_output_dropout attention_output ;;
  hidden_states <- LayerNorm_forward (layer_layer_norm self) s ;;
  OK (hidden_states, layer_att).

Record NeZhaEncoder : Type := { layer : list NeZhaLayer }.

Definition NeZhaEncoder_init (F_gelu : R -> R)
  (hidden_size num_hidden_layers num_attention_heads intermediate_size : Z)
  (hidden_act : string) (hidden_dropout_prob attention_probs_dropout_prob : R)
  (max_relative_position : Z) (layer_norm_eps : R)
  (init : nat -> list nat -> R) (d_hidden d_attn d_ffn : nat -> bool)
  : result NeZhaEncoder :=
  l <- NeZhaLayer_init F_gelu hidden_size num_attention_heads intermediate_size
         hidden_act hidden_dropout_prob attention_probs_dropout_prob
         max_relative_position layer_norm_eps init d_hidden d_attn d_ffn ;;
  OK {| layer := repeat l (Z.to_nat num_hidden_layers) |}.

(** The loop of [NeZhaEncoder.forward] over the remaining layers, with the
    two lists it appends to. *)
Fixpoint encoder_loop (layers : list NeZhaLayer)
  (hidden_states attention_mask : tensor R)
  (all_encoder_layers all_encoder_att : list (tensor R))
  : result (list (tensor R) * list (tensor R)) :=
  match layers with
  | [] => OK (all_encoder_layers ++ [hidden_states], all_encoder_att)
  | layer_module :: rest =>
      let all_encoder_layers := all_encoder_layers ++ [hidden_states] in
      r <- NeZhaLayer_forward layer_module hidden_states attention_mask ;;
      encoder_loop rest (fst r) attention_mask
                   all_encoder_layers (all_encoder_att ++ [snd r])
  end.

Definition NeZhaEncoder_forward (self : NeZhaEncoder)
  (hidden_states attention_mask : tensor R)
  : result (list (tensor R) * list (tensor R)) :=
  encoder_loop (layer self) hidden_states attention_mask [] [].

Record NeZhaEmbeddings : Type := {
  use_relative_position : bool;
  word_embeddings : tensor R;
  position_embeddings : option (tensor R);
  token_type_embeddings : tensor R;
  emb_layer_norm : LayerNorm;
  emb_dropout : Dropout
}.

Definition NeZhaEmbeddings_forward (self : NeZhaEmbeddings)
  (input_ids : tensor Z) (token_type_ids : option (tensor Z)) : result (tensor R) :=
  let seq_length := nth 1 (shape input_ids) 0 in
  let position_ids := arange seq_length in
  position_ids <- unsqueeze position_ids 0 ;;
  position_ids <- expand_as position_ids input_ids ;;
  let token_type_ids :=
    match token_type_ids with
    | None => zeros_like input_ids
    | Some ids => ids
    end in
  words_embeddings <- Embedding_forward (word_embeddings self) input_ids ;;
  let embeddings := words_embeddings in
  embeddings <-
    (if negb (use_relative_position self) then
       match position_embeddings self with
       | Some w =>
           position_embeddings <- Embedding_forward w position_ids ;;
           add embeddings position_embeddings
       | None => Raise ValueError
       end
     else OK embeddings) ;;
  token_type_embeddings <-
    Embedding_forward (token_type_embeddings self) token_type_ids ;;
  embeddings <- add embeddings token_type_embeddings ;;
  embeddings <- LayerNorm_forward (emb_layer_norm self) embeddings ;;
  OK (Dropout_forward (emb_dropout self) embeddings).

Record NeZhaPooler : Type := { pooler_dense : Linear }.

Definition NeZhaPooler_forward (self : NeZhaPooler) (hidden_states : tensor R)
  : result (tensor R) :=
  first_token_tensor <- select_first hidden_states ;;
  pooled_output <- Linear_forward (pooler_dense self) first_token_tensor ;;
  OK (map1 tanh pooled_output).

Record NeZhaModel : Type := {
  embeddings : NeZhaEmbeddings;
  encoder : NeZhaEncoder;
  pooler : NeZhaPooler
}.

(** The first lines of [NeZhaModel.forward]: the default mask and the
    additive mask made of it.  The scalar [1.0] makes the integer ones of
    [ones_like(input_ids)] floats. *)
Definition extended_attention_mask (input_ids : tensor Z)
  (attention_mask : option (tensor R)) : result (tensor R) :=
  let attention_mask :=
    match attention_mask with
    | None => astype_float (ones_like input_ids)
    | Some m => m
    end in
  extended_attention_mask <- unsqueeze attention_mask 1 ;;
  extended_attention_mask <- unsqueeze extended_attention_mask 2 ;;
  OK (map1 (fun v => ((1.0 - v) * -10000.0)%R) extended_attention_mask).

Definition NeZhaModel_forward (self : NeZhaModel) (input_ids : tensor Z)
  (token_type_ids : option (tensor Z)) (attention_mask : option (tensor R))
  : result (tensor R * tensor R) :=
  let token_type_ids :=
    match token_type_ids with
    | None => zeros_like input_ids
    | Some ids => ids
    end in
  extended_attention_mask <- extended_attention_mask input_ids attention_mask ;;
  embedding_output <-
    NeZhaEmbeddings_forward (embeddings self) input_ids (Some token_type_ids) ;;
  r <- NeZhaEncoder_forward (encoder self) embedding_output extended_attention_mask ;;
  let encoder_outputs := fst r in
  let sequence_output := last encoder_outputs (zeros []) in
  pooled_output <- NeZhaPooler_forward (pooler self) sequence_output ;;
  OK (sequence_output, pooled_output).

Record NeZhaConfig : Type := {
  cfg_vocab_size : Z;
  cfg_hidden_size : Z;
  cfg_num_hidden_layers : Z;
  cfg_num_attention_heads : Z;
  cfg_intermediate_size : Z;
  cfg_hidden_act : string;
  cfg_hidden_dropout_prob : R;
  cfg_attention_probs_dropout_prob : R;
  cfg_max_position_embeddings : Z;
  cfg_type_vocab_size : Z;
  cfg_initializer_range : R;
  cfg_max_relative_position : Z;
  cfg_layer_norm_eps : R;
  cfg_use_relative_position : bool
}.

Definition NeZhaEmbeddings_init
  (vocab_size hidden_size : Z) (hidden_dropout_prob : R)
  (max_position_embeddings type_vocab_size : Z) (use_relative_position : bool)
  (init : nat -> list nat -> R) (d_emb : nat -> bool) : result NeZhaEmbeddings :=
  word_embeddings <- Embedding_new vocab_size hidden_size (init 6) ;;
  position_embeddings <-
    (if negb use_relative_position then
       w <- Embedding_new max_position_embeddings hidden_size (init 7) ;; OK (Some w)
     else OK None) ;;
  token_type_embeddings <- Embedding_new type_vocab_size hidden_size (init 8) ;;
  layer_norm <- LayerNorm_new hidden_size 1e-5 ;;
  OK {| use_relative_position := use_relative_position;
        word_embeddings := word_embeddings;
        position_embeddings := position_embeddings;
        token_type_embeddings := token_type_embeddings;
        emb_layer_norm := layer_norm;
        emb_dropout := {| rate := hidden_dropout_prob; training := true; keep := d_emb |} |}.

Definition NeZhaPooler_init (hidden_size : Z) (init : nat -> list nat -> R)
  : result NeZhaPooler :=
  dense <- Linear_new hidden_size hidden_size (init 9) ;;
  OK {| pooler_dense := dense |}.

(** [init_weights], the hook [NeZhaModel.__init__] applies to every
    sublayer: the weight of a linear or embedding layer is drawn again (the
    bias is left as it is), the epsilon of a layer norm becomes 1e-12.
    [normal k] is the k-th draw; every weight gets a draw of its own. *)
Definition init_weights_linear (normal : list nat -> R) (l : Linear) : Linear :=
  {| weight := build (shape (weight l)) normal; bias := bias l |}.

Definition init_weights_embedding (normal : list nat -> R) (w : tensor R)
  : tensor R :=
  build (shape w) normal.

Definition init_weights_norm (ln : LayerNorm) : LayerNorm :=
  {| ln_weight := ln_weight ln; ln_bias := ln_bias ln; epsilon := 1e-12 |}.

Definition init_weights_attention (normal : nat -> list nat -> R)
  (a : NeZhaAttention) : NeZhaAttention :=
  {| num_attention_heads := num_attention_heads a;
     attention_head_size := attention_head_size a;
     all_head_size := all_head_size a;
     query := init_weights_linear (normal 0) (query a);
     key := init_weights_linear (normal 1) (key a);
     value := init_weights_linear (normal 2) (value a);
     relative_positions_embeddings := relative_positions_embeddings a;
     attention_dropout := attention_dropout a;
     dense := init_weights_linear (normal 3) (dense a);
     layer_norm := init_weights_norm (layer_norm a);
     output_dropout := output_dropout a |}.

Definition init_weights_layer (normal : nat -> list nat -> R) (l : NeZhaLayer)
  : NeZhaLayer :=
  {| layer_layer_norm := init_weights_norm (layer_layer_norm l);
     attention := init_weights_attention normal (attention l);
     ffn := init_weights_linear (normal 4) (ffn l);
     ffn_output := init_weights_linear (normal 5) (ffn_output l);
     activation := activation l;
     dropout := dropout l |}.

Definition init_weights_embeddings (normal : nat -> list nat -> R)
  (e : NeZhaEmbeddings) : NeZhaEmbeddings :=
  {| use_relative_position := use_relative_position e;
     word_embeddings := init_weights_embedding (normal 0) (word_embeddings e);
     position_embeddings :=
       match position_embeddings e with
       | Some w => Some (init_weights_embedding (normal 1) w)
       | None => None
       end;
     token_type_embeddings :=
       init_weights_embedding (normal 2) (token_type_embeddings e);
     emb_layer_norm := init_weights_norm (emb_layer_norm e);
     emb_dropout := emb_dropout e |}.

(** The layers of the encoder, the k-th with the draws [normal (4 + 6 * k)]
    and the five after it. *)
Fixpoint init_weights_layers (normal : nat -> list nat -> R) (k : nat)
  (layers : list NeZhaLayer) : list NeZhaLayer :=
  match layers with
  | [] => []
  | l :: rest =>
      init_weights_layer (fun j => normal (4 + 6 * k + j)) l
      :: init_weights_layers normal (S k) rest
  end.

(** [NeZhaModel.__init__]. *)
Definition NeZhaModel_init (F_gelu : R -> R) (cfg : NeZhaConfig)
  (init normal : nat -> list nat -> R) (d_emb d_hidden d_attn d_ffn : nat -> bool)
  : result NeZhaModel :=
  embeddings <-
    NeZhaEmbeddings_init (cfg_vocab_size cfg) (cfg_hidden_size cfg)
      (cfg_hidden_dropout_prob cfg) (cfg_max_position_embeddings cfg)
      (cfg_type_vocab_size cfg) (cfg_use_relative_position cfg) init d_emb ;;
  encoder <-
    NeZhaEncoder_init F_gelu (cfg_hidden_size cfg) (cfg_num_hidden_layers cfg)
      (cfg_num_attention_heads cfg) (cfg_intermediate_size cfg) (cfg_hidden_act cfg)
      (cfg_hidden_dropout_prob cfg) (cfg_attention_probs_dropout_prob cfg)
      (cfg_max_relative_position cfg) (cfg_layer_norm_eps cfg)
      init d_hidden d_attn d_ffn ;;
  pooler <- NeZhaPooler_init (cfg_hidden_size cfg) init ;;
  OK {| embeddings := init_weights_embeddings normal embeddings;
        encoder := {| layer := init_weights_layers normal 0 (layer encoder) |};
        pooler :=
          {| pooler_dense := init_weights_linear (normal 3) (pooler_dense pooler) |} |}.

(** The layer with another relative-position table. *)
Definition with_table (self : NeZhaAttention) (table : tensor R) : NeZhaAttention :=
  {| num_attention_heads := num_attention_heads self;
     attention_head_size := attention_head_size self;
     all_head_size := all_head_size self;
     query := query self;
     key := key self;
     value := value self;
     relative_positions_embeddings := table;
     attention_dropout := attention_dropout self;
     dense := dense self;
     layer_norm := layer_norm self;
     output_dropout := output_dropout self |}.

(** The shapes [__init__] gives the parts of an attention layer for hidden
    states of size [hidden] and a table of length [len]; training and loading
    weights keep them. *)
Record attention_ok (hidden len : nat) (self : NeZhaAttention) : Prop := {
  ok_hidden : hidden = num_attention_heads self * attention_head_size self;
  ok_all_head_size : all_head_size self = hidden;
  ok_query_weight : shape (weight (query self)) = [hidden; all_head_size self];
  ok_query_bias : shape (bias (query self)) = [all_head_size self];
  ok_key_weight : shape (weight (key self)) = [hidden; all_head_size self];
  ok_key_bias : shape (bias (key self)) = [all_head_size self];
  ok_value_weight : shape (weight (value self)) = [hidden; all_head_size self];
  ok_value_bias : shape (bias (value self)) = [all_head_size self];
  ok_dense_weight : shape (weight (dense self)) = [hidden; hidden];
  ok_dense_bias : shape (bias (dense self)) = [hidden];
  ok_norm_weight : length (ln_weight (layer_norm self)) = hidden;
  ok_norm_bias : length (ln_bias (layer_norm self)) = hidden;
  ok_table : shape (relative_positions_embeddings self)
             = [len; len; attention_head_size self]
}.

(** The shapes of the parts of an encoder layer and of a model, as their
    constructors make them. *)
Record layer_ok (hidden intermediate len : nat) (self : NeZhaLayer) : Prop := {
  ok_attention : attention_ok hidden len (attention self);
  ok_ffn_weight : shape (weight (ffn self)) = [hidden; intermediate];
  ok_ffn_bias : shape (bias (ffn self)) = [intermediate];
  ok_ffn_output_weight : shape (weight (ffn_output self)) = [intermediate; hidden];
  ok_ffn_output_bias : shape (bias (ffn_output self)) = [hidden];
  ok_layer_norm_weight : length (ln_weight (layer_layer_norm self)) = hidden;
  ok_layer_norm_bias : length (ln_bias (layer_layer_norm self)) = hidden
}.

Record model_ok (vocab types hidden intermediate len : nat) (self : NeZhaModel)
  : Prop := {
  ok_word : shape (word_embeddings (embeddings self)) = [vocab; hidden];
  ok_types : shape (token_type_embeddings (embeddings self)) = [types; hidden];
  ok_relative : use_relative_position (embeddings self) = true;
  ok_emb_norm_weight : length (ln_weight (emb_layer_norm (embeddings self))) = hidden;
  ok_emb_norm_bias : length (ln_bias (emb_layer_norm (embeddings self))) = hidden;
  ok_layers : Forall (layer_ok hidden intermediate len) (layer (encoder self));
  ok_pooler_weight : shape (weight (pooler_dense (pooler self))) = [hidden; hidden];
  ok_pooler_bias : shape (bias (pooler_dense (pooler self))) = [hidden]
}.

(** The task heads. *)
Record NeZhaForSequenceClassification : Type := {
  sc_nezha : NeZhaModel;
  sc_dropout : Dropout;
  sc_classifier : Linear
}.

Definition NeZhaForSequenceClassification_forward
  (self : NeZhaForSequenceClassification) (input_ids : tensor Z)
  (token_type_ids : option (tensor Z)) (attention_mask : option (tensor R))
  : result (tensor R) :=
  r <- NeZhaModel_forward (sc_nezha self) input_ids token_type_ids attention_mask ;;
  let pooled_output := snd r in
  let pooled_output := Dropout_forward (sc_dropout self) pooled_output in
  Linear_forward (sc_classifier self) pooled_output.

Record NeZhaForTokenClassification : Type := {
  tc_nezha : NeZhaModel;
  tc_dropout : Dropout;
  tc_classifier : Linear
}.

Definition NeZhaForTokenClassification_forward
  (self : NeZhaForTokenClassification) (input_ids : tensor Z)
  (token_type_ids : option (tensor Z)) (attention_mask : option (tensor R))
  : result (tensor R) :=
  r <- NeZhaModel_forward (tc_nezha self) input_ids token_type_ids attention_mask ;;
  let sequence_output := fst r in
  let sequence_output := Dropout_forward (tc_dropout self) sequence_output in
  Linear_forward (tc_classifier self) sequence_output.

Record NeZhaForQuestionAnswering : Type := {
  qa_nezha : NeZhaModel;
  qa_classifier : Linear
}.

Definition NeZhaForQuestionAnswering_forward
  (self : NeZhaForQuestionAnswering) (input_ids : tensor Z)
  (token_type_ids : option (tensor Z)) (attention_mask : option (tensor R))
  : result (tensor R * tensor R) :=
  r <- NeZhaModel_forward (qa_nezha self) input_ids token_type_ids attention_mask ;;
  let sequence_output := fst r in
  logits <- Linear_forward (qa_classifier self) sequence_output ;;
  logits <- transpose logits [2; 0; 1] ;;
  parts <- unstack logits ;;
  match parts with
  | [start_logits; end_logits] => OK (start_logits, end_logits)
  | _ => Raise ValueError
  end.

End NeZha.

(** ** paddlenlp/transformers/electra/modeling.py *)

Module Electra.
Import Paddle.

(** [ElectraForTotalPretraining.sample_from_softmax]; [rnd] is the rounding
    of the default float type, in which the softmax is computed, and [rng]
    the state of the random generator [paddle.rand] draws from. *)
Definition sample_from_softmax (rnd : R -> R) (logits : tensor R)
  (use_softmax_sample : bool) (rng : nat -> R) : result (tensor R) :=
  let gumbel_noise :=
    if use_softmax_sample then
      let uniform_noise := rand (shape logits) rng in
      map1 (fun u => (- ln (- ln (u + 1e-9) + 1e-9))%R) uniform_noise
    else zeros (shape logits) in
  noisy <- add logits gumbel_noise ;;
  softmax_sample <- argmax (softmax_rounded rnd noisy) ;;
  one_hot softmax_sample (last_dim (shape logits)).

Definition update_inputs (sequence updates positions : tensor Z)
  : result (tensor Z) :=
  match shape sequence with
  | [_; L] =>
      match shape positions with
      | _ :: N :: _ =>
          if N =? L then
            keep <- subtract_int (ones_like sequence) positions ;;
            kept <- multiply_int keep sequence ;;
            new <- multiply_int positions updates ;;
            add_int kept new
          else Raise AssertionError
      | _ => Raise IndexError
      end
  | _ => Raise AssertionError
  end.

Definition get_discriminator_inputs (rnd : R -> R)
  (inputs raw_inputs : tensor Z) (gen_logits : tensor R) (gen_labels : tensor Z)
  (use_softmax_sample : bool) (rng : nat -> R)
  : result (tensor Z * tensor Z * tensor Z) :=
  sampled_tokens <- sample_from_softmax rnd gen_logits use_softmax_sample rng ;;
  sampled_tokids <- argmax sampled_tokens ;;
  let umask_positions := zeros_like gen_labels in
  let mask_positions := ones_like gen_labels in
  mask_positions <-
    where_ (map1 (fun z => (z =? -100)%Z) gen_labels) umask_positions mask_positions ;;
  updated_inputs <- update_inputs inputs sampled_tokids mask_positions ;;
  same <- equal updated_inputs raw_inputs ;;
  changed <- subtract_int (ones_like inputs) (astype_int same) ;;
  labels <- multiply_int mask_positions changed ;;
  OK (updated_inputs, labels, sampled_tokids).

Record ElectraPretrainingCriterion : Type := {
  vocab_size : nat;
  gen_weight : R;
  disc_weight : R
}.

(** [nn.CrossEntropyLoss(reduction='none')] on logits of shape [n, c] and
    labels of shape [n]: a label equal to [ignore_index], -100 by default,
    gives a zero loss, any other the negated logarithm of its softmax
    probability, the softmax being the kernel's, which clips the shifted
    logits at -64. *)
Definition cross_entropy (logits : list R) (label : Z) : R :=
  if (label =? -100)%Z then 0%R
  else (- ln (nth (Z.to_nat label) (softmax_row logits) 0))%R.

Fixpoint cross_entropy_rows (logits : list (list R)) (labels : list Z) : list R :=
  match logits, labels with
  | l :: logits', y :: labels' => cross_entropy l y :: cross_entropy_rows logits' labels'
  | _, _ => []
  end.

Definition gen_loss_fct (input : tensor R) (label : tensor Z) : result (tensor R) :=
  match shape input, shape label with
  | [n; c], [n'] =>
      if n =? n' then
        if forallb (fun y => (y =? -100)%Z || ((0 <=? y)%Z && (y <? Z.of_nat c)%Z))
                   (data label) then
          OK (Tensor [n] (cross_entropy_rows (rows c (data input)) (data label)))
        else Raise ValueError
      else Raise ValueError
  | _, _ => Raise ValueError
  end.

(** [nn.BCEWithLogitsLoss(reduction='none')]; the kernel gives a zero loss
    at a label equal to its [ignore_index], -100. *)
Definition bce_with_logits (x y : R) : R :=
  if Req_dec_T y (-100) then 0%R
  else (Rmax x 0 - x * y + ln (1 + exp (- Rabs x)))%R.

Definition disc_loss_fct (logit label : tensor R) : result (tensor R) :=
  if list_eq_dec Nat.eq_dec (shape logit) (shape label) then
    map2 bce_with_logits logit label
  else Raise ValueError.

(** [ElectraPretrainingCriterion.forward]; the one-element tensors of the
    sums and of the loss are read as scalars, and the two quotients, whose
    divisors are counts of positions, as floats that may not be finite. *)
Definition forward (self : ElectraPretrainingCriterion)
  (generator_prediction_scores discriminator_prediction_scores : tensor R)
  (generator_labels discriminator_labels : tensor Z)
  (attention_mask : option (tensor bool)) : result fval :=
  scores <- reshape_infer generator_prediction_scores
                          [(-1)%Z; Z.of_nat (vocab_size self)] ;;
  flat_labels <- reshape_infer generator_labels [(-1)%Z] ;;
  gen_loss <- gen_loss_fct scores flat_labels ;;
  let umask_positions := astype_float (zeros_like generator_labels) in
  let mask_positions := astype_float (ones_like generator_labels) in
  mask_positions <-
    where_ (map1 (fun z => (z =? -100)%Z) generator_labels)
           umask_positions mask_positions ;;
  let gen_loss :=
    if Req_dec_T (sum mask_positions) 0 then Finite 0
    else fdiv (sum gen_loss) (sum mask_positions) in
  match shape discriminator_labels with
  | _ :: seq_length :: _ =>
      disc_scores <- reshape_infer discriminator_prediction_scores
                                   [(-1)%Z; Z.of_nat seq_length] ;;
      disc_loss <- disc_loss_fct disc_scores (astype_float discriminator_labels) ;;
      disc_loss <-
        match attention_mask with
        | Some attention_mask =>
            let umask_positions := astype_float (ones_like discriminator_labels) in
            let mask_positions := astype_float (zeros_like discriminator_labels) in
            use_disc_loss <- where_ attention_mask disc_loss mask_positions ;;
            umask_positions <- where_ attention_mask umask_positions mask_positions ;;
            OK (fdiv (sum use_disc_loss) (sum umask_positions))
        | None =>
            let total_positions := astype_float (ones_like discriminator_labels) in
            OK (fdiv (sum disc_loss) (sum total_positions))
        end ;;
      OK (fadd (fscale (gen_weight self) gen_loss)
               (fscale (disc_weight self) disc_loss))
  | _ => Raise IndexError
  end.

(** The position ids [ElectraEmbeddings.forward] (and DistilBERT's
    [BertEmbeddings.forward], with the same lines) makes when none are given. *)
Definition default_position_ids (input_ids : tensor Z) : result (tensor Z) :=
  let ones := ones_like input_ids in
  let seq_length := cumsum ones in
  subtract_int seq_length ones.

Record ElectraEmbeddings : Type := {
  word_embeddings : tensor R;
  position_embeddings : tensor R;
  token_type_embeddings : tensor R;
  layer_norm : LayerNorm;
  dropout : Dropout
}.

Definition ElectraEmbeddings_forward (self : ElectraEmbeddings)
  (input_ids : tensor Z) (token_type_ids position_ids : option (tensor Z))
  : result (tensor R) :=
  position_ids <-
    match position_ids with
    | None => default_position_ids input_ids
    | Some ids => OK ids
    end ;;
  let token_type_ids :=
    match token_type_ids with
    | None => zeros_like input_ids
    | Some ids => ids
    end in
  input_embeddings <- Embedding_forward (word_embeddings self) input_ids ;;
  position_embeddings <- Embedding_forward (position_embeddings self) position_ids ;;
  token_type_embeddings <-
    Embedding_forward (token_type_embeddings self) token_type_ids ;;
  embeddings <- add input_embeddings position_embeddings ;;
  embeddings <- add embeddings token_type_embeddings ;;
  embeddings <- LayerNorm_forward (layer_norm self) embeddings ;;
  OK (Dropout_forward (dropout self) embeddings).

(** The additive mask [ElectraModel.forward] (and [DistilBertModel.forward])
    makes of the padding positions when no attention mask is given. *)
Definition default_attention_mask (input_ids : tensor Z) (pad_token_id : Z)
  : result (tensor R) :=
  let is_pad := map1 (fun z => (z =? pad_token_id)%Z) input_ids in
  let scaled := map1 (fun v => (v * -1e9)%R) (astype_float (astype_int is_pad)) in
  m <- unsqueeze scaled 1 ;;
  unsqueeze m 2.

(** [ElectraModel.forward]; the transformer encoder is the framework's and
    is a field of the model here. *)
Record ElectraModel : Type := {
  pad_token_id : Z;
  embeddings : ElectraEmbeddings;
  embeddings_project : option Linear;
  encoder : tensor R -> tensor R -> result (tensor R)
}.

Definition ElectraModel_forward (self : ElectraModel) (input_ids : tensor Z)
  (token_type_ids position_ids : option (tensor Z))
  (attention_mask : option (tensor R)) : result (tensor R) :=
  attention_mask <-
    match attention_mask with
    | None => default_attention_mask input_ids (pad_token_id self)
    | Some m => OK m
    end ;;
  embedding_output <-
    ElectraEmbeddings_forward (embeddings self) input_ids token_type_ids position_ids ;;
  embedding_output <-
    match embeddings_project self with
    | Some p => Linear_forward p embedding_output
    | None => OK embedding_output
    end ;;
  encoder self embedding_output attention_mask.

(** [ElectraPretrainedModel._tie_or_clone_weights] on the weight and bias of
    the output embeddings and the weight of the input embeddings; the result
    is the weight the output embeddings have afterwards. *)
Definition tie_or_clone_weights (output_weight : tensor R)
  (output_bias : option (tensor R)) (input_weight : tensor R)
  : result (tensor R) :=
  new_weight <-
    (if list_eq_dec Nat.eq_dec (shape output_weight) (shape input_weight) then
       OK input_weight
     else
       transposed <- t input_weight ;;
       if list_eq_dec Nat.eq_dec (shape output_weight) (shape transposed) then
         OK transposed
       else Raise ValueError) ;;
  match output_bias with
  | Some b =>
      if last_dim (shape new_weight) =? nth 0 (shape b) 0 then OK new_weight
      else Raise ValueError
  | None => OK new_weight
  end.

End Electra.

(** ** A small model, to run the statements on *)

Module Examples.
Import Paddle.

Definition tiny_linear (i o : nat) : Linear :=
  {| weight := full [i; o] 1%R; bias := zeros [o] |}.

Definition no_dropout : Dropout :=
  {| rate := 0%R; training := false; keep := fun _ => true |}.

Definition tiny_norm (n : nat) : LayerNorm :=
  {| ln_weight := repeat 1%R n; ln_bias := repeat 0%R n; epsilon := 1e-12 |}.

(** One head of size 2 over hidden states of size 2, a table of length 3. *)
Definition tiny_attention : NeZha.NeZhaAttention :=
  {| NeZha.num_attention_heads := 1;
     NeZha.attention_head_size := 2;
     NeZha.all_head_size := 2;
     NeZha.query := tiny_linear 2 2;
     NeZha.key := tiny_linear 2 2;
     NeZha.value := tiny_linear 2 2;
     NeZha.relative_positions_embeddings := full [3; 3; 2] 1%R;
     NeZha.attention_dropout := no_dropout;
     NeZha.dense := tiny_linear 2 2;
     NeZha.layer_norm := tiny_norm 2;
     NeZha.output_dropout := no_dropout |}.

(** One head of size 2 with projections that differ from one another, a
    table of length 3 with entries of both signs, and an input of three
    positions whose last one is masked. *)
Definition small_attention : NeZha.NeZhaAttention :=
  {| NeZha.num_attention_heads := 1;
     NeZha.attention_head_size := 2;
     NeZha.all_head_size := 2;
     NeZha.query :=
       {| weight := Tensor [2; 2] [1; 0; 0; 1]%R; bias := Tensor [2] [0; 1]%R |};
     NeZha.key :=
       {| weight := Tensor [2; 2] [0; 1; 1; 0]%R; bias := Tensor [2] [1; 0]%R |};
     NeZha.value :=
       {| weight := Tensor [2; 2] [1; 1; 0; 1]%R; bias := Tensor [2] [0; 0]%R |};
     NeZha.relative_positions_embeddings :=
       Tensor [3; 3; 2]
         [0; 1; 1; 0; 2; -1; -1; 0; 0; 1; 1; 0; -2; 1; -1; 0; 0; 1]%R;
     NeZha.attention_dropout := no_dropout;
     NeZha.dense :=
       {| weight := Tensor [2; 2] [1; -1; 2; 1]%R; bias := Tensor [2] [0; 0]%R |};
     NeZha.layer_norm := tiny_norm 2;
     NeZha.output_dropout := no_dropout |}.

Definition small_hidden_states : tensor R :=
  Tensor [1; 3; 2] [1; 2; 3; 4; 5; 6]%R.

Definition small_attention_mask : tensor R :=
  Tensor [1; 1; 1; 3] [0; 0; -10000]%R.

Definition tiny_layer : NeZha.NeZhaLayer :=
  {| NeZha.layer_layer_norm := tiny_norm 2;
     NeZha.attention := tiny_attention;
     NeZha.ffn := tiny_linear 2 4;
     NeZha.ffn_output := tiny_linear 4 2;
     NeZha.activation := NeZha.relu;
     NeZha.dropout := no_dropout |}.

(** A vocabulary of 8 tokens, 2 token types, two layers. *)
Definition tiny_model : NeZha.NeZhaModel :=
  {| NeZha.embeddings :=
       {| NeZha.use_relative_position := true;
          NeZha.word_embeddings := full [8; 2] 1%R;
          NeZha.position_embeddings := None;
          NeZha.token_type_embeddings := zeros [2; 2];
          NeZha.emb_layer_norm := tiny_norm 2;
          NeZha.emb_dropout := no_dropout |};
     NeZha.encoder := {| NeZha.layer := [tiny_layer; tiny_layer] |};
     NeZha.pooler := {| NeZha.pooler_dense := tiny_linear 2 2 |} |}.

Definition tiny_embeddings (vocab positions types e : nat)
  : Electra.ElectraEmbeddings :=
  {| Electra.word_embeddings := full [vocab; e] 1%R;
     Electra.position_embeddings := full [positions; e] 1%R;
     Electra.token_type_embeddings := full [types; e] 1%R;
     Electra.layer_norm := tiny_norm e;
     Electra.dropout := no_dropout |}.

(** An ELECTRA model whose encoder gives back its input. *)
Definition tiny_electra (vocab positions types e : nat) : Electra.ElectraModel :=
  {| Electra.pad_token_id := 0;
     Electra.embeddings := tiny_embeddings vocab positions types e;
     Electra.embeddings_project := None;
     Electra.encoder := fun x _ => OK x |}.

Definition tiny_config : NeZha.NeZhaConfig :=
  {| NeZha.cfg_vocab_size := 8;
     NeZha.cfg_hidden_size := 4;
     NeZha.cfg_num_hidden_layers := 2;
     NeZha.cfg_num_attention_heads := 2;
     NeZha.cfg_intermediate_size := 8;
     NeZha.cfg_hidden_act := "relu";
     NeZha.cfg_hidden_dropout_prob := 0.1%R;
     NeZha.cfg_attention_probs_dropout_prob := 0.1%R;
     NeZha.cfg_max_position_embeddings := 512;
     NeZha.cfg_type_vocab_size := 2;
     NeZha.cfg_initializer_range := 0.02%R;
     NeZha.cfg_max_relative_position := 64;
     NeZha.cfg_layer_norm_eps := 1e-12%R;
     NeZha.cfg_use_relative_position := true |}.

End Examples.

Import Paddle.

(** ** Facts about the tensor framework *)

Section Indexing.

Lemma numel_app (a b : list nat) : numel (a ++ b) = numel a * numel b.
Proof.
  induction a as [|n a IH]; simpl.
  - lia.
  - rewrite IH. lia.
Qed.

Lemma in_bounds_length (s idx : list nat) :
  in_bounds s idx -> length idx = length s.
Proof.
  revert idx; induction s as [|n s IH]; intros [|i idx]; simpl; try tauto.
  intros [_ H]. f_equal. auto.
Qed.

Lemma ravel_lt (s idx : list nat) : in_bounds s idx -> ravel s idx < numel s.
Proof.
  revert idx; induction s as [|n s IH]; intros [|i idx]; simpl; try tauto.
  - lia.
  - intros [Hi H]. specialize (IH _ H). nia.
Qed.

Lemma unravel_ravel (s idx : list nat) :
  in_bounds s idx -> unravel s (ravel s idx) = idx.
Proof.
  revert idx; induction s as [|n s IH]; intros [|i idx]; simpl; try tauto.
  intros [Hi H]. pose proof (ravel_lt _ _ H) as Hlt.
  assert (Hn : numel s <> 0) by lia.
  rewrite Nat.div_add_l, Nat.div_small, Nat.add_0_r by assumption.
  f_equal.
  rewrite Nat.add_comm, Nat.Div0.mod_add, Nat.mod_small by assumption.
  auto.
Qed.

Lemma unravel_in_bounds (s : list nat) (k : nat) :
  k < numel s -> in_bounds s (unravel s k).
Proof.
  revert k; induction s as [|n s IH]; intros k Hk; simpl in *.
  - exact I.
  - assert (Hn : numel s <> 0) by (intro E; rewrite E in Hk; lia).
    split.
    + apply Nat.Div0.div_lt_upper_bound. lia.
    + apply IH. apply Nat.mod_upper_bound. assumption.
Qed.

Lemma ravel_unravel (s : list nat) (k : nat) :
  k < numel s -> ravel s (unravel s k) = k.
Proof.
  revert k; induction s as [|n s IH]; intros k Hk; simpl in *.
  - lia.
  - assert (Hn : numel s <> 0) by (intro E; rewrite E in Hk; lia).
    rewrite IH by (apply Nat.mod_upper_bound; assumption).
    pose proof (Nat.div_mod_eq k (numel s)). lia.
Qed.

Lemma in_boundsb_spec (s idx : list nat) :
  in_boundsb s idx = true <-> in_bounds s idx.
Proof.
  revert idx; induction s as [|n s IH]; intros [|i idx]; simpl;
    try (split; [discriminate | tauto]).
  - tauto.
  - rewrite andb_true_iff, Nat.ltb_lt, IH. tauto.
Qed.

End Indexing.

Section Buffers.

Context {A : Type}.

Lemma nth_map_seq (f : nat -> A) (n k : nat) (d : A) :
  k < n -> nth k (map f (seq 0 n)) d = f k.
Proof.
  intros Hk.
  rewrite (nth_indep _ d (f 0)) by (rewrite length_map, length_seq; assumption).
  rewrite map_nth, seq_nth by assumption. reflexivity.
Qed.

Lemma map_seq_nth (l : list A) (d : A) :
  map (fun k => nth k l d) (seq 0 (length l)) = l.
Proof.
  apply (nth_ext _ _ d d).
  - rewrite length_map, length_seq. reflexivity.
  - intros k Hk. rewrite length_map, length_seq in Hk.
    apply nth_map_seq. assumption.
Qed.

Lemma map_seq_ext (f g : nat -> A) (n : nat) :
  (forall k, k < n -> f k = g k) -> map f (seq 0 n) = map g (seq 0 n).
Proof.
  intros H. apply map_ext_in. intros k Hk. apply in_seq in Hk. apply H. lia.
Qed.

Lemma shape_build (s : list nat) (g : list nat -> A) : shape (build s g) = s.
Proof. reflexivity. Qed.

Lemma wf_build (s : list nat) (g : list nat -> A) : wf (build s g).
Proof. unfold wf, build; simpl. rewrite length_map, length_seq. reflexivity. Qed.

Lemma wf_full (s : list nat) (v : A) : wf (full s v).
Proof. unfold wf, full; simpl. apply repeat_length. Qed.

Lemma build_ext (s : list nat) (g g' : list nat -> A) :
  (forall idx, in_bounds s idx -> g idx = g' idx) -> build s g = build s g'.
Proof.
  intros H. unfold build. f_equal. apply map_seq_ext.
  intros k Hk. apply H, unravel_in_bounds, Hk.
Qed.

Context `{Default A}.

Lemma get_build (s : list nat) (g : list nat -> A) (idx : list nat) :
  in_bounds s idx -> get (build s g) idx = g idx.
Proof.
  intros Hb. unfold get, build; simpl.
  rewrite nth_map_seq by (apply ravel_lt; assumption).
  rewrite unravel_ravel by assumption. reflexivity.
Qed.

Lemma build_get (x : tensor A) : wf x -> build (shape x) (get x) = x.
Proof.
  intros Hwf. destruct x as [s d]; unfold wf, build, get in *; simpl in *.
  f_equal. rewrite <- Hwf.
  rewrite <- (map_seq_nth d dflt) at 2.
  apply map_seq_ext. intros k Hk. rewrite ravel_unravel by lia. reflexivity.
Qed.

Lemma get_full (s : list nat) (v : A) (idx : list nat) :
  in_bounds s idx -> get (full s v) idx = v.
Proof.
  intros Hb. unfold get, full; simpl.
  apply nth_repeat_lt. apply ravel_lt. assumption.
Qed.

End Buffers.

Section Broadcasting.

Lemma broadcast_rev_same (r : list nat) : broadcast_rev r r = OK r.
Proof.
  induction r as [|a r IH]; simpl.
  - reflexivity.
  - rewrite IH; simpl. rewrite Nat.eqb_refl. reflexivity.
Qed.

Lemma broadcast_shapes_same (s : list nat) : broadcast_shapes s s = OK s.
Proof.
  unfold broadcast_shapes. rewrite broadcast_rev_same; simpl.
  rewrite rev_involutive. reflexivity.
Qed.

Lemma bindex_same (s idx : list nat) : in_bounds s idx -> bindex s idx = idx.
Proof.
  intros Hb. unfold bindex.
  rewrite (in_bounds_length _ _ Hb), Nat.sub_diag; simpl.
  revert idx Hb; induction s as [|n s IH]; intros [|i idx]; simpl; try tauto.
  intros [Hi Hb]. rewrite IH by assumption. f_equal.
  destruct (Nat.eqb_spec n 1); lia.
Qed.

Context {A B C : Type} `{Default A} `{Default B}.

Lemma map2_same_shape (f : A -> B -> C) (x : tensor A) (y : tensor B) :
  shape x = shape y ->
  map2 f x y = OK (build (shape x) (fun idx => f (get x idx) (get y idx))).
Proof.
  intros E. unfold map2. rewrite <- E, broadcast_shapes_same; simpl.
  f_equal. apply build_ext. intros idx Hb. rewrite bindex_same by assumption.
  reflexivity.
Qed.

Lemma map2_broadcast (f : A -> B -> C) (x : tensor A) (y : tensor B) (s : list nat) :
  broadcast_shapes (shape x) (shape y) = OK s ->
  map2 f x y = OK (build s (fun idx => f (get x (bindex (shape x) idx))
                                         (get y (bindex (shape y) idx)))).
Proof. intros E. unfold map2. rewrite E. reflexivity. Qed.

Lemma map2_raises (f : A -> B -> C) (x : tensor A) (y : tensor B) (e : error) :
  broadcast_shapes (shape x) (shape y) = Raise e -> map2 f x y = Raise e.
Proof. intros E. unfold map2. rewrite E. reflexivity. Qed.

End Broadcasting.

Section Operations.

Lemma split_last2_app (b : list nat) (m n : nat) :
  split_last2 (b ++ [m; n]) = Some (b, m, n).
Proof.
  unfold split_last2. rewrite rev_app_distr; simpl. rewrite rev_involutive.
  reflexivity.
Qed.

Lemma matmul_ok (x y : tensor R) (bx by_ bs : list nat) (m k n : nat) :
  shape x = bx ++ [m; k] -> shape y = by_ ++ [k; n] ->
  broadcast_shapes bx by_ = OK bs ->
  matmul x y =
  OK (build (bs ++ [m; n]) (fun idx =>
        let bi := firstn (length bs) idx in
        let i := nth (length bs) idx 0 in
        let j := nth (S (length bs)) idx 0 in
        dot k (fun t => get x (bindex bx bi ++ [i; t]))
              (fun t => get y (bindex by_ bi ++ [t; j])))).
Proof.
  intros Ex Ey Eb. unfold matmul.
  rewrite Ex, Ey, !split_last2_app, Nat.eqb_refl, Eb. reflexivity.
Qed.

Lemma matmul_raises (x y : tensor R) (bx by_ : list nat) (m k n : nat) (e : error) :
  shape x = bx ++ [m; k] -> shape y = by_ ++ [k; n] ->
  broadcast_shapes bx by_ = Raise e ->
  matmul x y = Raise e.
Proof.
  intros Ex Ey Eb. unfold matmul.
  rewrite Ex, Ey, !split_last2_app, Nat.eqb_refl, Eb. reflexivity.
Qed.

Lemma reshape_ok {A : Type} (x : tensor A) (s : list nat) :
  numel (shape x) = numel s -> reshape x s = OK (Tensor s (data x)).
Proof. intros E. unfold reshape. rewrite E, Nat.eqb_refl. reflexivity. Qed.

Lemma wf_reshaped {A : Type} (x : tensor A) (s : list nat) :
  wf x -> numel (shape x) = numel s -> wf (Tensor s (data x)).
Proof. unfold wf; simpl. intros -> E. exact E. Qed.

Lemma get_reshaped {A : Type} `{Default A} (x : tensor A) (s idx idx' : list nat) :
  ravel s idx = ravel (shape x) idx' ->
  get (Tensor s (data x)) idx = get x idx'.
Proof. unfold get; simpl. intros ->. reflexivity. Qed.

Lemma dot_ext (k : nat) (f g f' g' : nat -> R) :
  (forall t, t < k -> f t = f' t) -> (forall t, t < k -> g t = g' t) ->
  dot k f g = dot k f' g'.
Proof.
  intros Hf Hg. unfold dot. f_equal. apply map_seq_ext.
  intros t Ht. rewrite Hf, Hg by assumption. reflexivity.
Qed.

Lemma dot_zero_r (k : nat) (f g : nat -> R) :
  (forall t, t < k -> g t = 0%R) -> dot k f g = 0%R.
Proof.
  intros Hg. unfold dot.
  rewrite (map_seq_ext _ (fun _ => 0%R)).
  - induction (seq 0 k); simpl; [reflexivity | rewrite IHl; lra].
  - intros t Ht. rewrite Hg by assumption. lra.
Qed.

End Operations.

Section Layers.

Lemma transpose_ok {A : Type} `{Default A} (x : tensor A) (perm : list nat) :
  is_perm perm (length (shape x)) = true ->
  transpose x perm =
  OK (build (map (fun a => nth a (shape x) 0) perm)
            (fun idx => get x (map (fun c => nth (index_of c perm) idx 0)
                                   (seq 0 (length perm))))).
Proof. intros E. unfold transpose. rewrite E. reflexivity. Qed.

Lemma Linear_forward_ok (l : Linear) (x : tensor R) (b s i o : nat) :
  shape x = [b; s; i] -> shape (weight l) = [i; o] -> shape (bias l) = [o] ->
  exists y, Linear_forward l x = OK y /\ shape y = [b; s; o] /\ wf y.
Proof.
  intros Ex Ew Eb. unfold Linear_forward.
  rewrite (matmul_ok x (weight l) [b] [] [b] s i o Ex Ew eq_refl); cbn [bind].
  unfold add. erewrite map2_broadcast.
  - eexists; split; [reflexivity | split; [reflexivity | apply wf_build]].
  - rewrite shape_build, Eb. unfold broadcast_shapes; simpl.
    rewrite Nat.eqb_refl. reflexivity.
Qed.

Lemma transpose_for_scores_ok (self : NeZha.NeZhaAttention) (x : tensor R)
  (b s : nat) :
  shape x = [b; s; NeZha.num_attention_heads self * NeZha.attention_head_size self] ->
  exists y, NeZha.transpose_for_scores self x = OK y /\
    shape y = [b; NeZha.num_attention_heads self; s; NeZha.attention_head_size self] /\
    wf y /\
    forall ib ih i k,
      ib < b -> ih < NeZha.num_attention_heads self -> i < s ->
      k < NeZha.attention_head_size self ->
      get y [ib; ih; i; k] = get x [ib; i; ih * NeZha.attention_head_size self + k].
Proof.
  intros Ex. unfold NeZha.transpose_for_scores.
  set (H := NeZha.num_attention_heads self) in *.
  set (d := NeZha.attention_head_size self) in *.
  rewrite reshape_ok by (rewrite Ex; simpl; lia). cbn [bind].
  rewrite transpose_ok by (rewrite Ex; reflexivity).
  eexists; split; [reflexivity|].
  split; [rewrite Ex; reflexivity|]. split; [apply wf_build|].
  intros ib ih i k Hb Hh Hi Hk.
  rewrite get_build by (rewrite Ex; simpl; lia).
  cbn. apply get_reshaped. rewrite Ex; simpl. lia.
Qed.

End Layers.

Section Zero.

Lemma get_is_zero (x : tensor R) (idx : list nat) : is_zero x -> get x idx = 0%R.
Proof.
  unfold is_zero, get. intros Hz.
  destruct (Nat.lt_ge_cases (ravel (shape x) idx) (length (data x))) as [Hlt | Hge].
  - symmetry. apply (proj1 (Forall_nth _ _) Hz). assumption.
  - apply nth_overflow. assumption.
Qed.

Lemma is_zero_build (s : list nat) (g : list nat -> R) :
  (forall idx, g idx = 0%R) -> is_zero (build s g).
Proof.
  intros Hg. unfold is_zero, build; simpl.
  apply Forall_map, Forall_forall. intros k _. symmetry. apply Hg.
Qed.

Lemma add_zero_r (x z : tensor R) :
  wf x -> shape x = shape z -> is_zero z -> add x z = OK x.
Proof.
  intros Hwf Es Hz. unfold add. rewrite map2_same_shape by assumption.
  f_equal. rewrite <- (build_get x Hwf) at 2.
  apply build_ext. intros idx _. rewrite (get_is_zero z) by assumption. lra.
Qed.

End Zero.

Section Scores.

Variables (b h s d : nat).

Lemma content_scores_ok (q k : tensor R) :
  shape q = [b; h; s; d] -> shape k = [b; h; s; d] ->
  exists kt qk,
    transpose k [0; 1; 3; 2] = OK kt /\ matmul q kt = OK qk /\
    shape qk = [b; h; s; s] /\ wf qk /\
    forall ib ih i j, ib < b -> ih < h -> i < s -> j < s ->
      get qk [ib; ih; i; j]
      = dot d (fun t => get q [ib; ih; i; t]) (fun t => get k [ib; ih; j; t]).
Proof.
  intros Eq Ek.
  set (kt := build [b; h; d; s] (fun idx =>
                get k [nth 0 idx 0; nth 1 idx 0; nth 3 idx 0; nth 2 idx 0])).
  assert (Skt : shape kt = [b; h] ++ [d; s]) by reflexivity.
  assert (Sq : shape q = [b; h] ++ [s; d]) by exact Eq.
  exists kt. eexists.
  split; [rewrite transpose_ok by (rewrite Ek; reflexivity); rewrite Ek; reflexivity|].
  split; [exact (matmul_ok q kt [b; h] [b; h] [b; h] s d s Sq Skt
                           (broadcast_shapes_same _))|].
  split; [reflexivity|]. split; [apply wf_build|].
  intros ib ih i j Hb Hh Hi Hj.
  rewrite get_build by (simpl; lia).
  cbn [length firstn nth].
  rewrite bindex_same by (simpl; lia).
  apply dot_ext; intros t Ht; [reflexivity|].
  unfold kt. rewrite get_build by (simpl; lia). reflexivity.
Qed.

End Scores.

Section RelativeProduct.

Variables (b h s k n : nat).

(** The product of a per-head tensor with a per-position matrix, as
    [forward] computes it twice: heads and batch flattened behind the
    position axis, a batched product over positions, and back. *)
Lemma relative_product_ok (x w : tensor R) :
  shape x = [b; h; s; k] -> shape w = [s; k; n] ->
  exists xt xr p pr out,
    transpose x [2; 0; 1; 3] = OK xt /\
    reshape xt [s; b * h; k] = OK xr /\
    matmul xr w = OK p /\
    reshape p [s; b; h; n] = OK pr /\
    transpose pr [1; 2; 0; 3] = OK out /\
    shape out = [b; h; s; n] /\ wf out /\
    (forall ib ih i j, ib < b -> ih < h -> i < s -> j < n ->
       get out [ib; ih; i; j]
       = dot k (fun t => get x [ib; ih; i; t]) (fun t => get w [i; t; j])) /\
    (is_zero w -> is_zero out).
Proof.
  intros Ex Ew.
  set (xt := build [s; b; h; k] (fun idx =>
                get x [nth 1 idx 0; nth 2 idx 0; nth 0 idx 0; nth 3 idx 0])).
  set (xr := Tensor [s; b * h; k] (data xt)).
  set (p := build ([s] ++ [b * h; n]) (fun idx =>
              let bi := firstn 1 idx in
              let i := nth 1 idx 0 in
              let j := nth 2 idx 0 in
              dot k (fun t => get xr (bindex [s] bi ++ [i; t]))
                    (fun t => get w (bindex [s] bi ++ [t; j])))).
  set (pr := Tensor [s; b; h; n] (data p)).
  set (out := build [b; h; s; n] (fun idx =>
                get pr [nth 2 idx 0; nth 0 idx 0; nth 1 idx 0; nth 3 idx 0])).
  exists xt, xr, p, pr, out.
  split; [rewrite transpose_ok by (rewrite Ex; reflexivity); rewrite Ex; reflexivity|].
  split; [apply reshape_ok; simpl; lia|].
  split; [exact (matmul_ok xr w [s] [s] [s] (b * h) k n eq_refl Ew
                           (broadcast_shapes_same _))|].
  split; [apply reshape_ok; simpl; lia|].
  split; [rewrite transpose_ok by reflexivity; reflexivity|].
  split; [reflexivity|]. split; [apply wf_build|].
  split.
  - intros ib ih i j Hb Hh Hi Hj.
    assert (Hbh : ib * h + ih < b * h) by nia.
    unfold out. rewrite get_build by (simpl; lia). cbn [nth].
    unfold pr. rewrite (get_reshaped p _ _ [i; ib * h + ih; j]) by (simpl; lia).
    unfold p. rewrite get_build by (simpl; lia). cbn [firstn nth].
    rewrite bindex_same by (simpl; lia).
    apply dot_ext; intros t Ht; [|reflexivity].
    unfold xr. cbn [app].
    rewrite (get_reshaped xt _ _ [i; ib; ih; t]) by (simpl; lia).
    unfold xt. rewrite get_build by (simpl; lia). reflexivity.
  - intros Hz. apply is_zero_build. intros idx.
    apply get_is_zero. unfold pr, is_zero; simpl.
    apply Forall_map, Forall_forall. intros c _. symmetry.
    apply dot_zero_r. intros t _. apply get_is_zero. assumption.
Qed.

End RelativeProduct.

Section ForwardBody.

Lemma slice_table_ok (table : tensor R) (len s d : nat) :
  shape table = [len; len; d] -> s <= len ->
  exists rk,
    slice_prefix table [Some s; Some s; None] = OK rk /\
    shape rk = [s; s; d] /\
    (forall i j t, i < s -> j < s -> t < d -> get rk [i; j; t] = get table [i; j; t]) /\
    (is_zero table -> is_zero rk).
Proof.
  intros Et Hs. unfold slice_prefix. rewrite Et. cbn [length Nat.leb slice_shape slice_stop].
  rewrite Nat.min_l by assumption.
  eexists. split; [reflexivity|]. split; [reflexivity|]. split.
  - intros i j t Hi Hj Ht. rewrite get_build by (simpl; lia). reflexivity.
  - intros Hz. apply is_zero_build. intros idx. apply get_is_zero. assumption.
Qed.

Lemma transpose_021_ok (x : tensor R) (a m n : nat) :
  shape x = [a; m; n] ->
  exists y, transpose x [0; 2; 1] = OK y /\ shape y = [a; n; m] /\
    (forall i j t, i < a -> j < n -> t < m -> get y [i; j; t] = get x [i; t; j]) /\
    (is_zero x -> is_zero y).
Proof.
  intros Ex. rewrite transpose_ok by (rewrite Ex; reflexivity). rewrite Ex.
  eexists. split; [reflexivity|]. split; [reflexivity|]. split.
  - intros i j t Hi Hj Ht. rewrite get_build by (simpl; lia). reflexivity.
  - intros Hz. apply is_zero_build. intros idx. apply get_is_zero. assumption.
Qed.

Lemma shape_Dropout_forward (d : Dropout) (x : tensor R) :
  shape (Dropout_forward d x) = shape x.
Proof. unfold Dropout_forward. destruct (training d); reflexivity. Qed.

Lemma LayerNorm_forward_ok (ln : LayerNorm) (x : tensor R) :
  last_dim (shape x) = length (ln_weight ln) ->
  last_dim (shape x) = length (ln_bias ln) ->
  exists y, LayerNorm_forward ln x = OK y /\ shape y = shape x.
Proof.
  intros Hw Hb. unfold LayerNorm_forward.
  rewrite <- Hw, <- Hb, Nat.eqb_refl. simpl.
  eexists. split; reflexivity.
Qed.

Lemma merge_heads_ok (x : tensor R) (b h s d a : nat) :
  shape x = [b; h; s; d] -> a = h * d ->
  exists xt y, transpose x [0; 2; 1; 3] = OK xt /\
    reshape xt (removelast (removelast (shape xt)) ++ [a]) = OK y /\
    shape y = [b; s; a].
Proof.
  intros Ex Ea. rewrite transpose_ok by (rewrite Ex; reflexivity). rewrite Ex.
  eexists. eexists. split; [reflexivity|].
  split; [apply reshape_ok; simpl; subst a; lia|]. reflexivity.
Qed.

End ForwardBody.

Section ForwardTrace.

Import NeZha.

Variables (self : NeZhaAttention) (hidden len b s : nat).
Variables (hidden_states attention_mask : tensor R).

Hypothesis Hok : attention_ok hidden len self.
Hypothesis Hhs : shape hidden_states = [b; s; hidden].
Hypothesis Hlen : s <= len.
Hypothesis Hmask :
  broadcast_shapes [b; num_attention_heads self; s; s] (shape attention_mask)
  = OK [b; num_attention_heads self; s; s].

(** Every step of [forward] on a well-shaped input succeeds; the values of
    the steps are related as the body computes them. *)
Lemma forward_trace :
  exists mq mk mv q k v kt qk kp qk2 scores ctx vp ctx2 ctxt merged proj res out,
    Linear_forward (query self) hidden_states = OK mq /\
    Linear_forward (key self) hidden_states = OK mk /\
    Linear_forward (value self) hidden_states = OK mv /\
    transpose_for_scores self mq = OK q /\
    transpose_for_scores self mk = OK k /\
    transpose_for_scores self mv = OK v /\
    transpose k [0; 1; 3; 2] = OK kt /\
    matmul q kt = OK qk /\
    add qk kp = OK qk2 /\
    add (map1 (fun x => (x / sqrt (INR (attention_head_size self)))%R) qk2)
        attention_mask = OK scores /\
    matmul (Dropout_forward (attention_dropout self) (softmax scores)) v = OK ctx /\
    add ctx vp = OK ctx2 /\
    transpose ctx2 [0; 2; 1; 3] = OK ctxt /\
    reshape ctxt (removelast (removelast (shape ctxt)) ++ [all_head_size self])
      = OK merged /\
    Linear_forward (dense self) merged = OK proj /\
    add hidden_states (Dropout_forward (output_dropout self) proj) = OK res /\
    LayerNorm_forward (layer_norm self) res = OK out /\
    forward_body self hidden_states attention_mask =
      OK {| query_layer := q; key_layer := k; value_layer := v;
            attention_scores := scores;
            attention_probs := softmax scores;
            attention_probs_dropout :=
              Dropout_forward (attention_dropout self) (softmax scores);
            layer_normed_context_layer := out |} /\
    (shape q = [b; num_attention_heads self; s; attention_head_size self] /\
     shape k = [b; num_attention_heads self; s; attention_head_size self] /\
     shape v = [b; num_attention_heads self; s; attention_head_size self]) /\
    (forall ib ih i t,
       ib < b -> ih < num_attention_heads self -> i < s ->
       t < attention_head_size self ->
       get q [ib; ih; i; t] = get mq [ib; i; ih * attention_head_size self + t] /\
       get k [ib; ih; i; t] = get mk [ib; i; ih * attention_head_size self + t] /\
       get v [ib; ih; i; t] = get mv [ib; i; ih * attention_head_size self + t]) /\
    (shape qk = [b; num_attention_heads self; s; s] /\ wf qk /\
     shape kp = [b; num_attention_heads self; s; s]) /\
    (forall ib ih i j, ib < b -> ih < num_attention_heads self -> i < s -> j < s ->
       get qk [ib; ih; i; j]
       = dot (attention_head_size self) (fun t => get q [ib; ih; i; t])
             (fun t => get k [ib; ih; j; t]) /\
       get kp [ib; ih; i; j]
       = dot (attention_head_size self) (fun t => get q [ib; ih; i; t])
               (fun t => get (relative_positions_embeddings self) [i; j; t])) /\
    (shape scores = [b; num_attention_heads self; s; s] /\
     shape ctx = [b; num_attention_heads self; s; attention_head_size self] /\
     wf ctx /\
     shape vp = [b; num_attention_heads self; s; attention_head_size self] /\
     shape out = [b; s; hidden]) /\
    (forall ib ih i t,
       ib < b -> ih < num_attention_heads self -> i < s ->
       t < attention_head_size self ->
       get vp [ib; ih; i; t]
       = dot s (fun j => get (Dropout_forward (attention_dropout self)
                                              (softmax scores)) [ib; ih; i; j])
               (fun j => get (relative_positions_embeddings self) [i; j; t])) /\
    (is_zero (relative_positions_embeddings self) -> is_zero kp /\ is_zero vp).
Proof.
  set (H := num_attention_heads self) in *.
  set (d := attention_head_size self) in *.
  destruct Hok as [Ehid Eall Eqw Eqb Ekw Ekb Evw Evb Edw Edb Enw Enb Etab].
  fold H d in Ehid, Etab.
  destruct (Linear_forward_ok _ _ _ _ _ _ Hhs Eqw Eqb) as (mq & Emq & Smq & _).
  destruct (Linear_forward_ok _ _ _ _ _ _ Hhs Ekw Ekb) as (mk & Emk & Smk & _).
  destruct (Linear_forward_ok _ _ _ _ _ _ Hhs Evw Evb) as (mv & Emv & Smv & _).
  rewrite Eall, Ehid in Smq, Smk, Smv.
  destruct (transpose_for_scores_ok self _ _ _ Smq) as (q & Eq & Sq & _ & Gq).
  destruct (transpose_for_scores_ok self _ _ _ Smk) as (k & Ek & Sk & _ & Gk).
  destruct (transpose_for_scores_ok self _ _ _ Smv) as (v & Ev & Sv & _ & Gv).
  fold H d in Sq, Sk, Sv, Gq, Gk, Gv.
  destruct (content_scores_ok b H s d q k Sq Sk) as (kt & qk & Ekt & Eqk & Sqk & Wqk & Gqk).
  destruct (slice_table_ok _ len s d Etab Hlen) as (rk & Erk & Srk & Grk & Zrk).
  destruct (transpose_021_ok rk s s d Srk) as (rkt & Erkt & Srkt & Grkt & Zrkt).
  destruct (relative_product_ok b H s d s q rkt Sq Srkt)
    as (qt & qr & kps & kpsr & kp & Eqt & Eqr & Ekps & Ekpsr & Ekp & Skp & _ & Gkp & Zkp).
  assert (Eqk2 : add qk kp = OK (build [b; H; s; s]
                   (fun idx => (get qk idx + get kp idx)%R))).
  { unfold add. rewrite map2_same_shape by congruence. rewrite Sqk. reflexivity. }
  set (qk2 := build [b; H; s; s] (fun idx => (get qk idx + get kp idx)%R)) in *.
  assert (Escores : add (map1 (fun x => (x / sqrt (INR d))%R) qk2) attention_mask
            = OK (build [b; H; s; s] (fun idx =>
                   (get (map1 (fun x => (x / sqrt (INR d))%R) qk2)
                        (bindex [b; H; s; s] idx)
                    + get attention_mask (bindex (shape attention_mask) idx))%R))).
  { unfold add. apply map2_broadcast. exact Hmask. }
  match type of Escores with _ = OK ?t => set (scores := t) in * end.
  set (probs := Dropout_forward (attention_dropout self) (softmax scores)).
  assert (Sprobs : shape probs = [b; H] ++ [s; s])
    by (unfold probs; rewrite shape_Dropout_forward; reflexivity).
  assert (Sv' : shape v = [b; H] ++ [s; d]) by exact Sv.
  pose proof (matmul_ok probs v [b; H] [b; H] [b; H] s s d Sprobs Sv'
                        (broadcast_shapes_same _)) as Ectx.
  match type of Ectx with _ = OK ?t => set (ctx := t) in * end.
  assert (Sctx : shape ctx = [b; H; s; d]) by reflexivity.
  destruct (relative_product_ok b H s s d probs rk Sprobs Srk)
    as (pt & pr & vps & vpsr & vp & Ept & Epr & Evps & Evpsr & Evp & Svp & _ & Gvp & Zvp).
  assert (Ectx2 : add ctx vp = OK (build [b; H; s; d]
                    (fun idx => (get ctx idx + get vp idx)%R))).
  { unfold add. rewrite map2_same_shape by congruence. rewrite Sctx. reflexivity. }
  set (ctx2 := build [b; H; s; d] (fun idx => (get ctx idx + get vp idx)%R)) in *.
  destruct (merge_heads_ok ctx2 b H s d (all_head_size self) eq_refl
              ltac:(rewrite Eall; exact Ehid))
    as (ctxt & merged & Ectxt & Emerged & Smerged).
  rewrite Eall in Smerged.
  destruct (Linear_forward_ok _ _ _ _ _ _ Smerged Edw Edb) as (proj & Eproj & Sproj & _).
  assert (Eres : add hidden_states (Dropout_forward (output_dropout self) proj)
            = OK (build [b; s; hidden] (fun idx =>
                   (get hidden_states idx
                    + get (Dropout_forward (output_dropout self) proj) idx)%R))).
  { unfold add. rewrite map2_same_shape
      by (rewrite shape_Dropout_forward; congruence).
    rewrite Hhs. reflexivity. }
  match type of Eres with _ = OK ?t => set (res := t) in * end.
  destruct (LayerNorm_forward_ok (layer_norm self) res) as (out & Eout & Sout);
    [rewrite Enw; reflexivity | rewrite Enb; reflexivity |].
  exists mq, mk, mv, q, k, v, kt, qk, kp, qk2, scores, ctx, vp, ctx2, ctxt, merged,
    proj, res, out.
  repeat match goal with |- (_ = OK _) /\ _ => split; [assumption|] end.
  split.
  { unfold forward_body.
    rewrite Emq, Emk, Emv; cbn [bind]. rewrite Eq, Ek, Ev; cbn [bind].
    rewrite Ekt; cbn [bind]. rewrite Eqk; cbn [bind]. rewrite Sqk.
    rewrite Erk; cbn [bind]. rewrite Eqt; cbn [bind].
    fold d. rewrite Eqr; cbn [bind].
    rewrite Erkt; cbn [bind]. rewrite Ekps; cbn [bind]. rewrite Ekpsr; cbn [bind].
    rewrite Ekp; cbn [bind]. rewrite Eqk2; cbn [bind].
    rewrite Escores; cbn [bind]. fold probs. rewrite Ectx; cbn [bind].
    rewrite Ept; cbn [bind]. rewrite Epr; cbn [bind]. rewrite Evps; cbn [bind].
    rewrite Evpsr; cbn [bind]. rewrite Evp; cbn [bind]. rewrite Ectx2; cbn [bind].
    rewrite Ectxt; cbn [bind]. rewrite Emerged; cbn [bind].
    rewrite Eproj; cbn [bind]. rewrite Eres; cbn [bind]. rewrite Eout; cbn [bind].
    reflexivity. }
  split; [auto|].
  split; [intros; rewrite Gq, Gk, Gv by assumption; auto|].
  split; [auto|].
  split.
  { intros ib ih i j Hb Hh Hi Hj. split; [apply Gqk; assumption|].
    rewrite Gkp by assumption. apply dot_ext; intros t Ht; [reflexivity|].
    rewrite Grkt, Grk by assumption. reflexivity. }
  split; [repeat split; try assumption; try apply wf_build; congruence|].
  split.
  { intros ib ih i t Hb Hh Hi Ht. rewrite Gvp by assumption.
    apply dot_ext; intros j Hj; [reflexivity|]. apply Grk; assumption. }
  intros Hz. split; [apply Zkp, Zrkt, Zrk, Hz | apply Zvp, Zrk, Hz].
Qed.

End ForwardTrace.

Section NumpyArrays.

Context {A : Type} `{Default A}.

Lemma length_update (k : nat) (v : A) (l : list A) : length (update k v l) = length l.
Proof.
  revert k; induction l as [|a l IH]; intros [|k]; simpl; try reflexivity.
  rewrite IH. reflexivity.
Qed.

Lemma nth_update_eq (k : nat) (v : A) (l : list A) (d : A) :
  k < length l -> nth k (update k v l) d = v.
Proof.
  revert k; induction l as [|a l IH]; intros [|k]; simpl; intros Hk;
    try lia; try reflexivity.
  apply IH. lia.
Qed.

Lemma nth_update_neq (k k' : nat) (v : A) (l : list A) (d : A) :
  k' <> k -> nth k' (update k v l) d = nth k' l d.
Proof.
  revert k k'; induction l as [|a l IH]; intros [|k] [|k']; simpl; intros Hk;
    try lia; try reflexivity.
  apply IH. lia.
Qed.

Lemma ravel_inj (s i1 i2 : list nat) :
  in_bounds s i1 -> in_bounds s i2 -> ravel s i1 = ravel s i2 -> i1 = i2.
Proof.
  intros H1 H2 E.
  rewrite <- (unravel_ravel s i1 H1), <- (unravel_ravel s i2 H2), E. reflexivity.
Qed.

Lemma setitem_ok (a : tensor A) (idx : list nat) (v : A) :
  wf a -> in_bounds (shape a) idx ->
  exists a', setitem a idx v = OK a' /\ shape a' = shape a /\ wf a' /\
    get a' idx = v /\
    forall idx', in_bounds (shape a) idx' -> idx' <> idx -> get a' idx' = get a idx'.
Proof.
  intros Hwf Hb. unfold setitem.
  rewrite (proj2 (in_boundsb_spec _ _) Hb).
  eexists. split; [reflexivity|]. split; [reflexivity|].
  pose proof (ravel_lt _ _ Hb) as Hlt.
  split; [unfold wf; simpl; rewrite length_update; exact Hwf|].
  unfold get; simpl. split.
  - apply nth_update_eq. rewrite Hwf. assumption.
  - intros idx' Hb' Hne. apply nth_update_neq.
    intros E. apply Hne. eapply ravel_inj; eassumption.
Qed.

End NumpyArrays.

Section SinusoidTable.

Import NeZha.

Variable depth : nat.

Lemma even_double (n : nat) : Nat.even (2 * n) = true.
Proof. rewrite Nat.even_mul. reflexivity. Qed.

Lemma even_double_succ (n : nat) : Nat.even (2 * n + 1) = false.
Proof.
  rewrite Nat.even_add, Nat.even_mul. reflexivity.
Qed.

Lemma half_double_succ (n : nat) : (2 * n + 1) / 2 = n.
Proof.
  rewrite Nat.mul_comm, Nat.div_add_l by lia. simpl. lia.
Qed.

Lemma half_double (n : nat) : (2 * n) / 2 = n.
Proof. rewrite Nat.mul_comm. apply Nat.div_mul. lia. Qed.

Lemma inner_loop_ok (rows_ pos n : nat) (t0 : tensor R) :
  shape t0 = [rows_; depth] -> wf t0 -> pos < rows_ -> n <= depth / 2 ->
  exists t1,
    for_range n (fun i table =>
                   table <- setitem table [pos; 2 * i] (sin (angle pos i depth)) ;;
                   setitem table [pos; 2 * i + 1] (cos (angle pos i depth))) t0 = OK t1 /\
    shape t1 = [rows_; depth] /\ wf t1 /\
    forall p c, p < rows_ -> c < depth ->
      get t1 [p; c] =
      if (p =? pos) && (c <? 2 * n) then sinusoid depth pos c else get t0 [p; c].
Proof.
  intros Es Hwf Hpos. induction n as [|n IH]; intros Hn.
  - exists t0. split; [reflexivity|]. split; [assumption|]. split; [assumption|].
    intros p c _ _. rewrite andb_false_r. reflexivity.
  - destruct IH as (t1 & E1 & S1 & W1 & G1); [lia|].
    assert (Hd : 2 * (depth / 2) <= depth) by (apply Nat.Div0.mul_div_le).
    cbn [for_range]. rewrite E1; cbn [bind].
    destruct (setitem_ok t1 [pos; 2 * n] (sin (angle pos n depth)) W1)
      as (t2 & E2 & S2 & W2 & G2 & K2); [rewrite S1; simpl; lia|].
    rewrite E2; cbn [bind].
    destruct (setitem_ok t2 [pos; 2 * n + 1] (cos (angle pos n depth)) W2)
      as (t3 & E3 & S3 & W3 & G3 & K3); [rewrite S2, S1; simpl; lia|].
    rewrite E3. exists t3. split; [reflexivity|].
    split; [congruence|]. split; [assumption|].
    intros p c Hp Hc.
    destruct (Nat.eq_dec p pos) as [-> | Hne].
    + rewrite Nat.eqb_refl; cbn [andb].
      destruct (Nat.eq_dec c (2 * n + 1)) as [-> | Hc1].
      { rewrite G3. replace (2 * n + 1 <? 2 * S n) with true
          by (symmetry; apply Nat.ltb_lt; lia).
        unfold sinusoid. rewrite even_double_succ, half_double_succ. reflexivity. }
      rewrite K3 by (solve [rewrite ?S2, ?S1; simpl; lia | intros E; injection E; lia]).
      destruct (Nat.eq_dec c (2 * n)) as [-> | Hc2].
      { rewrite G2. replace (2 * n <? 2 * S n) with true
          by (symmetry; apply Nat.ltb_lt; lia).
        unfold sinusoid. rewrite even_double, half_double. reflexivity. }
      rewrite K2 by (solve [rewrite ?S2, ?S1; simpl; lia | intros E; injection E; lia]).
      rewrite G1 by assumption. rewrite Nat.eqb_refl; cbn [andb].
      destruct (Nat.ltb_spec c (2 * n)), (Nat.ltb_spec c (2 * S n));
        try reflexivity; lia.
    + rewrite K3 by (solve [rewrite ?S2, ?S1; simpl; lia | intros E; injection E; lia]).
      rewrite K2 by (solve [rewrite ?S2, ?S1; simpl; lia | intros E; injection E; lia]).
      rewrite G1 by assumption.
      replace (p =? pos) with false by (symmetry; apply Nat.eqb_neq; assumption).
      reflexivity.
Qed.

Lemma outer_loop_ok (rows_ n : nat) :
  n <= rows_ ->
  exists t1,
    for_range n (fun pos table =>
                 for_range (depth / 2) (fun i table =>
                     table <- setitem table [pos; 2 * i] (sin (angle pos i depth)) ;;
                     setitem table [pos; 2 * i + 1] (cos (angle pos i depth))) table)
              (zeros [rows_; depth]) = OK t1 /\
    shape t1 = [rows_; depth] /\ wf t1 /\
    forall p c, p < rows_ -> c < depth ->
      get t1 [p; c] = if p <? n then table_entry depth p c else 0%R.
Proof.
  induction n as [|n IH]; intros Hn.
  - eexists. split; [reflexivity|]. split; [reflexivity|].
    split; [apply wf_full|].
    intros p c Hp Hc. apply get_full. simpl; lia.
  - destruct IH as (t1 & E1 & S1 & W1 & G1); [lia|].
    cbn [for_range]. rewrite E1; cbn [bind].
    destruct (inner_loop_ok rows_ n (depth / 2) t1 S1 W1) as (t2 & E2 & S2 & W2 & G2);
      [lia | lia |].
    exists t2. split; [assumption|]. split; [assumption|]. split; [assumption|].
    intros p c Hp Hc. rewrite G2, G1 by assumption.
    unfold table_entry.
    destruct (Nat.eqb_spec p n) as [-> | Hne]; cbn [andb].
    + replace (n <? S n) with true by (symmetry; apply Nat.ltb_lt; lia).
      rewrite Nat.ltb_irrefl. reflexivity.
    + destruct (Nat.ltb_spec p n), (Nat.ltb_spec p (S n)); try reflexivity; lia.
Qed.

End SinusoidTable.

Section Casts.

Lemma wrap64_small (z : Z) : int64_range z -> wrap64 z = z.
Proof.
  unfold int64_range, wrap64. intros Hz.
  rewrite Z.mod_small by lia. lia.
Qed.

Lemma Rtrunc_IZR (z : Z) : Rtrunc (IZR z) = z.
Proof.
  unfold Rtrunc. destruct (Rle_dec 0 (IZR z)).
  - apply ZfloorZ.
  - rewrite <- opp_IZR, ZfloorZ. lia.
Qed.

Lemma Rmax_IZR (a b : Z) : Rmax (IZR a) (IZR b) = IZR (Z.max a b).
Proof.
  destruct (Z.max_spec a b) as [[Hlt ->] | [Hle ->]].
  - apply Rmax_right, IZR_le. lia.
  - apply Rmax_left, IZR_le. lia.
Qed.

Lemma Rmin_IZR (a b : Z) : Rmin (IZR a) (IZR b) = IZR (Z.min a b).
Proof.
  destruct (Z.min_spec a b) as [[Hlt ->] | [Hle ->]].
  - apply Rmin_left, IZR_le. lia.
  - apply Rmin_right, IZR_le. lia.
Qed.

Lemma get_map1 {A B : Type} `{Default A} `{Default B} (f : A -> B) (x : tensor A)
  (idx : list nat) :
  wf x -> in_bounds (shape x) idx -> get (map1 f x) idx = f (get x idx).
Proof.
  intros Hwf Hb. unfold get, map1; simpl.
  rewrite (nth_indep _ dflt (f dflt)).
  - apply map_nth.
  - rewrite length_map, Hwf. apply ravel_lt. assumption.
Qed.

Lemma wf_map1 {A B : Type} (f : A -> B) (x : tensor A) : wf x -> wf (map1 f x).
Proof. unfold wf, map1; simpl. rewrite length_map. auto. Qed.

Lemma nth_concat_repeat {A : Type} (row : list A) (k i j : nat) (d : A) :
  i < k -> j < length row ->
  nth (i * length row + j) (concat (repeat row k)) d = nth j row d.
Proof.
  revert i; induction k as [|k IH]; intros i Hi Hj; [lia|].
  simpl. destruct i as [|i].
  - simpl. apply app_nth1. assumption.
  - rewrite app_nth2 by (simpl; lia).
    replace (S i * length row + j - length row) with (i * length row + j)
      by (simpl; lia).
    apply IH; lia.
Qed.

Lemma length_concat_repeat {A : Type} (row : list A) (k : nat) :
  length (concat (repeat row k)) = k * length row.
Proof.
  induction k as [|k IH]; simpl; [reflexivity|].
  rewrite length_app, IH. reflexivity.
Qed.

Lemma dot_one_hot (n : nat) (g : nat -> R) (x : Z) :
  (0 <= x < Z.of_nat n)%Z ->
  dot n (fun t => if (x =? Z.of_nat t)%Z then 1%R else 0%R) g = g (Z.to_nat x).
Proof.
  intros Hx. unfold dot.
  assert (Hgen : forall m, rsum (map (fun t => ((if (x =? Z.of_nat t)%Z then 1 else 0) * g t)%R)
                            (seq 0 m))
                 = if (Z.of_nat m <=? x)%Z then 0%R else g (Z.to_nat x)).
  { induction m as [|m IHm].
    - change (Z.of_nat 0) with 0%Z.
      destruct (Z.leb_spec 0 x); [reflexivity | lia].
    - rewrite seq_S, map_app. cbn [map Nat.add].
      assert (Happ : forall l r, rsum (l ++ [r]) = (rsum l + r)%R).
      { induction l as [|a l IHl]; intros r; simpl; [lra | rewrite IHl; lra]. }
      rewrite Happ, IHm.
      destruct (Z.eqb_spec x (Z.of_nat m)) as [E | NE].
      + destruct (Z.leb_spec (Z.of_nat m) x), (Z.leb_spec (Z.of_nat (S m)) x);
          try lia.
        subst x. rewrite Nat2Z.id. lra.
      + destruct (Z.leb_spec (Z.of_nat m) x), (Z.leb_spec (Z.of_nat (S m)) x);
          try lia; lra. }
  rewrite Hgen. destruct (Z.leb_spec (Z.of_nat n) x); [lia | reflexivity].
Qed.

End Casts.

Section Generate.

Import NeZha.

Variables (length_ depth : nat) (m : Z).

Hypothesis Hm : (0 <= m < 2 ^ 62)%Z.
Hypothesis Hlength : (Z.of_nat length_ < 2 ^ 62)%Z.
Hypothesis Hpos : 0 < length_.

Lemma bucket_range (i j : nat) : (0 <= bucket m i j < m * 2 + 1)%Z.
Proof. unfold bucket, clipZ. lia. Qed.

Lemma infer_shape_flat (n : nat) : infer_shape n [(-1)%Z] = OK [n].
Proof. unfold infer_shape. cbn -[Nat.div]. rewrite Nat.div_1_r. reflexivity. Qed.

Lemma distance_mat_ok :
  exists distance_mat,
    (tiled <- tile (arange length_) length_ ;;
     range_mat <- reshape tiled [length_; length_] ;;
     range_mat_t <- t range_mat ;;
     subtract_int range_mat range_mat_t) = OK distance_mat /\
    shape distance_mat = [length_; length_] /\ wf distance_mat /\
    forall i j, i < length_ -> j < length_ ->
      get distance_mat [i; j] = (Z.of_nat j - Z.of_nat i)%Z.
Proof.
  set (range_mat := Tensor [length_; length_]
                      (concat (repeat (map Z.of_nat (seq 0 length_)) length_))).
  assert (Grm : forall i j, i < length_ -> j < length_ ->
                  get range_mat [i; j] = Z.of_nat j).
  { intros i j Hi Hj. unfold get, range_mat; cbn [shape data ravel numel fold_right].
    replace (i * (length_ * 1) + (j * 1 + 0))
      with (i * length (map Z.of_nat (seq 0 length_)) + j)
      by (rewrite length_map, length_seq; lia).
    rewrite nth_concat_repeat by (rewrite ?length_map, ?length_seq; assumption).
    apply nth_map_seq. assumption. }
  eexists. split.
  { unfold tile. cbn [arange shape data].
    replace (length_ =? 0) with false by (symmetry; apply Nat.eqb_neq; lia).
    cbn [bind].
    rewrite reshape_ok by (simpl; lia). cbn [bind data]. fold range_mat.
    unfold t. cbn [shape range_mat]. fold range_mat.
    rewrite transpose_ok by reflexivity. cbn [bind].
    unfold subtract_int. rewrite map2_same_shape by reflexivity. reflexivity. }
  split; [reflexivity|]. split; [apply wf_build|].
  intros i j Hi Hj. rewrite get_build by (simpl; lia).
  rewrite get_build by (simpl; lia). cbn [map seq length index_of Nat.eqb nth].
  rewrite !Grm by assumption.
  apply wrap64_small. unfold int64_range. lia.
Qed.

Lemma generate_ok :
  exists e,
    generate_relative_positions_embeddings length_ (Z.of_nat depth) m = OK e /\
    shape e = [length_; length_; depth] /\ wf e /\
    forall i j c, i < length_ -> j < length_ -> c < depth ->
      get e [i; j; c] = table_entry depth (Z.to_nat (bucket m i j)) c.
Proof.
  destruct distance_mat_ok as (dm & Edm & Sdm & Wdm & Gdm).
  set (V := Z.to_nat (m * 2 + 1)).
  destruct (outer_loop_ok depth V V (le_n _)) as (tbl & Etbl & Stbl & Wtbl & Gtbl).
  cbv zeta in Etbl.
  set (final_mat := map1 (fun v => (v + IZR m)%R)
                      (clip (astype_float dm) (IZR (- m)) (IZR m))).
  assert (Sfm : shape final_mat = [length_; length_]) by exact Sdm.
  assert (Wfm : wf final_mat).
  { unfold final_mat, clip, astype_float. repeat apply wf_map1. assumption. }
  assert (Gfm : forall i j, i < length_ -> j < length_ ->
            get final_mat [i; j] = IZR (bucket m i j)).
  { intros i j Hi Hj. unfold final_mat, clip, astype_float.
    rewrite !get_map1; try (repeat apply wf_map1; assumption);
      try (cbn [map1 shape]; rewrite Sdm; simpl; lia).
    rewrite Gdm by assumption.
    rewrite Rmax_IZR, Rmin_IZR, <- plus_IZR. reflexivity. }
  set (flat := Tensor [length_ * length_] (data final_mat)).
  set (ids := astype_int64 flat).
  assert (Gids : forall i j, i < length_ -> j < length_ ->
            get ids [i * length_ + j] = bucket m i j).
  { intros i j Hi Hj. unfold ids, astype_int64.
    assert (Hij : i * length_ + j < length_ * length_) by nia.
    rewrite get_map1.
    - unfold flat. rewrite (get_reshaped final_mat _ _ [i; j])
        by (rewrite Sfm; simpl; lia).
      rewrite Gfm, Rtrunc_IZR by assumption. apply wrap64_small.
      pose proof (bucket_range i j). unfold int64_range. lia.
    - unfold wf, flat; cbn [data shape]. rewrite Wfm, Sfm. simpl; lia.
    - unfold flat; cbn [shape]. simpl. lia. }
  assert (Hall : forall k, k < length_ * length_ ->
            exists i j, i < length_ /\ j < length_ /\ k = i * length_ + j).
  { intros k Hk. exists (k / length_), (k mod length_).
    assert (length_ <> 0) by lia.
    split; [apply Nat.Div0.div_lt_upper_bound; lia|].
    split; [apply Nat.mod_upper_bound; assumption|].
    pose proof (Nat.div_mod_eq k length_). lia. }
  assert (Hvalid : forallb (fun z => (0 <=? z)%Z && (z <? Z.of_nat V)%Z) (data ids) = true).
  { apply forallb_forall. intros z Hz.
    apply (In_nth _ _ 0%Z) in Hz. destruct Hz as (k & Hk & <-).
    assert (Hlen : length (data ids) = length_ * length_).
    { unfold ids, astype_int64, flat; cbn [map1 data shape]. rewrite length_map, Wfm, Sfm. simpl; lia. }
    rewrite Hlen in Hk. destruct (Hall k Hk) as (i & j & Hi & Hj & ->).
    pose proof (Gids i j Hi Hj) as G. unfold get in G.
    cbn [ids astype_int64 map1 shape flat ravel numel fold_right] in G.
    replace ((i * length_ + j) * 1 + 0) with (i * length_ + j) in G by lia.
    unfold dflt, Default_Z in G. rewrite G.
    pose proof (bucket_range i j). unfold V.
    rewrite Z2Nat.id by lia.
    apply andb_true_iff; split; [apply Z.leb_le | apply Z.ltb_lt]; lia. }
  set (oh := build (shape ids ++ [V]) (fun idx =>
               if (get ids (removelast idx) =? Z.of_nat (last idx 0%nat))%Z
               then 1%R else 0%R)).
  assert (Soh : shape oh = [] ++ [length_ * length_; V]) by reflexivity.
  assert (Stbl' : shape tbl = [] ++ [V; depth]) by exact Stbl.
  pose proof (matmul_ok oh tbl [] [] [] _ _ _ Soh Stbl' eq_refl) as Emm.
  match type of Emm with _ = OK ?x => set (mm := x) in * end.
  exists (Tensor [length_; length_; depth] (data mm)).
  split.
  { unfold generate_relative_positions_embeddings.
    assert (Hhalf : Z.to_nat (Z.of_nat depth / 2) = depth / 2)
      by (change 2%Z with (Z.of_nat 2); rewrite <- Nat2Z.inj_div; apply Nat2Z.id).
    rewrite Hhalf, !Nat2Z.id.
    match goal with
    | |- bind ?a (fun tiled => bind (@?b tiled) (fun rm => bind (@?c rm)
           (fun rmt => bind (@?d rm rmt) ?k))) = _ =>
        transitivity (bind (bind a (fun tiled => bind (b tiled) (fun rm =>
                        bind (c rm) (fun rmt => d rm rmt)))) k)
    end.
    { unfold tile. cbn [arange shape].
      destruct (length_ =? 0); cbn [bind]; [reflexivity|].
      destruct (reshape _ _); cbn [bind]; [|reflexivity].
      destruct (t _); reflexivity. }
    rewrite Edm; cbn [bind]. fold final_mat.
    unfold np_zeros.
    replace (existsb (fun z : Z => (z <? 0)%Z) [(m * 2 + 1)%Z; Z.of_nat depth])
      with false.
    2:{ symmetry. cbn [existsb]. rewrite !orb_false_r.
        apply orb_false_iff; split; apply Z.ltb_ge; lia. }
    cbn [bind map]. rewrite ?Nat2Z.id. fold V.
    rewrite Etbl; cbn [bind].
    unfold reshape_infer. rewrite infer_shape_flat. cbn [bind]. rewrite Sfm.
    replace (numel [length_; length_]) with (length_ * length_) by (simpl; lia).
    rewrite reshape_ok by (rewrite Sfm; simpl; lia). cbn [bind]. fold flat ids.
    unfold one_hot. rewrite Hvalid. fold oh. cbn [bind].
    rewrite Emm. cbn [bind].
    apply reshape_ok. simpl; lia. }
  split; [reflexivity|].
  split.
  { apply wf_reshaped; [apply wf_build | simpl; lia]. }
  intros i j c Hi Hj Hc.
  assert (Hij : i * length_ + j < length_ * length_) by nia.
  rewrite (get_reshaped mm _ _ [i * length_ + j; c]) by (simpl; lia).
  unfold mm. rewrite get_build by (simpl; lia).
  cbn [length firstn nth bindex combine map app].
  rewrite (dot_ext _ _ _ (fun t => if (bucket m i j =? Z.of_nat t)%Z then 1%R else 0%R)
                   (fun t => get tbl [t; c])).
  - pose proof (bucket_range i j) as Hbk.
    rewrite dot_one_hot by (unfold V; rewrite Z2Nat.id; lia).
    rewrite Gtbl by (unfold V; lia).
    replace (Z.to_nat (bucket m i j) <? V) with true
      by (symmetry; apply Nat.ltb_lt; unfold V; lia).
    reflexivity.
  - intros t Ht. unfold oh. rewrite get_build by (simpl; lia).
    cbn [removelast last]. rewrite Gids by assumption. reflexivity.
  - intros t Ht. reflexivity.
Qed.

End Generate.

(** ** The relative-position table *)

Section TableClaims.

Import NeZha.




End TableClaims.




(** C4: for every valid length and depth (at least 1) and
    max_relative_position the table has shape (length, length, depth) and
    its entry at [i, j] depends only on clip(i - j, -max, max): two pairs
    with the same clipped difference have the same vector. *)
Theorem relative_positions_depend_on_clipped_distance
  (length depth : nat) (max_relative_position : Z) :
  1 <= length -> 1 <= depth ->
  (Z.of_nat length < 2 ^ 62)%Z -> (0 <= max_relative_position < 2 ^ 62)%Z ->
  exists e,
    NeZha.generate_relative_positions_embeddings
      length (Z.of_nat depth) max_relative_position = OK e /\
    shape e = [length; length; depth] /\
    forall i j i' j', i < length -> j < length -> i' < length -> j' < length ->
      NeZha.clipZ (- max_relative_position) max_relative_position
                  (Z.of_nat i - Z.of_nat j)
      = NeZha.clipZ (- max_relative_position) max_relative_position
                    (Z.of_nat i' - Z.of_nat j') ->
      forall c, c < depth -> get e [i; j; c] = get e [i'; j'; c].
Proof.
  intros Hpos _ Hl Hm.
  destruct (generate_ok length depth max_relative_position Hm Hl Hpos)
    as (e & E & S & _ & G).
  exists e. split; [assumption|]. split; [assumption|].
  intros i j i' j' Hi Hj Hi' Hj' Hclip c Hc.
  rewrite !G by assumption. f_equal. f_equal.
  unfold NeZha.bucket, NeZha.clipZ in *. lia.
Qed.

Lemma relative_positions_depend_on_clipped_distance_witness :
  exists e,
    NeZha.generate_relative_positions_embeddings 3 (Z.of_nat 2) 1 = OK e /\
    shape e = [3; 3; 2] /\
    forall i j i' j', i < 3 -> j < 3 -> i' < 3 -> j' < 3 ->
      NeZha.clipZ (- 1) 1 (Z.of_nat i - Z.of_nat j)
      = NeZha.clipZ (- 1) 1 (Z.of_nat i' - Z.of_nat j') ->
      forall c, c < 2 -> get e [i; j; c] = get e [i'; j'; c].
Proof.
  apply (relative_positions_depend_on_clipped_distance 3 2 1); lia.
Defined.

(** ** Construction of the attention layer *)

Section Construction.

Import NeZha.

Lemma head_size_exact (hidden heads : Z) :
  (0 < heads)%Z -> (hidden mod heads = 0)%Z ->
  Rtrunc (IZR hidden / IZR heads) = (hidden / heads)%Z.
Proof.
  intros Hh Hmod.
  assert (E : hidden = (heads * (hidden / heads))%Z)
    by (apply Z.div_exact; lia).
  rewrite E at 1. rewrite mult_IZR.
  replace (IZR heads * IZR (hidden / heads) / IZR heads)%R
    with (IZR (hidden / heads)).
  - apply Rtrunc_IZR.
  - field. apply not_0_IZR. lia.
Qed.

Lemma Linear_new_ok (i o : Z) (sample : list nat -> R) :
  (0 < i)%Z -> (0 < o)%Z ->
  exists l, Linear_new i o sample = OK l /\
    shape (weight l) = [Z.to_nat i; Z.to_nat o] /\ shape (bias l) = [Z.to_nat o].
Proof.
  intros Hi Ho. unfold Linear_new.
  replace ((i <=? 0)%Z || (o <=? 0)%Z) with false
    by (symmetry; apply orb_false_iff; split; apply Z.leb_gt; lia).
  eexists. split; [reflexivity|]. split; reflexivity.
Qed.

Lemma NeZhaAttention_init_ok
  (hidden_size num_attention_heads : Z) (p_hidden p_attn : R)
  (max_relative_position : Z) (layer_norm_eps : R)
  (init : nat -> list nat -> R) (d_hidden d_attn : nat -> bool) :
  (0 < hidden_size)%Z -> (0 < num_attention_heads)%Z ->
  (hidden_size mod num_attention_heads = 0)%Z ->
  (0 <= max_relative_position < 2 ^ 62)%Z ->
  exists self,
    NeZhaAttention_init hidden_size num_attention_heads p_hidden p_attn
      max_relative_position layer_norm_eps init d_hidden d_attn = OK self /\
    attention_ok (Z.to_nat hidden_size) 512 self /\
    Z.of_nat (attention_head_size self) = (hidden_size / num_attention_heads)%Z /\
    Z.of_nat (NeZha.num_attention_heads self) = num_attention_heads.
Proof.
  intros Hhid Hheads Hmod Hm.
  set (q := (hidden_size / num_attention_heads)%Z).
  assert (Eq : hidden_size = (num_attention_heads * q)%Z)
    by (apply Z.div_exact; lia).
  assert (Hq : (0 < q)%Z) by nia.
  unfold NeZhaAttention_init.
  replace (num_attention_heads =? 0)%Z with false
    by (symmetry; apply Z.eqb_neq; lia).
  rewrite Hmod. cbn [Z.eqb negb].
  rewrite head_size_exact by assumption. fold q. rewrite <- Eq.
  destruct (Linear_new_ok hidden_size hidden_size (init 0)) as (lq & Elq & Wq & Bq);
    [lia | lia |].
  destruct (Linear_new_ok hidden_size hidden_size (init 1)) as (lk & Elk & Wk & Bk);
    [lia | lia |].
  destruct (Linear_new_ok hidden_size hidden_size (init 2)) as (lv & Elv & Wv & Bv);
    [lia | lia |].
  destruct (Linear_new_ok hidden_size hidden_size (init 3)) as (ld & Eld & Wd & Bd);
    [lia | lia |].
  rewrite Elq, Elk, Elv; cbn [bind].
  destruct (generate_ok 512 (Z.to_nat q) max_relative_position Hm)
    as (tbl & Etbl & Stbl & _ & _); [lia | lia |].
  rewrite Z2Nat.id in Etbl by lia. rewrite Etbl; cbn [bind].
  rewrite Eld; cbn [bind].
  unfold LayerNorm_new.
  replace (hidden_size <=? 0)%Z with false by (symmetry; apply Z.leb_gt; lia).
  cbn [bind].
  eexists. split; [reflexivity|].
  split; [|split; cbn; lia].
  constructor; cbn; try assumption; try apply repeat_length; try reflexivity.
  rewrite Eq at 1. rewrite Z2Nat.inj_mul by lia. reflexivity.
Qed.

Lemma NeZhaAttention_init_raises
  (hidden_size num_attention_heads : Z) (p_hidden p_attn : R)
  (max_relative_position : Z) (layer_norm_eps : R)
  (init : nat -> list nat -> R) (d_hidden d_attn : nat -> bool) :
  (0 < num_attention_heads)%Z ->
  (hidden_size mod num_attention_heads <> 0)%Z ->
  NeZhaAttention_init hidden_size num_attention_heads p_hidden p_attn
    max_relative_position layer_norm_eps init d_hidden d_attn = Raise ValueError.
Proof.
  intros Hheads Hmod. unfold NeZhaAttention_init.
  replace (num_attention_heads =? 0)%Z with false
    by (symmetry; apply Z.eqb_neq; lia).
  replace (hidden_size mod num_attention_heads =? 0)%Z with false
    by (symmetry; apply Z.eqb_neq; assumption).
  reflexivity.
Qed.

Lemma reshape_shape {A : Type} (x y : tensor A) (s : list nat) :
  reshape x s = OK y -> shape y = s.
Proof.
  unfold reshape. destruct (numel (shape x) =? numel s); [|discriminate].
  intros E. injection E as <-. reflexivity.
Qed.

Lemma forward_raises (self : NeZhaAttention) (hidden len b s : nat)
  (hidden_states attention_mask : tensor R) :
  attention_ok hidden len self ->
  shape hidden_states = [b; s; hidden] ->
  1 < len -> len < s ->
  forward self hidden_states attention_mask = Raise ValueError.
Proof.
  intros Hok Hhs Hlen Hs.
  destruct Hok as [Ehid Eall Eqw Eqb Ekw Ekb Evw Evb Edw Edb Enw Enb Etab].
  set (H := NeZha.num_attention_heads self) in *.
  set (d := attention_head_size self) in *.
  destruct (Linear_forward_ok _ _ _ _ _ _ Hhs Eqw Eqb) as (mq & Emq & Smq & _).
  destruct (Linear_forward_ok _ _ _ _ _ _ Hhs Ekw Ekb) as (mk & Emk & Smk & _).
  destruct (Linear_forward_ok _ _ _ _ _ _ Hhs Evw Evb) as (mv & Emv & Smv & _).
  rewrite Eall, Ehid in Smq, Smk, Smv.
  destruct (transpose_for_scores_ok self _ _ _ Smq) as (q & Eq & Sq & _ & Gq).
  destruct (transpose_for_scores_ok self _ _ _ Smk) as (k & Ek & Sk & _ & Gk).
  destruct (transpose_for_scores_ok self _ _ _ Smv) as (v & Ev & Sv & _ & Gv).
  fold H d in Sq, Sk, Sv.
  destruct (content_scores_ok b H s d q k Sq Sk) as (kt & qk & Ekt & Eqk & Sqk & _).
  destruct (relative_product_ok b H s d 0 q (zeros [s; d; 0]) Sq eq_refl)
    as (qt & qr & _ & _ & _ & Eqt & Eqr & _).
  unfold forward, forward_body.
  rewrite Emq, Emk, Emv; cbn [bind]. rewrite Eq, Ek, Ev; cbn [bind].
  rewrite Ekt; cbn [bind]. rewrite Eqk; cbn [bind]. rewrite Sqk.
  unfold slice_prefix at 1. rewrite Etab.
  cbn [length Nat.leb slice_shape slice_stop bind].
  rewrite Nat.min_r by lia.
  rewrite Eqt; cbn [bind]. fold d. rewrite Eqr; cbn [bind].
  rewrite transpose_ok by reflexivity. cbn [bind shape build map nth].
  erewrite (matmul_raises _ _ [s] [len] (b * H) d len).
  - reflexivity.
  - apply (reshape_shape _ _ _ Eqr).
  - reflexivity.
  - unfold broadcast_shapes. cbn [rev app broadcast_rev bind].
    replace (s =? len) with false by (symmetry; apply Nat.eqb_neq; lia).
    replace (s =? 1) with false by (symmetry; apply Nat.eqb_neq; lia).
    replace (len =? 1) with false by (symmetry; apply Nat.eqb_neq; lia).
    reflexivity.
Qed.

End Construction.

(** C6: constructing a NeZhaAttention raises if and only if hidden_size is
    not divisible by num_attention_heads; when it is divisible the
    construction succeeds and attention_head_size is hidden_size /
    num_attention_heads.  (Sizes are positive and max_relative_position is a
    non-negative size, as in every configuration.) *)
Theorem NeZhaAttention_init_divisibility
  (hidden_size num_attention_heads : Z) (p_hidden p_attn : R)
  (max_relative_position : Z) (layer_norm_eps : R)
  (init : nat -> list nat -> R) (d_hidden d_attn : nat -> bool) :
  (0 < hidden_size)%Z -> (0 < num_attention_heads)%Z ->
  (0 <= max_relative_position < 2 ^ 62)%Z ->
  (raises (NeZha.NeZhaAttention_init hidden_size num_attention_heads p_hidden
             p_attn max_relative_position layer_norm_eps init d_hidden d_attn)
   <-> (hidden_size mod num_attention_heads <> 0)%Z) /\
  ((hidden_size mod num_attention_heads = 0)%Z ->
   exists self,
     NeZha.NeZhaAttention_init hidden_size num_attention_heads p_hidden
       p_attn max_relative_position layer_norm_eps init d_hidden d_attn = OK self /\
     Z.of_nat (NeZha.attention_head_size self)
     = (hidden_size / num_attention_heads)%Z).
Proof.
  intros Hhid Hheads Hm. split.
  - split.
    + intros Hr Hmod.
      destruct (NeZhaAttention_init_ok hidden_size num_attention_heads p_hidden
                  p_attn max_relative_position layer_norm_eps init d_hidden d_attn
                  Hhid Hheads Hmod Hm) as (self & E & _).
      rewrite E in Hr. exact Hr.
    + intros Hmod. rewrite NeZhaAttention_init_raises by assumption. exact I.
  - intros Hmod.
    destruct (NeZhaAttention_init_ok hidden_size num_attention_heads p_hidden
                p_attn max_relative_position layer_norm_eps init d_hidden d_attn
                Hhid Hheads Hmod Hm) as (self & E & _ & Hsize & _).
    exists self. split; assumption.
Qed.

Lemma NeZhaAttention_init_divisibility_witness :
  (raises (NeZha.NeZhaAttention_init 6 4 0 0 1 0 (fun _ _ => 0%R)
             (fun _ => true) (fun _ => true))
   <-> (6 mod 4 <> 0)%Z) /\
  ((6 mod 4 = 0)%Z ->
   exists self,
     NeZha.NeZhaAttention_init 6 4 0 0 1 0 (fun _ _ => 0%R)
       (fun _ => true) (fun _ => true) = OK self /\
     Z.of_nat (NeZha.attention_head_size self) = (6 / 4)%Z).
Proof.
  apply (NeZhaAttention_init_divisibility 6 4 0 0 1 0); lia.
Defined.

(** C5: the relative-position table of a NeZhaAttention is built at
    construction with length 512, whatever the configuration (the
    constructor has no max_position_embeddings at all); a forward call on a
    sequence of at most 512 positions succeeds, a forward call on a longer
    sequence raises. *)
Theorem relative_positions_table_length_512
  (hidden_size num_attention_heads : Z) (p_hidden p_attn : R)
  (max_relative_position : Z) (layer_norm_eps : R)
  (init : nat -> list nat -> R) (d_hidden d_attn : nat -> bool) :
  (0 < hidden_size)%Z -> (0 < num_attention_heads)%Z ->
  (hidden_size mod num_attention_heads = 0)%Z ->
  (0 <= max_relative_position < 2 ^ 62)%Z ->
  exists self,
    NeZha.NeZhaAttention_init hidden_size num_attention_heads p_hidden
      p_attn max_relative_position layer_norm_eps init d_hidden d_attn = OK self /\
    shape (NeZha.relative_positions_embeddings self)
    = [512; 512; NeZha.attention_head_size self] /\
    forall (hidden_states attention_mask : tensor R) (b s : nat),
      shape hidden_states = [b; s; Z.to_nat hidden_size] ->
      (s <= 512 ->
       broadcast_shapes [b; NeZha.num_attention_heads self; s; s]
                        (shape attention_mask)
       = OK [b; NeZha.num_attention_heads self; s; s] ->
       exists r, NeZha.forward self hidden_states attention_mask = OK r) /\
      (512 < s -> raises (NeZha.forward self hidden_states attention_mask)).
Proof.
  intros Hhid Hheads Hmod Hm.
  destruct (NeZhaAttention_init_ok hidden_size num_attention_heads p_hidden
              p_attn max_relative_position layer_norm_eps init d_hidden d_attn
              Hhid Hheads Hmod Hm) as (self & E & Hok & _).
  exists self. split; [assumption|]. split; [apply (NeZha.ok_table _ _ _ Hok)|].
  intros hs mask b s Hhs. split.
  - intros Hs Hmask.
    destruct (forward_trace self _ 512 b s hs mask Hok Hhs Hs Hmask)
      as (mq & mk & mv & q & k & v & kt & qk & kp & qk2 & scores & ctx & vp & ctx2
          & ctxt & merged & proj & res & out & _ & _ & _ & _ & _ & _ & _ & _ & _
          & _ & _ & _ & _ & _ & _ & _ & _ & Ebody & _).
    unfold NeZha.forward. rewrite Ebody. eexists. reflexivity.
  - intros Hs.
    rewrite (forward_raises self _ 512 b s hs mask Hok Hhs) by lia.
    exact I.
Qed.

Lemma relative_positions_table_length_512_witness :
  exists self,
    NeZha.NeZhaAttention_init 4 2 0 0 1 0 (fun _ _ => 0%R)
      (fun _ => true) (fun _ => true) = OK self /\
    shape (NeZha.relative_positions_embeddings self)
    = [512; 512; NeZha.attention_head_size self] /\
    forall (hidden_states attention_mask : tensor R) (b s : nat),
      shape hidden_states = [b; s; Z.to_nat 4] ->
      (s <= 512 ->
       broadcast_shapes [b; NeZha.num_attention_heads self; s; s]
                        (shape attention_mask)
       = OK [b; NeZha.num_attention_heads self; s; s] ->
       exists r, NeZha.forward self hidden_states attention_mask = OK r) /\
      (512 < s -> raises (NeZha.forward self hidden_states attention_mask)).
Proof.
  apply (relative_positions_table_length_512 4 2 0 0 1 0);
    [lia | lia | reflexivity | lia].
Defined.

(** ** The attention scores *)

Section ScoresClaims.

Import NeZha.

Lemma attention_ok_with_table (self : NeZhaAttention) (hidden len len' : nat)
  (table : tensor R) :
  attention_ok hidden len self ->
  shape table = [len'; len'; attention_head_size self] ->
  attention_ok hidden len' (with_table self table).
Proof.
  intros [] Et. constructor; cbn; assumption.
Qed.

Lemma OK_inj {A : Type} (a b : A) : OK a = OK b -> a = b.
Proof. intros E. injection E as ->. reflexivity. Qed.

End ScoresClaims.

(** C2: NeZhaAttention.forward returns, as its second value, the combined
    logits after the mask is added and before the softmax: the score of
    query position i against key position j is the content-content product
    of the query projection at i and the key projection at j plus the
    content-position product of the query projection at i and the table
    entry [i, j], divided by sqrt(attention_head_size), plus the mask.  Its
    first value is computed from the softmax of those scores over the last
    axis: the probabilities (after dropout) weight the value projections and
    the table entries, and the merged heads go through the output
    projection, the residual add and the layer norm.  The input is not
    empty, and the number of heads, the head size and the epsilon of the
    layer norm are positive, as the constructor makes them, so no divisor
    is zero. *)
Theorem forward_attention_scores
  (self : NeZha.NeZhaAttention) (hidden len b s : nat)
  (hidden_states attention_mask : tensor R) :
  NeZha.attention_ok hidden len self ->
  0 < NeZha.num_attention_heads self ->
  0 < NeZha.attention_head_size self ->
  (0 < epsilon (NeZha.layer_norm self))%R ->
  shape hidden_states = [b; s; hidden] ->
  0 < b -> 0 < s <= len ->
  broadcast_shapes [b; NeZha.num_attention_heads self; s; s] (shape attention_mask)
  = OK [b; NeZha.num_attention_heads self; s; s] ->
  let heads := NeZha.num_attention_heads self in
  let d := NeZha.attention_head_size self in
  let table := NeZha.relative_positions_embeddings self in
  exists mixed_query_layer mixed_key_layer mixed_value_layer
         scores context positions merged projected residual out,
    Linear_forward (NeZha.query self) hidden_states = OK mixed_query_layer /\
    Linear_forward (NeZha.key self) hidden_states = OK mixed_key_layer /\
    Linear_forward (NeZha.value self) hidden_states = OK mixed_value_layer /\
    NeZha.forward self hidden_states attention_mask = OK (out, scores) /\
    shape scores = [b; heads; s; s] /\
    (forall ib ih i j, ib < b -> ih < heads -> i < s -> j < s ->
       get scores [ib; ih; i; j]
       = ((dot d (fun t => get mixed_query_layer [ib; i; (ih * d + t)%nat])
                 (fun t => get mixed_key_layer [ib; j; (ih * d + t)%nat])
           + dot d (fun t => get mixed_query_layer [ib; i; (ih * d + t)%nat])
                   (fun t => get table [i; j; t]))
          / sqrt (INR d)
          + get attention_mask (bindex (shape attention_mask) [ib; ih; i; j]))%R) /\
    let probs :=
      Dropout_forward (NeZha.attention_dropout self) (softmax scores) in
    (value_layer <- NeZha.transpose_for_scores self mixed_value_layer ;;
     matmul probs value_layer) = OK context /\
    shape positions = [b; heads; s; d] /\
    (forall ib ih i t, ib < b -> ih < heads -> i < s -> t < d ->
       get positions [ib; ih; i; t]
       = dot s (fun j => get probs [ib; ih; i; j])
               (fun j => get table [i; j; t])) /\
    (c <- add context positions ;;
     c <- transpose c [0; 2; 1; 3] ;;
     reshape c (removelast (removelast (shape c)) ++ [NeZha.all_head_size self]))
    = OK merged /\
    Linear_forward (NeZha.dense self) merged = OK projected /\
    add hidden_states (Dropout_forward (NeZha.output_dropout self) projected)
    = OK residual /\
    LayerNorm_forward (NeZha.layer_norm self) residual = OK out.
Proof.
  intros Hok _ _ _ Hhs _ [_ Hs] Hmask heads d table.
  destruct (forward_trace self hidden len b s hidden_states attention_mask
              Hok Hhs Hs Hmask)
    as (mq & mk & mv & q & k & v & kt & qk & kp & qk2 & scores & ctx & vp & ctx2
        & ctxt & merged & proj & res & out & Emq & Emk & Emv & Eq & Ek & Ev & Ekt
        & Eqk & Eqk2 & Escores & Ectx & Ectx2 & Ectxt & Emerged & Eproj & Eres
        & Eout & Ebody & _ & Gq & (Sqk & Wqk & Skp) & Gqk
        & (Sscores & _ & _ & Svp & _) & Gvp & _).
  fold heads d table in Sqk, Skp, Gq, Gqk, Sscores, Svp, Gvp.
  exists mq, mk, mv, scores, ctx, vp, merged, proj, res, out.
  split; [exact Emq|]. split; [exact Emk|]. split; [exact Emv|].
  split; [unfold NeZha.forward; rewrite Ebody; reflexivity|].
  split; [exact Sscores|].
  split.
  { intros ib ih i j Hb Hh Hi Hj.
    unfold add in Eqk2, Escores.
    rewrite map2_same_shape in Eqk2 by congruence. apply OK_inj in Eqk2.
    subst qk2.
    match type of Escores with map2 _ ?x _ = _ =>
      assert (Sm : shape x = [b; heads; s; s]) by exact Sqk;
      assert (Wm : wf x) by (apply wf_map1, wf_build)
    end.
    rewrite (map2_broadcast _ _ _ [b; heads; s; s])
      in Escores by (rewrite Sm; exact Hmask).
    apply OK_inj in Escores. rewrite <- Escores.
    rewrite get_build by (simpl; lia).
    rewrite Sm, bindex_same by (simpl; lia).
    rewrite get_map1 by (try apply wf_build; rewrite shape_build, Sqk; simpl; lia).
    rewrite get_build by (rewrite Sqk; simpl; lia).
    destruct (Gqk ib ih i j Hb Hh Hi Hj) as [-> ->].
    f_equal. f_equal. f_equal.
    - apply dot_ext; intros t Ht.
      + destruct (Gq ib ih i t Hb Hh Hi Ht) as (-> & _ & _). reflexivity.
      + destruct (Gq ib ih j t Hb Hh Hj Ht) as (_ & -> & _). reflexivity.
    - apply dot_ext; intros t Ht.
      + destruct (Gq ib ih i t Hb Hh Hi Ht) as (-> & _ & _). reflexivity.
      + reflexivity. }
  cbv zeta.
  split; [rewrite Ev; cbn [bind]; exact Ectx|].
  split; [exact Svp|]. split; [exact Gvp|].
  split; [rewrite Ectx2; cbn [bind]; rewrite Ectxt; cbn [bind]; exact Emerged|].
  split; [exact Eproj|]. split; [exact Eres | exact Eout].
Qed.

Lemma forward_attention_scores_witness :
  let self := Examples.small_attention in
  let hidden_states := Examples.small_hidden_states in
  let attention_mask := Examples.small_attention_mask in
  let heads := NeZha.num_attention_heads self in
  let d := NeZha.attention_head_size self in
  let table := NeZha.relative_positions_embeddings self in
  exists mixed_query_layer mixed_key_layer mixed_value_layer
         scores context positions merged projected residual out,
    Linear_forward (NeZha.query self) hidden_states = OK mixed_query_layer /\
    Linear_forward (NeZha.key self) hidden_states = OK mixed_key_layer /\
    Linear_forward (NeZha.value self) hidden_states = OK mixed_value_layer /\
    NeZha.forward self hidden_states attention_mask = OK (out, scores) /\
    shape scores = [1; heads; 3; 3] /\
    (forall ib ih i j, ib < 1 -> ih < heads -> i < 3 -> j < 3 ->
       get scores [ib; ih; i; j]
       = ((dot d (fun t => get mixed_query_layer [ib; i; (ih * d + t)%nat])
                 (fun t => get mixed_key_layer [ib; j; (ih * d + t)%nat])
           + dot d (fun t => get mixed_query_layer [ib; i; (ih * d + t)%nat])
                   (fun t => get table [i; j; t]))
          / sqrt (INR d)
          + get attention_mask (bindex (shape attention_mask) [ib; ih; i; j]))%R) /\
    let probs :=
      Dropout_forward (NeZha.attention_dropout self) (softmax scores) in
    (value_layer <- NeZha.transpose_for_scores self mixed_value_layer ;;
     matmul probs value_layer) = OK context /\
    shape positions = [1; heads; 3; d] /\
    (forall ib ih i t, ib < 1 -> ih < heads -> i < 3 -> t < d ->
       get positions [ib; ih; i; t]
       = dot 3 (fun j => get probs [ib; ih; i; j])
               (fun j => get table [i; j; t])) /\
    (c <- add context positions ;;
     c <- transpose c [0; 2; 1; 3] ;;
     reshape c (removelast (removelast (shape c)) ++ [NeZha.all_head_size self]))
    = OK merged /\
    Linear_forward (NeZha.dense self) merged = OK projected /\
    add hidden_states (Dropout_forward (NeZha.output_dropout self) projected)
    = OK residual /\
    LayerNorm_forward (NeZha.layer_norm self) residual = OK out.
Proof.
  intros self hidden_states attention_mask.
  apply (forward_attention_scores self 2 3 1 3 hidden_states attention_mask).
  - constructor; reflexivity.
  - cbn; lia.
  - cbn; lia.
  - cbn; lra.
  - reflexivity.
  - lia.
  - lia.
  - reflexivity.
Defined.

(** C3: with the relative-position table replaced by an all-zero tensor and
    dropout disabled, NeZhaAttention.forward returns exactly what standard
    scaled dot-product attention with the same layers returns, both the
    normalized hidden states and the scores. *)
Theorem zero_table_is_standard_attention
  (self : NeZha.NeZhaAttention) (hidden len b s : nat)
  (table hidden_states attention_mask : tensor R) :
  NeZha.attention_ok hidden len self ->
  training (NeZha.attention_dropout self) = false ->
  training (NeZha.output_dropout self) = false ->
  shape table = [len; len; NeZha.attention_head_size self] ->
  is_zero table ->
  shape hidden_states = [b; s; hidden] ->
  s <= len ->
  broadcast_shapes [b; NeZha.num_attention_heads self; s; s] (shape attention_mask)
  = OK [b; NeZha.num_attention_heads self; s; s] ->
  exists out scores,
    NeZha.forward (NeZha.with_table self table) hidden_states attention_mask
    = OK (out, scores) /\
    NeZha.standard_attention self hidden_states attention_mask = OK (out, scores).
Proof.
  intros Hok Hda Hdo Et Hz Hhs Hs Hmask.
  pose proof (attention_ok_with_table self hidden len len table Hok Et) as Hok'.
  destruct (forward_trace (NeZha.with_table self table) hidden len b s
              hidden_states attention_mask Hok' Hhs Hs Hmask)
    as (mq & mk & mv & q & k & v & kt & qk & kp & qk2 & scores & ctx & vp & ctx2
        & ctxt & merged & proj & res & out & Emq & Emk & Emv & Eq & Ek & Ev & Ekt
        & Eqk & Eqk2 & Escores & Ectx & Ectx2 & Ectxt & Emerged & Eproj & Eres
        & Eout & Ebody & _ & _ & (Sqk & Wqk & Skp) & _
        & (_ & Sctx & Wctx & Svp & _) & _ & Hzero).
  cbn [NeZha.with_table NeZha.query NeZha.key NeZha.value NeZha.dense
       NeZha.layer_norm NeZha.attention_dropout NeZha.output_dropout
       NeZha.all_head_size NeZha.attention_head_size
       NeZha.relative_positions_embeddings] in *.
  destruct (Hzero Hz) as [Zkp Zvp].
  rewrite add_zero_r in Eqk2 by (assumption || congruence). apply OK_inj in Eqk2.
  rewrite add_zero_r in Ectx2 by (assumption || congruence). apply OK_inj in Ectx2.
  subst qk2 ctx2.
  unfold Dropout_forward in Ectx, Eres. rewrite Hda in Ectx. rewrite Hdo in Eres.
  exists out, scores. split.
  - unfold NeZha.forward. rewrite Ebody. reflexivity.
  - unfold NeZha.standard_attention.
    assert (T : forall x, NeZha.transpose_for_scores (NeZha.with_table self table) x
                          = NeZha.transpose_for_scores self x) by reflexivity.
    rewrite T in Eq, Ek, Ev.
    rewrite Emq, Emk, Emv; cbn [bind]. rewrite Eq, Ek, Ev; cbn [bind].
    rewrite Ekt; cbn [bind]. rewrite Eqk; cbn [bind].
    rewrite Escores; cbn [bind]. rewrite Ectx; cbn [bind].
    rewrite Ectxt; cbn [bind]. rewrite Emerged; cbn [bind].
    rewrite Eproj; cbn [bind]. rewrite Eres; cbn [bind]. rewrite Eout.
    reflexivity.
Qed.

Lemma zero_table_is_standard_attention_witness :
  let self := Examples.small_attention in
  exists out scores,
    NeZha.forward (NeZha.with_table self (zeros [3; 3; 2]))
                  Examples.small_hidden_states Examples.small_attention_mask
    = OK (out, scores) /\
    NeZha.standard_attention self
      Examples.small_hidden_states Examples.small_attention_mask
    = OK (out, scores).
Proof.
  intros self.
  apply (zero_table_is_standard_attention self 2 3 1 3 (zeros [3; 3; 2])
           Examples.small_hidden_states Examples.small_attention_mask).
  - constructor; reflexivity.
  - reflexivity.
  - reflexivity.
  - reflexivity.
  - unfold is_zero, zeros, full; cbn. repeat constructor.
  - reflexivity.
  - lia.
  - reflexivity.
Defined.

(** ** The attention mask of the model *)

Section MaskClaims.

Import NeZha.

Lemma extended_attention_mask_ok (input_ids : tensor Z)
  (attention_mask : option (tensor R)) (b s : nat) :
  shape input_ids = [b; s] ->
  (forall m, attention_mask = Some m -> shape m = [b; s] /\ wf m) ->
  exists ext,
    extended_attention_mask input_ids attention_mask = OK ext /\
    shape ext = [b; 1; 1; s] /\ wf ext /\
    forall ib j, ib < b -> j < s ->
      get ext [ib; 0; 0; j]
      = ((1.0 - match attention_mask with
                | None => 1
                | Some m => get m [ib; j]
                end) * -10000.0)%R.
Proof.
  intros Hids Hm.
  set (mask := match attention_mask with
               | None => astype_float (ones_like input_ids)
               | Some m => m
               end).
  assert (Smask : shape mask = [b; s]).
  { unfold mask. destruct attention_mask as [m|]; [apply (Hm m eq_refl) | exact Hids]. }
  assert (Wmask : wf mask).
  { unfold mask. destruct attention_mask as [m|]; [apply (Hm m eq_refl)|].
    apply wf_map1, wf_full. }
  assert (Gmask : forall ib j, ib < b -> j < s ->
            get mask [ib; j] = match attention_mask with
                               | None => 1%R
                               | Some m => get m [ib; j]
                               end).
  { intros ib j Hb Hj. unfold mask. destruct attention_mask as [m|]; [reflexivity|].
    unfold astype_float.
    rewrite get_map1
      by (try apply wf_full; unfold ones_like; cbn [full shape]; rewrite Hids; simpl; lia).
    unfold ones_like. rewrite get_full by (rewrite Hids; simpl; lia). reflexivity. }
  unfold extended_attention_mask. fold mask.
  unfold unsqueeze at 1. rewrite Smask. cbn [length Nat.leb firstn skipn app bind].
  unfold unsqueeze. cbn [shape length Nat.leb firstn skipn app bind data].
  eexists. split; [reflexivity|]. split; [reflexivity|].
  assert (W : wf (Tensor [b; 1; 1; s] (data mask))).
  { unfold wf; cbn [data shape]. rewrite Wmask, Smask. simpl; lia. }
  split; [apply wf_map1; exact W|].
  intros ib j Hb Hj.
  rewrite get_map1 by (try exact W; simpl; lia).
  rewrite (get_reshaped mask _ _ [ib; j]) by (rewrite Smask; simpl; lia).
  rewrite Gmask by assumption. reflexivity.
Qed.

Lemma encoder_loop_calls (layers : list NeZhaLayer)
  (hidden_states attention_mask : tensor R)
  (all_encoder_layers all_encoder_att ls atts : list (tensor R)) :
  encoder_loop layers hidden_states attention_mask all_encoder_layers all_encoder_att
  = OK (ls, atts) ->
  exists hs new_atts,
    ls = all_encoder_layers ++ hidden_states :: hs /\
    atts = all_encoder_att ++ new_atts /\
    length hs = length layers /\ length new_atts = length layers /\
    forall i l, nth_error layers i = Some l ->
      exists h h' a,
        nth_error (hidden_states :: hs) i = Some h /\
        nth_error hs i = Some h' /\
        nth_error new_atts i = Some a /\
        NeZhaLayer_forward l h attention_mask = OK (h', a).
Proof.
  revert hidden_states all_encoder_layers all_encoder_att.
  induction layers as [|lm rest IH]; intros h L A E; cbn [encoder_loop] in E.
  - injection E as <- <-. exists [], []. rewrite app_nil_r.
    repeat split; try reflexivity.
    intros [|i] l Hl; discriminate.
  - destruct (NeZhaLayer_forward lm h attention_mask) as [r|e] eqn:Er;
      cbn [bind] in E; [|discriminate].
    destruct (IH _ _ _ E) as (hs & na & -> & -> & Lhs & Lna & Hcalls).
    exists (fst r :: hs), (snd r :: na).
    rewrite <- !app_assoc. cbn [app length].
    repeat split; try reflexivity; try (f_equal; assumption).
    intros [|i] l Hl; cbn [nth_error] in *.
    + injection Hl as <-. exists h, (fst r), (snd r).
      repeat split. rewrite Er. destruct r; reflexivity.
    + apply Hcalls. assumption.
Qed.

End MaskClaims.

(** C10: NeZhaModel.forward called without a mask uses the all-ones mask,
    whose additive form is zero everywhere; a given mask is turned into the
    bias -10000 at its 0 entries and 0 at its 1 entries; and that additive
    mask is the one every encoder layer is run with. *)
Theorem NeZhaModel_forward_mask
  (self : NeZha.NeZhaModel) (input_ids : tensor Z)
  (token_type_ids : option (tensor Z)) (attention_mask : option (tensor R))
  (b s : nat) :
  shape input_ids = [b; s] ->
  (forall m, attention_mask = Some m -> shape m = [b; s] /\ wf m) ->
  exists ext,
    NeZha.extended_attention_mask input_ids attention_mask = OK ext /\
    shape ext = [b; 1; 1; s] /\
    (attention_mask = None ->
     forall ib j, ib < b -> j < s -> get ext [ib; 0; 0; j] = 0%R) /\
    (forall m, attention_mask = Some m ->
     forall ib j, ib < b -> j < s ->
       (get m [ib; j] = 0%R -> get ext [ib; 0; 0; j] = (-10000)%R) /\
       (get m [ib; j] = 1%R -> get ext [ib; 0; 0; j] = 0%R)) /\
    (forall sequence_output pooled_output,
       NeZha.NeZhaModel_forward self input_ids token_type_ids attention_mask
       = OK (sequence_output, pooled_output) ->
       exists embedding_output hs atts,
         length hs = length (NeZha.layer (NeZha.encoder self)) /\
         last (embedding_output :: hs) (zeros []) = sequence_output /\
         forall i l, nth_error (NeZha.layer (NeZha.encoder self)) i = Some l ->
           exists h h' a,
             nth_error (embedding_output :: hs) i = Some h /\
             nth_error hs i = Some h' /\
             nth_error atts i = Some a /\
             NeZha.NeZhaLayer_forward l h ext = OK (h', a)).
Proof.
  intros Hids Hm.
  destruct (extended_attention_mask_ok input_ids attention_mask b s Hids Hm)
    as (ext & Eext & Sext & _ & Gext).
  exists ext. split; [assumption|]. split; [assumption|].
  split; [|split].
  - intros -> ib j Hb Hj. rewrite Gext by assumption. lra.
  - intros m -> ib j Hb Hj. rewrite Gext by assumption.
    split; intros ->; lra.
  - intros out pooled E. unfold NeZha.NeZhaModel_forward in E.
    rewrite Eext in E; cbn [bind] in E.
    destruct (NeZha.NeZhaEmbeddings_forward _ _ _) as [emb|e]; cbn [bind] in E;
      [|discriminate].
    unfold NeZha.NeZhaEncoder_forward in E.
    destruct (NeZha.encoder_loop _ _ _ _ _) as [[ls atts]|e] eqn:Eloop;
      cbn [bind fst] in E; [|discriminate].
    destruct (NeZha.NeZhaPooler_forward _ _) as [p|e]; cbn [bind] in E;
      [|discriminate].
    injection E as <- _.
    destruct (encoder_loop_calls _ _ _ _ _ _ _ Eloop)
      as (hs & na & -> & -> & Lhs & _ & Hcalls).
    exists emb, hs, na. split; [assumption|]. split; [reflexivity|].
    exact Hcalls.
Qed.

Lemma NeZhaModel_forward_mask_witness :
  let drop := {| rate := 0%R; training := false; keep := fun _ => true |} in
  let self :=
    {| NeZha.embeddings :=
         {| NeZha.use_relative_position := true;
            NeZha.word_embeddings := zeros [8; 2];
            NeZha.position_embeddings := None;
            NeZha.token_type_embeddings := zeros [2; 2];
            NeZha.emb_layer_norm :=
              {| ln_weight := [1%R; 1%R]; ln_bias := [0%R; 0%R]; epsilon := 0%R |};
            NeZha.emb_dropout := drop |};
       NeZha.encoder := {| NeZha.layer := [] |};
       NeZha.pooler :=
         {| NeZha.pooler_dense := {| weight := zeros [2; 2]; bias := zeros [2] |} |} |} in
  let input_ids := Tensor [1; 2] [5%Z; 7%Z] in
  let mask := Tensor [1; 2] [1%R; 0%R] in
  exists ext,
    NeZha.extended_attention_mask input_ids (Some mask) = OK ext /\
    shape ext = [1; 1; 1; 2] /\
    (Some mask = None ->
     forall ib j, ib < 1 -> j < 2 -> get ext [ib; 0; 0; j] = 0%R) /\
    (forall m, Some mask = Some m ->
     forall ib j, ib < 1 -> j < 2 ->
       (get m [ib; j] = 0%R -> get ext [ib; 0; 0; j] = (-10000)%R) /\
       (get m [ib; j] = 1%R -> get ext [ib; 0; 0; j] = 0%R)) /\
    (forall sequence_output pooled_output,
       NeZha.NeZhaModel_forward self input_ids None (Some mask)
       = OK (sequence_output, pooled_output) ->
       exists embedding_output hs atts,
         length hs = length (NeZha.layer (NeZha.encoder self)) /\
         last (embedding_output :: hs) (zeros []) = sequence_output /\
         forall i l, nth_error (NeZha.layer (NeZha.encoder self)) i = Some l ->
           exists h h' a,
             nth_error (embedding_output :: hs) i = Some h /\
             nth_error hs i = Some h' /\
             nth_error atts i = Some a /\
             NeZha.NeZhaLayer_forward l h ext = OK (h', a)).
Proof.
  intros drop self input_ids mask.
  apply (NeZhaModel_forward_mask self input_ids None (Some mask) 1 2).
  - reflexivity.
  - intros m E. injection E as <-. split; reflexivity.
Defined.

(** ** Rows, softmax and argmax *)

Section Rows.

Context {A : Type}.

Lemma rows_app (n : nat) (a rest : list A) :
  0 < n -> length a = n -> rows n (a ++ rest) = a :: rows n rest.
Proof.
  intros Hn Ha. unfold rows.
  rewrite length_app, Ha.
  replace ((n + length rest) / n) with (S (length rest / n)).
  2:{ replace (n + length rest) with (1 * n + length rest) by lia.
      rewrite Nat.div_add_l by lia. reflexivity. }
  cbn [seq map]. f_equal.
  - cbn [Nat.mul skipn]. rewrite firstn_app, Ha, Nat.sub_diag.
    cbn [firstn]. rewrite app_nil_r. rewrite <- Ha. apply firstn_all.
  - rewrite <- seq_shift, map_map. apply map_ext. intros r.
    f_equal. rewrite skipn_app, Ha.
    rewrite skipn_all2 by (rewrite Ha; lia). cbn [app]. f_equal. lia.
Qed.

Lemma rows_concat (n : nat) (ls : list (list A)) :
  0 < n -> Forall (fun r => length r = n) ls -> rows n (concat ls) = ls.
Proof.
  intros Hn Hall. induction Hall as [|a ls Ha _ IH]; cbn [concat].
  - unfold rows. cbn [length]. rewrite Nat.Div0.div_0_l. reflexivity.
  - rewrite rows_app by assumption. f_equal. exact IH.
Qed.

Lemma rows_length (n : nat) (l : list A) :
  Forall (fun r => length r = n) (rows n l).
Proof.
  unfold rows. apply Forall_map, Forall_forall. intros r Hr.
  apply in_seq in Hr. destruct (Nat.eq_dec n 0) as [-> | Hn].
  - reflexivity.
  - rewrite length_firstn, length_skipn.
    assert (r * n + n <= length l).
    { pose proof (Nat.Div0.mul_div_le (length l) n). nia. }
    lia.
Qed.

Lemma length_rows (n : nat) (l : list A) : length (rows n l) = length l / n.
Proof. unfold rows. rewrite length_map, length_seq. reflexivity. Qed.

End Rows.

Lemma rows_concat_map {A : Type} (n : nat) (f : list A -> list A) (l : list A) :
  (forall r, length (f r) = length r) ->
  rows n (concat (map f (rows n l))) = map f (rows n l).
Proof.
  intros Hf. destruct (Nat.eq_dec n 0) as [-> | Hn].
  - unfold rows at 1 3. rewrite !Nat.div_0_r. reflexivity.
  - apply rows_concat; [lia|].
    apply Forall_map. eapply Forall_impl; [|apply rows_length].
    intros r Hr. cbn beta. rewrite Hf. exact Hr.
Qed.

Section Argmax.

Lemma argmax_from_lt (l : list R) (bi i : nat) (best : R) :
  bi < i -> argmax_from bi best i l < i + length l.
Proof.
  revert bi i best. induction l as [|x l IH]; intros bi i best Hb; cbn [argmax_from length].
  - lia.
  - destruct (Rlt_dec best x).
    + specialize (IH i (S i) x ltac:(lia)). lia.
    + specialize (IH bi (S i) best ltac:(lia)). lia.
Qed.

Lemma argmax_row_range (l : list R) :
  l <> [] -> (0 <= argmax_row l < Z.of_nat (length l))%Z.
Proof.
  destruct l as [|x l]; [congruence|]. intros _. cbn [argmax_row length].
  pose proof (argmax_from_lt l 0 1 x ltac:(lia)). lia.
Qed.

(** [argmax_from] continues a scan: if [bi] is the first largest index of
    the part already read, the result is that of the whole row. *)
Lemma argmax_from_first_max (pre l : list R) (bi : nat) :
  first_max pre bi ->
  first_max (pre ++ l) (argmax_from bi (nth bi pre 0%R) (length pre) l).
Proof.
  revert pre bi. induction l as [|x l IH]; intros pre bi Hfm.
  - cbn [argmax_from]. rewrite app_nil_r. exact Hfm.
  - cbn [argmax_from].
    destruct Hfm as (Hlt & Hge & Hfirst).
    replace (pre ++ x :: l) with ((pre ++ [x]) ++ l)
      by (rewrite <- app_assoc; reflexivity).
    assert (Hx : nth (length pre) (pre ++ [x]) 0%R = x)
      by (rewrite app_nth2, Nat.sub_diag by lia; reflexivity).
    assert (Hlen : length (pre ++ [x]) = S (length pre))
      by (rewrite length_app; cbn; lia).
    destruct (Rlt_dec (nth bi pre 0%R) x) as [Hbest | Hbest].
    + pose proof (IH (pre ++ [x]) (length pre)) as IH'.
      rewrite Hx, Hlen in IH'. apply IH'.
      split; [lia|]. rewrite Hx. split.
      * intros j Hj. rewrite Hlen in Hj.
        destruct (Nat.eq_dec j (length pre)) as [-> | Hne]; [rewrite Hx; lra|].
        rewrite app_nth1 by lia. specialize (Hge j ltac:(lia)). lra.
      * intros j Hj. rewrite app_nth1 by lia. specialize (Hge j Hj). lra.
    + pose proof (IH (pre ++ [x]) bi) as IH'.
      rewrite (app_nth1 pre [x] 0%R Hlt), Hlen in IH'. apply IH'.
      split; [lia|].
      rewrite (app_nth1 pre [x] 0%R Hlt). split.
      * intros j Hj. rewrite Hlen in Hj.
        destruct (Nat.eq_dec j (length pre)) as [-> | Hne]; [rewrite Hx; lra|].
        rewrite app_nth1 by lia. apply Hge. lia.
      * intros j Hj. rewrite app_nth1 by lia. apply Hfirst. assumption.
Qed.

Lemma argmax_row_first_max (l : list R) :
  l <> [] -> first_max l (Z.to_nat (argmax_row l)).
Proof.
  destruct l as [|x l]; [congruence|]. intros _.
  cbn [argmax_row]. rewrite Nat2Z.id.
  apply (argmax_from_first_max [x] l 0).
  split; [cbn; lia|]. split.
  - intros j Hj. cbn in Hj. assert (j = 0) by lia. subst j. lra.
  - intros j Hj. lia.
Qed.

Lemma first_max_unique (l : list R) (k k' : nat) :
  first_max l k -> first_max l k' -> k = k'.
Proof.
  intros (Hk & Hge & Hfirst) (Hk' & Hge' & Hfirst').
  destruct (Nat.lt_trichotomy k k') as [Hlt | [E | Hlt]]; [|assumption|].
  - specialize (Hfirst' k Hlt). specialize (Hge k' Hk'). lra.
  - specialize (Hfirst k' Hlt). specialize (Hge' k Hk). lra.
Qed.

Lemma argmax_row_unique (l : list R) (k : nat) :
  first_max l k -> argmax_row l = Z.of_nat k.
Proof.
  intros Hk. assert (Hne : l <> []) by (destruct Hk as [Hlt _]; destruct l; cbn in Hlt; [lia | discriminate]).
  pose proof (argmax_row_first_max l Hne) as Ha.
  pose proof (argmax_row_range l Hne).
  rewrite <- (first_max_unique l _ _ Ha Hk). lia.
Qed.

Lemma nth_map_lt (g : R -> R) (l : list R) (j : nat) :
  j < length l -> nth j (map g l) 0%R = g (nth j l 0%R).
Proof.
  intros Hj. rewrite (nth_indep _ 0%R (g 0%R)) by (rewrite length_map; assumption).
  apply map_nth.
Qed.

(** Under a map that keeps the order, weakly, the first largest element of
    the image is at or before that of the row, and as large as its image. *)
Lemma first_max_image (g : R -> R) (l : list R) (k a : nat) :
  (forall x y, (x <= y)%R -> (g x <= g y)%R) ->
  first_max (map g l) k -> first_max l a ->
  k <= a /\ nth k (map g l) 0%R = nth a (map g l) 0%R.
Proof.
  intros Hg (Hk & Hge & Hfirst) (Ha & Hgea & _).
  rewrite length_map in Hk, Hge.
  assert (Hka : (nth k (map g l) 0 <= nth a (map g l) 0)%R).
  { rewrite !nth_map_lt by assumption. apply Hg, Hgea. assumption. }
  pose proof (Hge a Ha) as Hak.
  split; [|lra].
  destruct (Nat.le_gt_cases k a) as [Hle | Hlt]; [assumption|].
  specialize (Hfirst a Hlt). lra.
Qed.

(** If the map moreover sends every element below the largest strictly
    below its image, the first largest element stays where it is. *)
Lemma first_max_image_strict (g : R -> R) (l : list R) (a : nat) :
  (forall x y, (x <= y)%R -> (g x <= g y)%R) ->
  (forall x, In x l -> (x < nth a l 0)%R -> (g x < g (nth a l 0))%R) ->
  first_max l a -> first_max (map g l) a.
Proof.
  intros Hg Hstrict (Ha & Hge & Hfirst).
  split; [rewrite length_map; assumption|]. split.
  - intros j Hj. rewrite length_map in Hj.
    rewrite !nth_map_lt by assumption. apply Hg, Hge. assumption.
  - intros j Hj. rewrite !nth_map_lt by lia.
    apply Hstrict; [apply nth_In; lia | apply Hfirst; assumption].
Qed.

End Argmax.

Section Softmax.

Lemma fold_left_Rmax_ge (l : list R) (a : R) :
  (a <= fold_left Rmax l a)%R /\
  (forall x, In x l -> (x <= fold_left Rmax l a)%R) /\
  (fold_left Rmax l a = a \/ In (fold_left Rmax l a) l).
Proof.
  revert a. induction l as [|y l IH]; intros a; cbn [fold_left].
  - split; [lra|]. split; [intros x []|]. left; reflexivity.
  - destruct (IH (Rmax a y)) as (H1 & H2 & H3).
    pose proof (Rmax_l a y). pose proof (Rmax_r a y).
    split; [lra|]. split.
    + intros x [-> | Hx]; [lra | apply H2; assumption].
    + destruct H3 as [E | Hin]; [|right; right; assumption].
      rewrite E. unfold Rmax. destruct (Rle_dec a y); [right; left|left]; reflexivity.
Qed.

Lemma row_max_ge (l : list R) (x : R) : In x l -> (x <= row_max l)%R.
Proof.
  destruct l as [|y l]; [intros []|]. cbn [row_max].
  destruct (fold_left_Rmax_ge l y) as (H1 & H2 & _).
  intros [<- | Hx]; [assumption | apply H2; assumption].
Qed.

Lemma row_max_In (l : list R) : l <> [] -> In (row_max l) l.
Proof.
  destruct l as [|y l]; [congruence|]. intros _. cbn [row_max].
  destruct (fold_left_Rmax_ge l y) as (_ & _ & [E | Hin]);
    [left; symmetry; assumption | right; assumption].
Qed.

Lemma first_max_row_max (l : list R) (a : nat) :
  first_max l a -> nth a l 0%R = row_max l.
Proof.
  intros (Ha & Hge & _).
  assert (Hne : l <> []) by (destruct l; cbn in Ha; [lia | discriminate]).
  pose proof (row_max_In l Hne) as Hin.
  apply (In_nth _ _ 0%R) in Hin. destruct Hin as (j & Hj & Ej).
  pose proof (Hge j Hj). pose proof (row_max_ge l (nth a l 0%R) (nth_In _ _ Ha)).
  lra.
Qed.

Lemma fold_left_rounded_sum_nonneg (rnd : R -> R) (e : list R) (a : R) :
  (forall x y, (x <= y)%R -> (rnd x <= rnd y)%R) -> rnd 0%R = 0%R ->
  (0 <= a)%R -> Forall (fun v => (0 <= v)%R) e ->
  (0 <= fold_left (fun a v => rnd (a + v)%R) e a)%R.
Proof.
  intros Hmono H0 Ha He. revert a Ha.
  induction He as [|v e Hv _ IH]; intros a Ha; cbn [fold_left]; [assumption|].
  apply IH. rewrite <- H0. apply Hmono. lra.
Qed.

Lemma fold_left_sum (e : list R) (a : R) :
  fold_left (fun a v => exact (a + v)%R) e a = (a + rsum e)%R.
Proof.
  revert a. induction e as [|v e IH]; intros a; cbn [fold_left rsum fold_right].
  - lra.
  - rewrite IH. unfold exact, rsum. lra.
Qed.

Lemma length_softmax_kernel_row (rnd : R -> R) (l : list R) :
  length (softmax_kernel_row rnd l) = length l.
Proof. unfold softmax_kernel_row. rewrite !length_map. reflexivity. Qed.

Lemma length_softmax_row (l : list R) : length (softmax_row l) = length l.
Proof. apply length_softmax_kernel_row. Qed.

(** The kernel maps the elements of a row one by one, and keeps their order
    when the rounding does. *)
Lemma softmax_kernel_row_mono (rnd : R -> R) (l : list R) :
  (forall x y, (x <= y)%R -> (rnd x <= rnd y)%R) -> rnd 0%R = 0%R ->
  exists g,
    softmax_kernel_row rnd l = map g l /\
    forall x y, (x <= y)%R -> (g x <= g y)%R.
Proof.
  intros Hmono H0. unfold softmax_kernel_row.
  set (m := row_max l).
  set (f := fun x => rnd (exp (Rmax (rnd (x - m)%R) (-64)%R))).
  set (inv := rnd (1 / fold_left (fun a v => rnd (a + v)%R) (map f l) 0%R)%R).
  exists (fun x => rnd (f x * inv)%R). split; [rewrite map_map; reflexivity|].
  assert (Hf : forall x, (0 <= f x)%R).
  { intros x. unfold f. rewrite <- H0. apply Hmono. left. apply exp_pos. }
  assert (Hinv : (0 <= inv)%R).
  { unfold inv. rewrite <- H0 at 1. apply Hmono.
    assert (Hs : (0 <= fold_left (fun a v => rnd (a + v)%R) (map f l) 0)%R).
    { apply fold_left_rounded_sum_nonneg; try assumption; [lra|].
      apply Forall_map, Forall_forall. intros x _. apply Hf. }
    unfold Rdiv. rewrite Rmult_1_l.
    destruct Hs as [Hs | <-]; [left; apply Rinv_0_lt_compat; assumption|].
    rewrite Rinv_0. lra. }
  intros x y Hxy. apply Hmono. apply Rmult_le_compat_r; [assumption|].
  unfold f. apply Hmono.
  assert (Hc : (Rmax (rnd (x - m)) (-64) <= Rmax (rnd (y - m)) (-64))%R).
  { apply Rle_max_compat_r. apply Hmono. lra. }
  destruct Hc as [Hc | ->]; [left; apply exp_increasing; assumption | lra].
Qed.

(** In exact arithmetic the map is strict below the largest element. *)
Lemma softmax_row_strict (l : list R) :
  exists g,
    softmax_row l = map g l /\
    (forall x y, (x <= y)%R -> (g x <= g y)%R) /\
    (forall x, In x l -> (g x <= 1)%R) /\
    (forall x, In x l -> (0 < g x)%R) /\
    (forall x, In x l -> (x < row_max l)%R -> (g x < g (row_max l))%R).
Proof.
  unfold softmax_row, softmax_kernel_row.
  set (m := row_max l).
  set (f := fun x => exact (exp (Rmax (exact (x - m)%R) (-64)%R))).
  rewrite fold_left_sum, Rplus_0_l.
  set (S := rsum (map f l)).
  exists (fun x => exact (f x * exact (1 / S))%R). split; [rewrite map_map; reflexivity|].
  unfold exact in *.
  assert (Hf : forall x, (0 < f x)%R) by (intros x; apply exp_pos).
  assert (Hnn : forall l', (0 <= rsum (map f l'))%R).
  { unfold rsum. induction l' as [|z l' IH]; cbn [map fold_right]; [lra|].
    pose proof (Hf z). lra. }
  assert (Hin0 : forall l0 x, In x l0 -> (f x <= rsum (map f l0))%R).
  { induction l0 as [|z l' IH]; intros x; [intros []|].
    unfold rsum. cbn [map fold_right]. fold (rsum (map f l')).
    intros [-> | Hx].
    - pose proof (Hnn l'). lra.
    - specialize (IH x Hx). pose proof (Hf z). lra. }
  assert (Hin : forall x, In x l -> (f x <= S)%R) by (apply Hin0).
  assert (Hmf : forall x y, (x <= y)%R -> (f x <= f y)%R).
  { intros x y Hxy. unfold f.
    assert (Hc : (Rmax (x - m) (-64) <= Rmax (y - m) (-64))%R)
      by (apply Rle_max_compat_r; lra).
    destruct Hc as [Hc | ->]; [left; apply exp_increasing; assumption | lra]. }
  split; [|split; [|split]].
  - intros x y Hxy.
    destruct (Rle_lt_dec S 0) as [HS | HS].
    + destruct l as [|z l']; [cbn in S; unfold S; rewrite Rdiv_0_r; lra|].
      pose proof (Hin z (or_introl eq_refl)). pose proof (Hf z). lra.
    + apply Rmult_le_compat_r; [|apply Hmf; assumption].
      unfold Rdiv. rewrite Rmult_1_l. left. apply Rinv_0_lt_compat. assumption.
  - intros x Hx. pose proof (Hin x Hx). pose proof (Hf x).
    apply Rmult_le_reg_r with S; [lra|].
    unfold Rdiv. rewrite Rmult_1_l, Rmult_assoc, Rinv_l by lra. lra.
  - intros x Hx. pose proof (Hin x Hx). pose proof (Hf x).
    apply Rmult_lt_0_compat; [assumption|].
    unfold Rdiv. rewrite Rmult_1_l. apply Rinv_0_lt_compat. lra.
  - intros x Hx Hlt. pose proof (Hin x Hx). pose proof (Hf x).
    apply Rmult_lt_compat_r.
    + unfold Rdiv. rewrite Rmult_1_l. apply Rinv_0_lt_compat. lra.
    + unfold f. apply exp_increasing. fold m.
      replace (m - m)%R with 0%R by lra.
      rewrite (Rmax_left 0 (-64)) by lra.
      apply Rmax_lub_lt; lra.
Qed.

(** The softmax of a row in exact arithmetic keeps the largest element
    first where it was. *)
Lemma argmax_row_softmax (l : list R) : argmax_row (softmax_row l) = argmax_row l.
Proof.
  destruct l as [|x l]; [reflexivity|].
  assert (Hne : x :: l <> []) by discriminate.
  pose proof (argmax_row_first_max _ Hne) as Ha.
  pose proof (argmax_row_range _ Hne) as Hr.
  destruct (softmax_row_strict (x :: l)) as (g & -> & Hg & _ & _ & Hstrict).
  rewrite (argmax_row_unique (map g (x :: l)) (Z.to_nat (argmax_row (x :: l)))).
  - lia.
  - apply first_max_image_strict; [assumption | | assumption].
    rewrite (first_max_row_max _ _ Ha). exact Hstrict.
Qed.


Lemma softmax_row_pos (l : list R) : Forall (fun p => (0 < p)%R) (softmax_row l).
Proof.
  destruct (softmax_row_strict l) as (g & -> & _ & _ & Hpos & _).
  apply Forall_map, Forall_forall. exact Hpos.
Qed.

End Softmax.

Section Sampling.

Lemma is_zero_zeros (s : list nat) : is_zero (zeros s).
Proof. unfold is_zero, zeros, full; cbn [data]. apply Forall_forall.
  intros x Hx. apply repeat_spec in Hx. congruence. Qed.

Lemma argmax_ok (x : tensor R) (b l v : nat) :
  shape x = [b; l; v] -> 0 < v -> wf x ->
  exists y, argmax x = OK y /\ shape y = [b; l] /\ wf y /\
    data y = map argmax_row (rows v (data x)) /\
    Forall (fun z => (0 <= z < Z.of_nat v)%Z) (data y).
Proof.
  intros Sx Hv Wx. unfold argmax. rewrite Sx.
  change (last_dim [b; l; v]) with v.
  replace (v =? 0) with false by (symmetry; apply Nat.eqb_neq; lia).
  eexists. split; [reflexivity|]. split; [reflexivity|].
  split; [|split; [reflexivity|]].
  - unfold wf; cbn [data shape removelast]. rewrite length_map, length_rows, Wx, Sx.
    cbn [numel fold_right]. replace (b * (l * (v * 1))) with (b * l * v) by lia.
    rewrite Nat.div_mul by lia. lia.
  - cbn [data]. apply Forall_map.
    eapply Forall_impl; [|apply (rows_length v (data x))].
    intros r Hr. cbn beta. rewrite <- Hr. apply argmax_row_range.
    intros ->. cbn in Hr. lia.
Qed.

Lemma wf_softmax_rounded (rnd : R -> R) (x : tensor R) (b l v : nat) :
  shape x = [b; l; v] -> wf x -> wf (softmax_rounded rnd x).
Proof.
  intros Sx Wx. unfold wf, softmax_rounded; cbn [data shape]. rewrite Sx.
  change (last_dim [b; l; v]) with v.
  destruct (Nat.eq_dec v 0) as [-> | Hv].
  - unfold rows. rewrite Nat.div_0_r. cbn. lia.
  - assert (Hlen : length (data x) = (b * l) * v)
      by (rewrite Wx, Sx; cbn [numel fold_right]; lia).
    assert (Hgen : forall ls : list (list R),
              Forall (fun r => length r = v) ls ->
              length (concat (map (softmax_kernel_row rnd) ls)) = length ls * v).
    { induction 1 as [|r ls Hr _ IH]; cbn [map concat length]; [reflexivity|].
      rewrite length_app, length_softmax_kernel_row, IH, Hr. lia. }
    rewrite Hgen by apply rows_length.
    rewrite length_rows, Hlen, Nat.div_mul by lia.
    cbn [numel fold_right]. lia.
Qed.

Lemma wf_softmax (x : tensor R) (b l v : nat) :
  shape x = [b; l; v] -> wf x -> wf (softmax x).
Proof. apply wf_softmax_rounded. Qed.

Lemma sampled_tokids_ok (rnd : R -> R) (logits : tensor R)
  (use_softmax_sample : bool) (rng : nat -> R) (b l v : nat) :
  shape logits = [b; l; v] -> 0 < v ->
  exists sampled_tokens sampled_tokids,
    Electra.sample_from_softmax rnd logits use_softmax_sample rng
    = OK sampled_tokens /\
    argmax sampled_tokens = OK sampled_tokids /\
    shape sampled_tokids = [b; l] /\ wf sampled_tokids /\
    Forall (fun z => (0 <= z < Z.of_nat v)%Z) (data sampled_tokids).
Proof.
  intros Sl Hv. unfold Electra.sample_from_softmax.
  set (noise := if use_softmax_sample then _ else _).
  assert (Sn : shape logits = shape noise)
    by (unfold noise; destruct use_softmax_sample; reflexivity).
  unfold add. rewrite map2_same_shape by assumption. cbn [bind].
  set (noisy := build _ _).
  assert (Snoisy : shape noisy = [b; l; v]) by exact Sl.
  assert (Wnoisy : wf noisy) by apply wf_build.
  destruct (argmax_ok (softmax_rounded rnd noisy) b l v Snoisy Hv
              (wf_softmax_rounded rnd _ _ _ _ Snoisy Wnoisy))
    as (am & Eam & Sam & Wam & _ & Ram).
  rewrite Eam; cbn [bind]. rewrite Sl. change (last_dim [b; l; v]) with v.
  unfold one_hot.
  replace (forallb _ (data am)) with true.
  2:{ symmetry. apply forallb_forall. intros z Hz.
      rewrite Forall_forall in Ram. specialize (Ram z Hz). cbn beta in Ram.
      apply andb_true_iff; split; [apply Z.leb_le | apply Z.ltb_lt]; lia. }
  set (st := build _ _).
  assert (Sst : shape st = [b; l; v]) by (unfold st; rewrite shape_build, Sam; reflexivity).
  destruct (argmax_ok st b l v Sst Hv (wf_build _ _)) as (ids & Eids & Sids & Wids & _ & Rids).
  exists st, ids. repeat split; assumption.
Qed.

End Sampling.


(** ** Decoding a one-hot sample *)

Section OneHot.

Lemma unravel_app_last (s : list nat) (v k : nat) :
  0 < v -> k < numel s * v ->
  unravel (s ++ [v]) k = unravel s (k / v) ++ [k mod v].
Proof.
  intros Hv. revert k. induction s as [|n s IH]; intros k Hk.
  - cbn [numel fold_right] in Hk. cbn [app unravel numel fold_right].
    rewrite Nat.div_1_r, Nat.mod_small by lia. reflexivity.
  - cbn [numel fold_right] in Hk. fold (numel s) in Hk.
    assert (Hs : numel s <> 0) by (intros E; rewrite E in Hk; lia).
    cbn [app unravel]. rewrite numel_app.
    cbn [numel fold_right]. fold (numel s). rewrite Nat.mul_1_r.
    rewrite IH by (apply Nat.mod_upper_bound; lia).
    cbn [app]. f_equal.
    + rewrite (Nat.mul_comm (numel s) v), Nat.Div0.div_div. reflexivity.
    + rewrite (Nat.mul_comm (numel s) v), Nat.Div0.mod_mul_r.
      f_equal; [f_equal|].
      * rewrite Nat.mul_comm, Nat.div_add by lia.
        rewrite Nat.div_small by (apply Nat.mod_upper_bound; lia). reflexivity.
      * f_equal. rewrite Nat.mul_comm, Nat.Div0.mod_add.
        apply Nat.Div0.mod_mod.
Qed.

Lemma firstn_skipn_seq (a v N : nat) :
  a + v <= N -> firstn v (skipn a (seq 0 N)) = seq a v.
Proof.
  intros Hle. replace N with (a + (v + (N - a - v))) by lia.
  rewrite seq_app, skipn_app, length_seq, Nat.sub_diag.
  rewrite skipn_all2 by (rewrite length_seq; lia).
  cbn [skipn app]. rewrite seq_app, firstn_app, length_seq, Nat.sub_diag.
  cbn [firstn]. rewrite app_nil_r.
  rewrite firstn_all2 by (rewrite length_seq; lia). reflexivity.
Qed.

Lemma map_seq_from {A : Type} (f : nat -> A) (a v : nat) :
  map f (seq a v) = map (fun c => f (a + c)) (seq 0 v).
Proof.
  revert a. induction v as [|v IH]; intros a; [reflexivity|].
  cbn [seq map]. rewrite Nat.add_0_r. f_equal.
  rewrite IH, <- seq_shift, map_map. apply map_ext. intros c. f_equal. lia.
Qed.

Lemma rows_map_seq {A : Type} (f : nat -> A) (n v : nat) :
  0 < v ->
  rows v (map f (seq 0 (n * v)))
  = map (fun r => map (fun c => f (r * v + c)) (seq 0 v)) (seq 0 n).
Proof.
  intros Hv. unfold rows. rewrite length_map, length_seq, Nat.div_mul by lia.
  apply map_ext_in. intros r Hr. apply in_seq in Hr.
  rewrite skipn_map, firstn_map, firstn_skipn_seq by nia.
  apply map_seq_from.
Qed.

Lemma argmax_from_le (l : list R) (bi i : nat) (best : R) :
  Forall (fun x => (x <= best)%R) l -> argmax_from bi best i l = bi.
Proof.
  intros Hall. revert i. induction Hall as [|x l Hx _ IH]; intros i; cbn [argmax_from].
  - reflexivity.
  - destruct (Rlt_dec best x); [lra | apply IH].
Qed.

Lemma argmax_from_one_hot (z : Z) (n bi i : nat) :
  (Z.of_nat i <= z < Z.of_nat (i + n))%Z ->
  argmax_from bi 0 i
    (map (fun c => if (z =? Z.of_nat c)%Z then 1%R else 0%R) (seq i n))
  = Z.to_nat z.
Proof.
  revert bi i. induction n as [|n IH]; intros bi i Hz; [lia|].
  cbn [seq map argmax_from].
  destruct (Z.eqb_spec z (Z.of_nat i)) as [-> | Hne].
  - destruct (Rlt_dec 0 1); [|lra].
    rewrite argmax_from_le; [lia|].
    apply Forall_map, Forall_forall. intros c _.
    destruct (Z.of_nat i =? Z.of_nat c)%Z; lra.
  - destruct (Rlt_dec 0 0); [lra|]. apply IH. lia.
Qed.

Lemma argmax_row_one_hot (z : Z) (v : nat) :
  (0 <= z < Z.of_nat v)%Z ->
  argmax_row (map (fun c => if (z =? Z.of_nat c)%Z then 1%R else 0%R) (seq 0 v)) = z.
Proof.
  intros Hz. destruct v as [|v]; [lia|].
  cbn [seq map argmax_row].
  destruct (Z.eqb_spec z (Z.of_nat 0)) as [-> | Hne].
  - rewrite argmax_from_le; [reflexivity|].
    apply Forall_map, Forall_forall. intros c _.
    destruct (Z.of_nat 0 =? Z.of_nat c)%Z; lra.
  - rewrite argmax_from_one_hot by lia. lia.
Qed.

(** [argmax] undoes [one_hot]. *)
Lemma argmax_one_hot (x : tensor Z) (v : nat) :
  wf x -> 0 < v -> Forall (fun z => (0 <= z < Z.of_nat v)%Z) (data x) ->
  exists y, one_hot x v = OK y /\ argmax y = OK x.
Proof.
  intros Wx Hv Hr. unfold one_hot.
  replace (forallb _ (data x)) with true.
  2:{ symmetry. apply forallb_forall. intros z Hz.
      rewrite Forall_forall in Hr. specialize (Hr z Hz). cbn beta in Hr.
      apply andb_true_iff; split; [apply Z.leb_le | apply Z.ltb_lt]; lia. }
  eexists. split; [reflexivity|].
  unfold argmax. rewrite shape_build.
  unfold last_dim. rewrite last_last.
  replace (v =? 0) with false by (symmetry; apply Nat.eqb_neq; lia).
  destruct (shape x ++ [v]) eqn:Es; [destruct (shape x); discriminate|].
  rewrite <- Es. rewrite removelast_last.
  destruct x as [s d]. cbn [shape data] in *. f_equal. f_equal.
  unfold build; cbn [data]. rewrite numel_app.
  cbn [numel fold_right]. fold (numel s). rewrite Nat.mul_1_r.
  rewrite rows_map_seq by assumption. rewrite map_map.
  unfold wf in Wx; cbn [shape data] in Wx. rewrite <- Wx.
  rewrite <- (map_seq_nth d 0%Z) at 2.
  apply map_seq_ext. intros r Hrow.
  rewrite <- (argmax_row_one_hot (nth r d 0%Z) v).
  2:{ rewrite Forall_forall in Hr. apply Hr, nth_In. assumption. }
  f_equal. apply map_seq_ext. intros c Hc.
  rewrite unravel_app_last by nia.
  rewrite Nat.div_add_l, Nat.div_small, Nat.add_0_r by lia.
  rewrite Nat.add_comm, Nat.Div0.mod_add, Nat.mod_small by lia.
  rewrite removelast_last, last_last.
  unfold get; cbn [shape data]. rewrite ravel_unravel by lia. reflexivity.
Qed.

End OneHot.


Section Decoding.

(** What [sample_from_softmax] computes and what the argmax of its result
    gives back. *)
Lemma sample_from_softmax_trace (rnd : R -> R) (logits : tensor R)
  (use_softmax_sample : bool) (rng : nat -> R) (b l v : nat) :
  shape logits = [b; l; v] -> 0 < v ->
  let gumbel_noise :=
    if use_softmax_sample then
      map1 (fun u => (- ln (- ln (u + 1e-9) + 1e-9))%R) (rand (shape logits) rng)
    else zeros (shape logits) in
  exists noisy softmax_sample sampled_tokens,
    add logits gumbel_noise = OK noisy /\
    argmax (softmax_rounded rnd noisy) = OK softmax_sample /\
    Electra.sample_from_softmax rnd logits use_softmax_sample rng
    = OK sampled_tokens /\
    shape sampled_tokens = [b; l; v] /\
    argmax sampled_tokens = OK softmax_sample /\
    (shape softmax_sample = [b; l] /\ wf softmax_sample) /\
    Forall (fun z => (0 <= z < Z.of_nat v)%Z) (data softmax_sample).
Proof.
  intros Sl Hv noise. unfold Electra.sample_from_softmax. fold noise.
  assert (Sn : shape logits = shape noise)
    by (unfold noise; destruct use_softmax_sample; reflexivity).
  unfold add. rewrite map2_same_shape by assumption. cbn [bind].
  set (noisy := build _ _).
  assert (Snoisy : shape noisy = [b; l; v]) by exact Sl.
  destruct (argmax_ok (softmax_rounded rnd noisy) b l v Snoisy Hv
              (wf_softmax_rounded rnd _ _ _ _ Snoisy (wf_build _ _)))
    as (am & Eam & Sam & Wam & _ & Ram).
  rewrite Eam; cbn [bind]. rewrite Sl. change (last_dim [b; l; v]) with v.
  destruct (argmax_one_hot am v Wam Hv Ram) as (st & Est & Edec).
  exists noisy, am, st. repeat split; try assumption; try reflexivity.
  unfold one_hot in Est. destruct (forallb _ (data am)); [|discriminate].
  injection Est as <-. rewrite shape_build, Sam. reflexivity.
Qed.

End Decoding.

(** ** Rounding to [float32] *)

Section Rounding.

Local Open Scope R_scope.

Lemma ln_2_pos : 0 < ln 2.
Proof. pose proof ln_lt_2. lra. Qed.

Lemma pow2_exp (z : Z) : powerRZ 2 z = exp (IZR z * ln 2).
Proof. rewrite powerRZ_Rpower by lra. reflexivity. Qed.

Lemma pow2_pos (z : Z) : 0 < powerRZ 2 z.
Proof. apply powerRZ_lt. lra. Qed.

Lemma pow2_le (a b : Z) : (a <= b)%Z -> powerRZ 2 a <= powerRZ 2 b.
Proof.
  intros H. rewrite !pow2_exp. destruct (Z.eq_dec a b) as [-> | Hne]; [lra|].
  left. apply exp_increasing. apply Rmult_lt_compat_r; [apply ln_2_pos|].
  apply IZR_lt. lia.
Qed.

Lemma pow2_add (a b : Z) : powerRZ 2 (a + b) = powerRZ 2 a * powerRZ 2 b.
Proof. apply powerRZ_add. lra. Qed.

Lemma pow2_24 : powerRZ 2 24 = 16777216.
Proof. simpl. lra. Qed.

Lemma pow2_23 : powerRZ 2 23 = 8388608.
Proof. simpl. lra. Qed.

(** The binade of a non-zero real. *)
Lemma binade (x : R) :
  x <> 0 ->
  powerRZ 2 (Zfloor (ln (Rabs x) / ln 2)) <= Rabs x
  < powerRZ 2 (Zfloor (ln (Rabs x) / ln 2) + 1).
Proof.
  intros Hx. set (e := Zfloor (ln (Rabs x) / ln 2)).
  pose proof (Zfloor_bound (ln (Rabs x) / ln 2)) as [H1 H2]. fold e in H1, H2.
  assert (Hax : 0 < Rabs x) by (apply Rabs_pos_lt; assumption).
  pose proof ln_2_pos as H2pos.
  set (L := ln (Rabs x)) in *.
  assert (EL : L = L / ln 2 * ln 2) by (field; lra).
  assert (Hlo : IZR e * ln 2 <= L)
    by (rewrite EL; apply Rmult_le_compat_r; lra).
  assert (Hhi : L < IZR (e + 1) * ln 2).
  { rewrite plus_IZR. rewrite EL at 1. apply Rmult_lt_compat_r; lra. }
  rewrite !pow2_exp.
  assert (Ex : Rabs x = exp L) by (unfold L; rewrite exp_ln; [reflexivity | assumption]).
  rewrite Ex. split.
  - destruct Hlo as [Hlo | ->]; [left; apply exp_increasing; assumption | lra].
  - apply exp_increasing. assumption.
Qed.

Lemma binade_unique (x : R) (k : Z) :
  powerRZ 2 k <= Rabs x < powerRZ 2 (k + 1) ->
  Zfloor (ln (Rabs x) / ln 2) = k.
Proof.
  intros [Hlo Hhi].
  pose proof (pow2_pos k) as Hk.
  assert (Hax : 0 < Rabs x) by lra.
  pose proof ln_2_pos as H2pos.
  set (L := ln (Rabs x)).
  assert (Ex : Rabs x = exp L) by (unfold L; rewrite exp_ln; [reflexivity | assumption]).
  rewrite !pow2_exp, Ex in *.
  assert (Hlo' : IZR k * ln 2 <= L).
  { destruct (Rle_lt_dec (IZR k * ln 2) L) as [H | H]; [assumption|].
    apply exp_increasing in H. lra. }
  assert (Hhi' : L < IZR (k + 1) * ln 2).
  { destruct (Rle_lt_dec (IZR (k + 1) * ln 2) L) as [H | H]; [|assumption].
    destruct H as [H | H]; [apply exp_increasing in H; lra | rewrite H in Hhi; lra]. }
  rewrite plus_IZR in Hhi'.
  apply Zfloor_eq. split.
  - apply Rmult_le_reg_r with (ln 2); [assumption|].
    replace (L / ln 2 * ln 2) with L by (field; lra). assumption.
  - apply Rmult_lt_reg_r with (ln 2); [assumption|].
    replace (L / ln 2 * ln 2) with L by (field; lra). assumption.
Qed.

Lemma round_even_near (r : R) : r - / 2 <= IZR (round_even r) <= r + / 2.
Proof.
  unfold round_even. pose proof (Zfloor_bound r) as [H1 H2].
  destruct (Rlt_dec (r - IZR (Zfloor r)) (/ 2)); [lra|].
  destruct (Rlt_dec (/ 2) (r - IZR (Zfloor r))); [rewrite plus_IZR; lra|].
  destruct (Z.even (Zfloor r)); [lra | rewrite plus_IZR; lra].
Qed.

Lemma round_even_mono (r r' : R) : r <= r' -> (round_even r <= round_even r')%Z.
Proof.
  intros Hr.
  destruct (Z_le_gt_dec (round_even r) (round_even r')) as [H | H]; [assumption|].
  exfalso.
  pose proof (round_even_near r) as [_ Hn].
  pose proof (round_even_near r') as [Hn' _].
  assert (H1 : IZR (round_even r') + 1 <= IZR (round_even r))
    by (rewrite <- plus_IZR; apply IZR_le; lia).
  assert (E : r = r') by lra.
  rewrite E in H. lia.
Qed.

Lemma round_even_IZR (n : Z) : round_even (IZR n) = n.
Proof.
  unfold round_even. rewrite ZfloorZ.
  destruct (Rlt_dec (IZR n - IZR n) (/ 2)); [reflexivity | lra].
Qed.

Lemma round_even_opp (r : R) : round_even (- r) = (- round_even r)%Z.
Proof.
  pose proof (Zfloor_bound r) as [H1 H2].
  destruct (Req_dec r (IZR (Zfloor r))) as [E | Hne].
  - rewrite E, <- opp_IZR, !round_even_IZR. reflexivity.
  - assert (Ef : Zfloor (- r) = (- Zfloor r - 1)%Z).
    { apply Zfloor_eq. rewrite minus_IZR, opp_IZR. lra. }
    unfold round_even. rewrite Ef, minus_IZR, opp_IZR.
    assert (Ev : Z.even (- Zfloor r - 1) = negb (Z.even (Zfloor r))).
    { rewrite Z.even_sub, Z.even_opp. destruct (Z.even (Zfloor r)); reflexivity. }
    rewrite Ev.
    destruct (Rlt_dec (r - IZR (Zfloor r)) (/ 2)) as [A | A];
      destruct (Rlt_dec (- r - (- IZR (Zfloor r) - 1)) (/ 2)) as [B | B];
      try lra;
      destruct (Rlt_dec (/ 2) (r - IZR (Zfloor r))) as [C | C];
      destruct (Rlt_dec (/ 2) (- r - (- IZR (Zfloor r) - 1))) as [D | D];
      try lra; try lia.
    destruct (Z.even (Zfloor r)); cbn [negb]; lia.
Qed.

Lemma round32_0 : round32 0 = 0.
Proof. unfold round32. destruct (Req_dec_T 0 0); [reflexivity | lra]. Qed.

Lemma round32_opp (x : R) : round32 (- x) = - round32 x.
Proof.
  unfold round32.
  destruct (Req_dec_T x 0) as [Hx | Hx], (Req_dec_T (- x) 0) as [Hx' | Hx']; try lra.
  unfold ulp32. rewrite Rabs_Ropp.
  set (u := powerRZ 2 _).
  assert (Hu : 0 < u) by apply pow2_pos.
  replace (- x / u) with (- (x / u)) by (field; lra).
  rewrite round_even_opp, opp_IZR. ring.
Qed.

(** A positive real rounds into the closure of its binade. *)
Lemma round32_pos_bounds (x : R) :
  0 < x ->
  0 <= round32 x <= powerRZ 2 (Z.max (Zfloor (ln (Rabs x) / ln 2)) (-126) + 1) /\
  ((-126 <= Zfloor (ln (Rabs x) / ln 2))%Z ->
   powerRZ 2 (Zfloor (ln (Rabs x) / ln 2)) <= round32 x).
Proof.
  intros Hx. unfold round32, ulp32.
  destruct (Req_dec_T x 0) as [E | _]; [lra|].
  pose proof (binade x ltac:(lra)) as [Hlo Hhi].
  set (e := Zfloor (ln (Rabs x) / ln 2)) in *.
  rewrite (Rabs_pos_eq x) in Hlo, Hhi by lra.
  set (c := Z.max e (-126)).
  set (u := powerRZ 2 (c - 23)).
  assert (Hu : 0 < u) by apply pow2_pos.
  assert (Hup : powerRZ 2 (c + 1) = 16777216 * u).
  { unfold u. rewrite <- pow2_24, <- pow2_add. f_equal. lia. }
  assert (Hxu : x / u < 16777216).
  { apply Rmult_lt_reg_r with u; [assumption|].
    replace (x / u * u) with x by (field; lra).
    rewrite <- Hup. apply Rlt_le_trans with (powerRZ 2 (e + 1)); [assumption|].
    apply pow2_le. lia. }
  assert (Hn : (round_even (x / u) <= 16777216)%Z).
  { rewrite <- (round_even_IZR 16777216). apply round_even_mono. lra. }
  assert (Hn0 : (0 <= round_even (x / u))%Z).
  { rewrite <- (round_even_IZR 0). apply round_even_mono.
    left. apply Rdiv_lt_0_compat; lra. }
  apply IZR_le in Hn, Hn0.
  split.
  - split; [apply Rmult_le_pos; lra|].
    rewrite Hup. apply Rmult_le_compat_r; lra.
  - intros He. replace c with e in * by lia.
    assert (Hdown : powerRZ 2 e = 8388608 * u).
    { unfold u. rewrite <- pow2_23, <- pow2_add. f_equal. lia. }
    assert (Hxu' : 8388608 <= x / u).
    { apply Rmult_le_reg_r with u; [assumption|].
      replace (x / u * u) with x by (field; lra). rewrite <- Hdown. assumption. }
    assert (Hn' : (8388608 <= round_even (x / u))%Z).
    { rewrite <- (round_even_IZR 8388608) at 1. apply round_even_mono. assumption. }
    apply IZR_le in Hn'. rewrite Hdown. apply Rmult_le_compat_r; lra.
Qed.

Lemma round32_mono_pos (x y : R) : 0 < x -> x <= y -> round32 x <= round32 y.
Proof.
  intros Hx Hxy.
  assert (Hy : 0 < y) by lra.
  pose proof ln_2_pos as H2pos.
  assert (He : (Zfloor (ln (Rabs x) / ln 2) <= Zfloor (ln (Rabs y) / ln 2))%Z).
  { apply Zfloor_le. rewrite !Rabs_pos_eq by lra.
    apply Rmult_le_compat_r; [left; apply Rinv_0_lt_compat; assumption|].
    destruct Hxy as [Hlt | ->]; [left; apply ln_increasing; assumption | lra]. }
  destruct (round32_pos_bounds x Hx) as [[_ Hxup] _].
  destruct (round32_pos_bounds y Hy) as [_ Hylo].
  set (ex := Zfloor (ln (Rabs x) / ln 2)) in *.
  set (ey := Zfloor (ln (Rabs y) / ln 2)) in *.
  destruct (Z.eq_dec (Z.max ex (-126)) (Z.max ey (-126))) as [Ec | Nc].
  - unfold round32, ulp32. fold ex ey. rewrite Ec.
    destruct (Req_dec_T x 0); [lra|]. destruct (Req_dec_T y 0); [lra|].
    set (u := powerRZ 2 _).
    assert (Hu : 0 < u) by apply pow2_pos.
    apply Rmult_le_compat_r; [lra|].
    apply IZR_le, round_even_mono.
    apply Rmult_le_compat_r; [left; apply Rinv_0_lt_compat; assumption | assumption].
  - apply Rle_trans with (powerRZ 2 (Z.max ex (-126) + 1)); [assumption|].
    apply Rle_trans with (powerRZ 2 ey); [apply pow2_le; lia | apply Hylo; lia].
Qed.

Lemma round32_mono (x y : R) : x <= y -> round32 x <= round32 y.
Proof.
  intros Hxy.
  assert (Hpos : forall z, 0 < z -> 0 <= round32 z)
    by (intros z Hz; apply (round32_pos_bounds z Hz)).
  assert (Hneg : forall z, z < 0 -> round32 z <= 0).
  { intros z Hz. replace z with (- - z) by ring. rewrite round32_opp.
    pose proof (Hpos (- z) ltac:(lra)). lra. }
  destruct (Rlt_le_dec 0 x) as [Hx | Hx]; [apply round32_mono_pos; assumption|].
  destruct (Rlt_le_dec y 0) as [Hy | Hy].
  - replace x with (- - x) by ring. replace y with (- - y) by ring.
    rewrite (round32_opp (- x)), (round32_opp (- y)).
    apply Ropp_le_contravar. apply round32_mono_pos; lra.
  - assert (Hrx : round32 x <= 0)
      by (destruct Hx as [Hx | ->]; [apply Hneg; assumption | rewrite round32_0; lra]).
    assert (Hry : 0 <= round32 y)
      by (destruct Hy as [Hy | <-]; [apply Hpos; assumption | rewrite round32_0; lra]).
    lra.
Qed.

Lemma round32_1 : round32 1 = 1.
Proof.
  assert (E : Zfloor (ln (Rabs 1) / ln 2) = 0%Z).
  { apply binade_unique. rewrite Rabs_pos_eq by lra. simpl. lra. }
  unfold round32, ulp32. rewrite E.
  destruct (Req_dec_T 1 0); [lra|].
  change (Z.max 0 (-126) - 23)%Z with (-23)%Z.
  assert (Eu : powerRZ 2 (-23) = / 8388608) by (simpl; lra).
  rewrite Eu. replace (1 / / 8388608) with 8388608 by (field; lra).
  rewrite round_even_IZR. field.
Qed.

(** A real just below 1 rounds to 1. *)
Lemma round32_below_1 (y : R) : 1 - / 33554432 < y < 1 -> round32 y = 1.
Proof.
  intros [Hlo Hhi].
  assert (E : Zfloor (ln (Rabs y) / ln 2) = (-1)%Z).
  { apply binade_unique. rewrite Rabs_pos_eq by lra. simpl. lra. }
  unfold round32, ulp32. rewrite E.
  destruct (Req_dec_T y 0); [lra|].
  change (Z.max (-1) (-126) - 23)%Z with (-24)%Z.
  assert (Eu : powerRZ 2 (-24) = / 16777216) by (simpl; lra).
  rewrite Eu. replace (y / / 16777216) with (y * 16777216) by (field; lra).
  assert (Hn : round_even (y * 16777216) = 16777216%Z).
  { pose proof (round_even_near (y * 16777216)) as [Hn1 _].
    assert (Hn2 : (round_even (y * 16777216) <= 16777216)%Z).
    { rewrite <- (round_even_IZR 16777216) at 2. apply round_even_mono. lra. }
    assert (Hn3 : (16777215 < round_even (y * 16777216))%Z)
      by (apply lt_IZR; lra).
    lia. }
  rewrite Hn. field.
Qed.

End Rounding.

(** ** The index the sampling picks *)

Section SamplingArgmax.

Lemma ravel_app_last (s idx : list nat) (v c : nat) :
  in_bounds s idx -> ravel (s ++ [v]) (idx ++ [c]) = ravel s idx * v + c.
Proof.
  revert idx. induction s as [|n s IH]; intros [|i idx]; cbn [in_bounds]; try tauto.
  - intros _. cbn. lia.
  - intros [_ Hb]. cbn [app ravel]. rewrite IH by assumption.
    rewrite numel_app. cbn [numel fold_right]. lia.
Qed.

Lemma nth_concat_rows {A : Type} (ls : list (list A)) (v r c : nat) (d : A) :
  Forall (fun row => length row = v) ls -> c < v ->
  nth (r * v + c) (concat ls) d = nth c (nth r ls []) d.
Proof.
  intros Hall Hc. revert r. induction Hall as [|row ls Hrow _ IH]; intros r.
  - cbn [concat]. destruct r, (0 * v + c), c; try reflexivity;
      cbn [nth]; destruct (S _ * v + _); reflexivity.
  - cbn [concat]. destruct r as [|r].
    + cbn [Nat.mul Nat.add nth]. apply app_nth1. lia.
    + rewrite app_nth2 by (rewrite Hrow; lia).
      replace (S r * v + c - length row) with (r * v + c) by (rewrite Hrow; lia).
      cbn [nth]. apply IH.
Qed.

Lemma softmax_kernel_row_ext (rnd rnd' : R -> R) (l : list R) :
  (forall x, rnd x = rnd' x) ->
  softmax_kernel_row rnd l = softmax_kernel_row rnd' l.
Proof.
  intros H. unfold softmax_kernel_row.
  set (m := row_max l).
  assert (Ee : map (fun x => rnd (exp (Rmax (rnd (x - m)%R) (-64)%R))) l
               = map (fun x => rnd' (exp (Rmax (rnd' (x - m)%R) (-64)%R))) l)
    by (apply map_ext; intros x; rewrite !H; reflexivity).
  rewrite Ee. set (e := map _ l).
  assert (Es : forall a, fold_left (fun a v => rnd (a + v)%R) e a
                         = fold_left (fun a v => rnd' (a + v)%R) e a).
  { induction e as [|v e IH]; intros a; cbn [fold_left]; [reflexivity|].
    rewrite H. apply IH. }
  rewrite Es, H. apply map_ext. intros x. apply H.
Qed.

(** In a row, the index of the largest computed probability is at or before
    the index of the largest logit, and the two have the same computed
    probability. *)
Lemma argmax_kernel_row (rnd : R -> R) (row : list R) :
  (forall x y, (x <= y)%R -> (rnd x <= rnd y)%R) -> rnd 0%R = 0%R ->
  row <> [] ->
  (0 <= argmax_row (softmax_kernel_row rnd row) <= argmax_row row)%Z /\
  (argmax_row row < Z.of_nat (length row))%Z /\
  nth (Z.to_nat (argmax_row (softmax_kernel_row rnd row)))
      (softmax_kernel_row rnd row) 0%R
  = nth (Z.to_nat (argmax_row row)) (softmax_kernel_row rnd row) 0%R.
Proof.
  intros Hmono H0 Hne.
  destruct (softmax_kernel_row_mono rnd row Hmono H0) as (g & -> & Hg).
  assert (Hne' : map g row <> []) by (destruct row; [congruence | discriminate]).
  pose proof (argmax_row_first_max _ Hne) as Ha.
  pose proof (argmax_row_first_max _ Hne') as Hk.
  pose proof (argmax_row_range _ Hne) as Ra.
  pose proof (argmax_row_range _ Hne') as Rk.
  destruct (first_max_image g row _ _ Hg Hk Ha) as [Hle Heq].
  split; [lia|]. split; [lia | exact Heq].
Qed.

End SamplingArgmax.

(** C9 (as amended): with sampling disabled, sample_from_softmax returns the
    one-hot encoding of the argmax of the softmax it computes, and it does
    return on [batch, length, vocabulary] logits with a vocabulary.  When the
    rounding of the float type keeps the order of the reals, the index it
    picks in a row is at or before the argmax of the raw logits of that row
    and has the same computed probability; in exact arithmetic it is the
    argmax of the raw logits. *)
Theorem sample_from_softmax_is_argmax
  (rnd : R -> R) (logits : tensor R) (rng : nat -> R) :
  (forall x y, (x <= y)%R -> (rnd x <= rnd y)%R) -> rnd 0%R = 0%R ->
  wf logits ->
  Electra.sample_from_softmax rnd logits false rng
  = (softmax_sample <- argmax (softmax_rounded rnd logits) ;;
     one_hot softmax_sample (last_dim (shape logits))) /\
  (forall b l v, shape logits = [b; l; v] -> 0 < v ->
     exists sampled_tokens,
       Electra.sample_from_softmax rnd logits false rng = OK sampled_tokens /\
       shape sampled_tokens = [b; l; v]) /\
  forall raw_argmax, argmax logits = OK raw_argmax ->
    exists softmax_sample,
      argmax (softmax_rounded rnd logits) = OK softmax_sample /\
      shape softmax_sample = shape raw_argmax /\
      (forall idx, in_bounds (shape raw_argmax) idx ->
         (0 <= get softmax_sample idx <= get raw_argmax idx)%Z /\
         get (softmax_rounded rnd logits)
             (idx ++ [Z.to_nat (get softmax_sample idx)])
         = get (softmax_rounded rnd logits)
               (idx ++ [Z.to_nat (get raw_argmax idx)])) /\
      ((forall x, rnd x = x) -> softmax_sample = raw_argmax).
Proof.
  intros Hmono H0 Wl. split.
  { unfold Electra.sample_from_softmax.
    rewrite add_zero_r by (try assumption; try reflexivity; apply is_zero_zeros).
    reflexivity. }
  split.
  { intros b l v Sl Hv.
    destruct (sample_from_softmax_trace rnd logits false rng b l v Sl Hv)
      as (_ & _ & st & _ & _ & Est & Sst & _).
    exists st. split; assumption. }
  intros a Ha. unfold argmax in Ha.
  destruct (shape logits) as [|n0 s0] eqn:Es; [discriminate|].
  set (v := last_dim (n0 :: s0)) in *.
  destruct (v =? 0) eqn:Ev; [discriminate|].
  set (s := removelast (n0 :: s0)) in *.
  set (Rs := rows v (data logits)) in *.
  assert (Ea : a = Tensor s (map argmax_row Rs)) by (injection Ha as <-; reflexivity).
  clear Ha. subst a.
  assert (Erows : rows v (concat (map (softmax_kernel_row rnd) Rs))
                  = map (softmax_kernel_row rnd) Rs)
    by (apply rows_concat_map; intros r; apply length_softmax_kernel_row).
  exists (Tensor s (map argmax_row (map (softmax_kernel_row rnd) Rs))).
  split.
  { unfold argmax, softmax_rounded. cbn [shape data]. rewrite Es. fold v.
    rewrite Ev. fold s Rs. rewrite Erows. reflexivity. }
  apply Nat.eqb_neq in Ev.
  split; [reflexivity|]. cbn [shape].
  assert (Hs : n0 :: s0 = s ++ [v])
    by (apply app_removelast_last; discriminate).
  assert (HRs : Forall (fun row => length row = v) Rs) by apply rows_length.
  assert (LRs : length Rs = numel s).
  { unfold Rs. rewrite length_rows, Wl, Es, Hs, numel_app.
    cbn [numel fold_right]. rewrite Nat.mul_1_r. apply Nat.div_mul. assumption. }
  assert (EP : softmax_rounded rnd logits
               = Tensor (n0 :: s0) (concat (map (softmax_kernel_row rnd) Rs))).
  { unfold softmax_rounded. rewrite Es. reflexivity. }
  rewrite EP.
  split.
  - intros idx Hidx.
    pose proof (ravel_lt _ _ Hidx) as Hr.
    set (r := ravel s idx) in *.
    set (row := nth r Rs []).
    assert (Lrow : length row = v).
    { rewrite Forall_forall in HRs. apply HRs. apply nth_In. lia. }
    assert (Hne : row <> []) by (intros E; rewrite E in Lrow; apply Ev; symmetry; exact Lrow).
    assert (Gk : get (Tensor s (map argmax_row (map (softmax_kernel_row rnd) Rs))) idx
                 = argmax_row (softmax_kernel_row rnd row)).
    { unfold get; cbn [shape data]. fold r. rewrite map_map.
      rewrite (nth_indep _ dflt (argmax_row (softmax_kernel_row rnd [])))
        by (rewrite length_map; lia).
      apply (map_nth (fun x => argmax_row (softmax_kernel_row rnd x))). }
    assert (Ga : get (Tensor s (map argmax_row Rs)) idx = argmax_row row).
    { unfold get; cbn [shape data]. fold r.
      rewrite (nth_indep _ dflt (argmax_row [])) by (rewrite length_map; lia).
      apply map_nth. }
    rewrite Gk, Ga.
    destruct (argmax_kernel_row rnd row Hmono H0 Hne) as (Hle & Hlt & Heq).
    split; [exact Hle|].
    assert (Gp : forall c, c < v ->
              get (Tensor (n0 :: s0) (concat (map (softmax_kernel_row rnd) Rs)))
                  (idx ++ [c])
              = nth c (softmax_kernel_row rnd row) 0%R).
    { intros c Hc. unfold get; cbn [shape data]. rewrite Hs.
      rewrite ravel_app_last by assumption. fold r.
      rewrite nth_concat_rows; [|  | assumption].
      - rewrite (nth_indep _ [] (softmax_kernel_row rnd []))
          by (rewrite length_map; lia).
        rewrite map_nth. reflexivity.
      - apply Forall_map. eapply Forall_impl; [|exact HRs].
        intros x Hx. cbn beta. rewrite length_softmax_kernel_row. exact Hx. }
    rewrite !Gp by lia. exact Heq.
  - intros Hid. f_equal. rewrite map_map. apply map_ext. intros row.
    rewrite (softmax_kernel_row_ext rnd exact) by exact Hid.
    apply argmax_row_softmax.
Qed.

Lemma sample_from_softmax_is_argmax_witness :
  let logits := Tensor [1; 1; 2] [0%R; (/ 1073741824)%R] in
  Electra.sample_from_softmax round32 logits false (fun _ => 0%R)
  = (softmax_sample <- argmax (softmax_rounded round32 logits) ;;
     one_hot softmax_sample (last_dim (shape logits))) /\
  (forall b l v, shape logits = [b; l; v] -> 0 < v ->
     exists sampled_tokens,
       Electra.sample_from_softmax round32 logits false (fun _ => 0%R)
       = OK sampled_tokens /\
       shape sampled_tokens = [b; l; v]) /\
  forall raw_argmax, argmax logits = OK raw_argmax ->
    exists softmax_sample,
      argmax (softmax_rounded round32 logits) = OK softmax_sample /\
      shape softmax_sample = shape raw_argmax /\
      (forall idx, in_bounds (shape raw_argmax) idx ->
         (0 <= get softmax_sample idx <= get raw_argmax idx)%Z /\
         get (softmax_rounded round32 logits)
             (idx ++ [Z.to_nat (get softmax_sample idx)])
         = get (softmax_rounded round32 logits)
               (idx ++ [Z.to_nat (get raw_argmax idx)])) /\
      ((forall x, round32 x = x) -> softmax_sample = raw_argmax).
Proof.
  intros logits.
  apply (sample_from_softmax_is_argmax round32 logits (fun _ => 0%R)).
  - exact round32_mono.
  - exact round32_0.
  - reflexivity.
Defined.

Section NearTie.

Local Open Scope R_scope.

(** In [float32] the softmax of the row [0, 2^-30] is a tie: both shifted
    logits have the exponential 1. *)
Lemma softmax_kernel_row_tie :
  exists p, softmax_kernel_row round32 [0; / 1073741824] = [p; p].
Proof.
  set (t := / 1073741824).
  assert (Ht : 0 < t) by (unfold t; lra).
  unfold softmax_kernel_row. cbn [row_max fold_left map].
  assert (Em : Rmax 0 t = t) by (apply Rmax_right; lra).
  rewrite Em.
  assert (E1 : round32 (exp (Rmax (round32 (t - t)) (-64))) = 1).
  { replace (t - t) with 0 by ring. rewrite round32_0.
    rewrite Rmax_left by lra. rewrite exp_0. apply round32_1. }
  assert (E0 : round32 (exp (Rmax (round32 (0 - t)) (-64))) = 1).
  { replace (0 - t) with (- t) by ring. rewrite round32_opp.
    assert (Ee : Zfloor (ln (Rabs t) / ln 2) = (-30)%Z).
    { apply binade_unique. rewrite Rabs_pos_eq by lra. unfold t. simpl. lra. }
    destruct (round32_pos_bounds t Ht) as [[_ Hup] Hlo].
    rewrite Ee in Hup, Hlo. specialize (Hlo ltac:(lia)).
    change (Z.max (-30) (-126) + 1)%Z with (-29)%Z in Hup.
    assert (P29 : powerRZ 2 (-29) = / 536870912) by (simpl; lra).
    assert (P30 : powerRZ 2 (-30) = / 1073741824) by (simpl; lra).
    rewrite P29 in Hup. rewrite P30 in Hlo.
    set (r := round32 t) in *.
    rewrite Rmax_left by lra.
    apply round32_below_1. split.
    - pose proof (exp_ineq1_le (- r)). lra.
    - rewrite <- exp_0. apply exp_increasing. lra. }
  rewrite E0, E1. eexists. reflexivity.
Qed.

End NearTie.

(** C9 (as stated) fails in [float32]: on the logits [0, 2^-30] the softmax
    rounds both probabilities to the same value and the argmax takes the
    first, index 0, while the argmax of the raw logits is index 1. *)
Lemma sample_from_softmax_not_argmax :
  let logits := Tensor [1; 2] [0%R; (/ 1073741824)%R] in
  Electra.sample_from_softmax round32 logits false (fun _ => 0%R)
  <> (softmax_sample <- argmax logits ;;
      one_hot softmax_sample (last_dim (shape logits))).
Proof.
  intros logits.
  assert (Rl : rows 2 (data logits) = [[0%R; (/ 1073741824)%R]]) by reflexivity.
  assert (Sl : shape logits = [1; 2]) by reflexivity.
  assert (El : Electra.sample_from_softmax round32 logits false (fun _ => 0%R)
               = one_hot (Tensor [1] [0%Z]) 2).
  { unfold Electra.sample_from_softmax.
    rewrite add_zero_r by (try reflexivity; apply is_zero_zeros).
    cbn [bind]. unfold argmax, softmax_rounded. cbn [shape data]. rewrite Sl.
    change (last_dim [1; 2]) with 2. cbn [Nat.eqb removelast].
    rewrite rows_concat_map by (intros r; apply length_softmax_kernel_row).
    rewrite Rl. cbn [map bind].
    destruct softmax_kernel_row_tie as (p & ->).
    unfold argmax_row, argmax_from.
    destruct (Rlt_dec p p) as [H | _]; [lra | reflexivity]. }
  assert (Er : (softmax_sample <- argmax logits ;;
                one_hot softmax_sample (last_dim (shape logits)))
               = one_hot (Tensor [1] [1%Z]) 2).
  { unfold argmax. rewrite Sl.
    change (last_dim [1; 2]) with 2. cbn [Nat.eqb removelast].
    rewrite Rl. cbn [map bind]. unfold argmax_row, argmax_from.
    destruct (Rlt_dec 0 (/ 1073741824)) as [_ | H]; [reflexivity | lra]. }
  assert (Oh : forall x : tensor Z,
            x = Tensor [1] [0%Z] \/ x = Tensor [1] [1%Z] ->
            one_hot x 2
            = OK (build [1; 2] (fun idx =>
                    if (get x (removelast idx) =? Z.of_nat (last idx 0%nat))%Z
                    then 1%R else 0%R)))
    by (intros x [-> | ->]; reflexivity).
  rewrite El, Er, !Oh by auto.
  intros E.
  apply (f_equal (fun r => match r with
                           | OK x => get x [0; 0]
                           | Raise _ => 0%R
                           end)) in E.
  rewrite !get_build in E by (simpl; lia).
  cbn in E. lra.
Qed.

Section Where.

Context {A : Type} `{Default A}.

Lemma nth_where_data (c : list bool) (x y : list A) (k : nat) (d : A) :
  k < length c -> k < length x -> k < length y ->
  nth k (where_data c x y) d = if nth k c false then nth k x d else nth k y d.
Proof.
  revert x y k. induction c as [|b c IH]; intros [|a x] [|a' y] [|k];
    cbn [length where_data nth]; intros Hc Hx Hy; try lia; try reflexivity.
  apply IH; lia.
Qed.

Lemma where_ok (c : tensor bool) (x y : tensor A) :
  shape c = shape x -> shape c = shape y ->
  where_ c x y = OK (Tensor (shape c) (where_data (data c) (data x) (data y))).
Proof.
  intros Ex Ey. unfold where_.
  destruct (list_eq_dec Nat.eq_dec (shape c) (shape x)); [|contradiction].
  destruct (list_eq_dec Nat.eq_dec (shape c) (shape y)); [|contradiction].
  reflexivity.
Qed.

Lemma get_where (c : tensor bool) (x y : tensor A) (idx : list nat) :
  shape c = shape x -> shape c = shape y -> wf c -> wf x -> wf y ->
  in_bounds (shape c) idx ->
  get (Tensor (shape c) (where_data (data c) (data x) (data y))) idx
  = if get c idx then get x idx else get y idx.
Proof.
  intros Ex Ey Wc Wx Wy Hb. unfold get; cbn [shape data].
  pose proof (ravel_lt _ _ Hb) as Hlt. rewrite <- Ex, <- Ey.
  apply nth_where_data.
  - rewrite Wc. assumption.
  - rewrite Wx, <- Ex. assumption.
  - rewrite Wy, <- Ey. assumption.
Qed.

Lemma get_Forall (P : A -> Prop) (x : tensor A) (idx : list nat) :
  wf x -> Forall P (data x) -> in_bounds (shape x) idx -> P (get x idx).
Proof.
  intros Wx HP Hb. unfold get. apply Forall_nth; [assumption|].
  rewrite Wx. apply ravel_lt. assumption.
Qed.

End Where.

Section Discriminator.

Import Electra.

Lemma mask_positions_ok (gen_labels : tensor Z) (b l : nat) :
  shape gen_labels = [b; l] -> wf gen_labels ->
  exists mp,
    where_ (map1 (fun z => (z =? -100)%Z) gen_labels)
           (zeros_like gen_labels) (ones_like gen_labels) = OK mp /\
    shape mp = [b; l] /\ wf mp /\
    forall ib il, ib < b -> il < l ->
      get mp [ib; il] = if (get gen_labels [ib; il] =? -100)%Z then 0%Z else 1%Z.
Proof.
  intros Sl Wl.
  rewrite where_ok by reflexivity.
  eexists. split; [reflexivity|]. split; [exact Sl|].
  split.
  - unfold wf; cbn [shape data map1 zeros_like ones_like full].
    assert (Hgen : forall (c : list bool) (n : nat), length c = n ->
              length (where_data c (repeat 0%Z n) (repeat 1%Z n)) = n).
    { induction c as [|x c IH]; intros [|n] Hn; cbn in *; try lia.
      f_equal. apply IH. lia. }
    apply Hgen. rewrite length_map. exact Wl.
  - intros ib il Hb Hl.
    rewrite get_where; try reflexivity; try apply wf_full; try (apply wf_map1; assumption).
    2:{ cbn [map1 shape]. rewrite Sl. simpl; lia. }
    rewrite get_map1 by (try assumption; rewrite Sl; simpl; lia).
    unfold zeros_like, ones_like.
    rewrite !get_full by (rewrite Sl; simpl; lia). reflexivity.
Qed.

Lemma update_inputs_ok (sequence updates positions : tensor Z) (b l : nat) :
  shape sequence = [b; l] -> shape updates = [b; l] -> shape positions = [b; l] ->
  exists updated,
    update_inputs sequence updates positions = OK updated /\
    shape updated = [b; l] /\ wf updated /\
    forall ib il, ib < b -> il < l ->
      get updated [ib; il]
      = add64 (mul64 (sub64 1 (get positions [ib; il])) (get sequence [ib; il]))
              (mul64 (get positions [ib; il]) (get updates [ib; il])).
Proof.
  intros Ss Su Sp. unfold update_inputs. rewrite Ss, Sp, Nat.eqb_refl.
  unfold subtract_int, multiply_int, add_int, ones_like.
  assert (Sfull : forall (s : list nat) (v : Z), shape (full s v) = s) by reflexivity.
  rewrite map2_same_shape by (rewrite Sfull; congruence).
  cbn [bind]. rewrite Sfull, Ss.
  rewrite map2_same_shape by (rewrite shape_build; congruence).
  cbn [bind]. rewrite shape_build.
  rewrite map2_same_shape by congruence.
  cbn [bind]. rewrite Sp.
  rewrite map2_same_shape by reflexivity.
  eexists. split; [reflexivity|]. rewrite shape_build.
  split; [reflexivity|]. split; [apply wf_build|].
  intros ib il Hb Hl.
  repeat rewrite get_build by (simpl; lia).
  rewrite get_full by (simpl; lia). reflexivity.
Qed.

End Discriminator.

Section Blend.

Lemma blend_keep (x u : Z) :
  int64_range x -> add64 (mul64 (sub64 1 0) x) (mul64 0 u) = x.
Proof.
  intros Hx. unfold add64, mul64, sub64.
  change (wrap64 (1 - 0)) with 1%Z. rewrite Z.mul_1_l, Z.mul_0_l.
  change (wrap64 0) with 0%Z. rewrite (wrap64_small x Hx), Z.add_0_r.
  apply wrap64_small. assumption.
Qed.

Lemma blend_replace (x u : Z) :
  int64_range u -> add64 (mul64 (sub64 1 1) x) (mul64 1 u) = u.
Proof.
  intros Hu. unfold add64, mul64, sub64.
  change (wrap64 (1 - 1)) with 0%Z. rewrite Z.mul_1_l, Z.mul_0_l.
  change (wrap64 0) with 0%Z. rewrite (wrap64_small u Hu), Z.add_0_l.
  apply wrap64_small. assumption.
Qed.

End Blend.

Section DiscriminatorValues.

Lemma Forall_data {A : Type} `{Default A} (P : A -> Prop) (x : tensor A) :
  wf x -> (forall idx, in_bounds (shape x) idx -> P (get x idx)) ->
  Forall P (data x).
Proof.
  intros Wx HP. rewrite <- (build_get x Wx). unfold build; cbn [data].
  apply Forall_map, Forall_forall. intros k Hk. apply in_seq in Hk.
  apply HP, unravel_in_bounds. lia.
Qed.

Lemma in_bounds_2 (b l : nat) (idx : list nat) :
  in_bounds [b; l] idx -> exists ib il, idx = [ib; il] /\ ib < b /\ il < l.
Proof.
  destruct idx as [|ib [|il [|? ?]]]; cbn [in_bounds]; try tauto.
  intros (Hb & Hl & _). eauto.
Qed.

Lemma get_discriminator_inputs_values (rnd : R -> R)
  (inputs raw_inputs : tensor Z) (gen_logits : tensor R) (gen_labels : tensor Z)
  (use_softmax_sample : bool) (rng : nat -> R) (b l v : nat) :
  shape inputs = [b; l] -> wf inputs -> Forall int64_range (data inputs) ->
  shape raw_inputs = [b; l] ->
  shape gen_logits = [b; l; v] -> 0 < v -> (Z.of_nat v <= 2 ^ 63)%Z ->
  shape gen_labels = [b; l] -> wf gen_labels ->
  let gumbel_noise :=
    if use_softmax_sample then
      map1 (fun u => (- ln (- ln (u + 1e-9) + 1e-9))%R)
           (rand (shape gen_logits) rng)
    else zeros (shape gen_logits) in
  exists noisy updated_inputs labels sampled_tokids,
    add gen_logits gumbel_noise = OK noisy /\
    argmax (softmax_rounded rnd noisy) = OK sampled_tokids /\
    Electra.get_discriminator_inputs rnd inputs raw_inputs gen_logits gen_labels
      use_softmax_sample rng = OK (updated_inputs, labels, sampled_tokids) /\
    (shape updated_inputs = [b; l] /\ wf updated_inputs) /\
    (shape labels = [b; l] /\ wf labels) /\
    (shape sampled_tokids = [b; l] /\ wf sampled_tokids) /\
    Forall (fun z => (0 <= z < Z.of_nat v)%Z) (data sampled_tokids) /\
    forall ib il, ib < b -> il < l ->
      get updated_inputs [ib; il]
      = (if (get gen_labels [ib; il] =? -100)%Z then get inputs [ib; il]
         else get sampled_tokids [ib; il]) /\
      get labels [ib; il]
      = (if (get gen_labels [ib; il] =? -100)%Z then 0%Z
         else if (get updated_inputs [ib; il] =? get raw_inputs [ib; il])%Z then 0%Z
              else 1%Z).
Proof.
  intros Si Wi Ri Sr Sg Hv Hv63 Sl Wl noise.
  destruct (sample_from_softmax_trace rnd gen_logits use_softmax_sample rng b l v
              Sg Hv)
    as (noisy & ids & st & Enoisy & Eam & Est & _ & Eids & (Sids & Wids) & Rids).
  fold noise in Enoisy.
  destruct (mask_positions_ok gen_labels b l Sl Wl) as (mp & Emp & Smp & Wmp & Gmp).
  destruct (update_inputs_ok inputs ids mp b l Si Sids Smp)
    as (upd & Eupd & Supd & Wupd & Gupd).
  unfold Electra.get_discriminator_inputs.
  rewrite Est; cbn [bind]. rewrite Eids; cbn [bind]. rewrite Emp; cbn [bind].
  rewrite Eupd; cbn [bind].
  unfold equal, subtract_int, multiply_int.
  rewrite map2_same_shape by congruence. cbn [bind].
  rewrite map2_same_shape by (cbn [ones_like full astype_int map1 shape build]; congruence).
  cbn [bind].
  rewrite map2_same_shape by (rewrite shape_build; cbn [ones_like full shape]; congruence).
  exists noisy, upd. eexists. exists ids.
  split; [exact Enoisy|]. split; [exact Eam|]. split; [reflexivity|].
  split; [split; assumption|].
  split; [split; [rewrite shape_build; assumption | apply wf_build]|].
  split; [split; assumption|]. split; [assumption|].
  intros ib il Hb Hl.
  assert (Hin : int64_range (get inputs [ib; il]))
    by (apply get_Forall; [assumption | assumption | rewrite Si; simpl; lia]).
  assert (Hid : int64_range (get ids [ib; il])).
  { assert (Hr : (0 <= get ids [ib; il] < Z.of_nat v)%Z)
      by (apply (get_Forall (fun z => (0 <= z < Z.of_nat v)%Z));
          [assumption | assumption | rewrite Sids; simpl; lia]).
    unfold int64_range. lia. }
  split.
  - rewrite Gupd, Gmp by assumption.
    destruct (get gen_labels [ib; il] =? -100)%Z;
      [apply blend_keep | apply blend_replace]; assumption.
  - rewrite get_build by (rewrite Smp; simpl; lia).
    rewrite get_build by (cbn [ones_like full shape]; rewrite Si; simpl; lia).
    unfold astype_int.
    rewrite get_map1 by (try apply wf_build; rewrite shape_build, Supd; simpl; lia).
    rewrite get_build by (rewrite Supd; simpl; lia).
    unfold ones_like. rewrite get_full by (rewrite Si; simpl; lia).
    rewrite Gmp by assumption.
    destruct (get gen_labels [ib; il] =? -100)%Z;
      destruct (get upd [ib; il] =? get raw_inputs [ib; il])%Z; reflexivity.
Qed.

End DiscriminatorValues.

(** C8: on a [batch, length] input that is not empty,
    get_discriminator_inputs keeps the input token where gen_labels is
    the sentinel -100 and puts the sampled token where it is not, the
    sampled tokens being the argmax of softmax(gen_logits + noise) that
    sample_from_softmax draws; the label it returns is 1 exactly at the
    masked positions whose new token differs from the raw input token, and
    0 everywhere else. *)
Theorem get_discriminator_inputs_spec (rnd : R -> R)
  (inputs raw_inputs : tensor Z) (gen_logits : tensor R) (gen_labels : tensor Z)
  (use_softmax_sample : bool) (rng : nat -> R) (b l v : nat) :
  0 < b -> 0 < l ->
  shape inputs = [b; l] -> wf inputs -> Forall int64_range (data inputs) ->
  shape raw_inputs = [b; l] ->
  shape gen_logits = [b; l; v] -> 0 < v -> (Z.of_nat v <= 2 ^ 63)%Z ->
  shape gen_labels = [b; l] -> wf gen_labels ->
  let gumbel_noise :=
    if use_softmax_sample then
      map1 (fun u => (- ln (- ln (u + 1e-9) + 1e-9))%R)
           (rand (shape gen_logits) rng)
    else zeros (shape gen_logits) in
  exists noisy updated_inputs labels sampled_tokids,
    add gen_logits gumbel_noise = OK noisy /\
    argmax (softmax_rounded rnd noisy) = OK sampled_tokids /\
    Electra.get_discriminator_inputs rnd inputs raw_inputs gen_logits gen_labels
      use_softmax_sample rng = OK (updated_inputs, labels, sampled_tokids) /\
    shape updated_inputs = [b; l] /\ shape labels = [b; l] /\
    shape sampled_tokids = [b; l] /\
    forall ib il, ib < b -> il < l ->
      (get gen_labels [ib; il] = (-100)%Z ->
       get updated_inputs [ib; il] = get inputs [ib; il]) /\
      (get gen_labels [ib; il] <> (-100)%Z ->
       get updated_inputs [ib; il] = get sampled_tokids [ib; il]) /\
      (get gen_labels [ib; il] <> (-100)%Z /\
       get updated_inputs [ib; il] <> get raw_inputs [ib; il] ->
       get labels [ib; il] = 1%Z) /\
      (~ (get gen_labels [ib; il] <> (-100)%Z /\
          get updated_inputs [ib; il] <> get raw_inputs [ib; il]) ->
       get labels [ib; il] = 0%Z).
Proof.
  intros _ _ Si Wi Ri Sr Sg Hv Hv63 Sl Wl noise.
  destruct (get_discriminator_inputs_values rnd inputs raw_inputs gen_logits
              gen_labels use_softmax_sample rng b l v Si Wi Ri Sr Sg Hv Hv63 Sl Wl)
    as (noisy & upd & labels & ids & Enoisy & Eam & E & (Su & _) & (Slab & _)
        & (Sids & _) & _ & G).
  exists noisy, upd, labels, ids.
  split; [exact Enoisy|]. split; [exact Eam|]. split; [exact E|].
  split; [assumption|]. split; [assumption|]. split; [assumption|].
  intros ib il Hb Hl. destruct (G ib il Hb Hl) as [Gupd Glab].
  rewrite Glab, Gupd.
  destruct (Z.eqb_spec (get gen_labels [ib; il]) (-100)) as [Hs | Hs].
  - repeat split; intros; try tauto; try congruence.
  - destruct (Z.eqb_spec (get ids [ib; il]) (get raw_inputs [ib; il])) as [He | He];
      repeat split; intros; try tauto; try congruence.
Qed.

Lemma get_discriminator_inputs_spec_witness :
  let inputs := Tensor [1; 3] [103%Z; 7%Z; 103%Z] in
  let raw_inputs := Tensor [1; 3] [1%Z; 7%Z; 2%Z] in
  let gen_logits :=
    Tensor [1; 3; 3] [0%R; 1%R; 0%R; 0%R; 0%R; 1%R; 2%R; 0%R; 1%R] in
  let gen_labels := Tensor [1; 3] [1%Z; (-100)%Z; 2%Z] in
  let gumbel_noise := zeros (shape gen_logits) in
  exists noisy updated_inputs labels sampled_tokids,
    add gen_logits gumbel_noise = OK noisy /\
    argmax (softmax_rounded round32 noisy) = OK sampled_tokids /\
    Electra.get_discriminator_inputs round32 inputs raw_inputs gen_logits
      gen_labels false (fun _ => 0%R) = OK (updated_inputs, labels, sampled_tokids) /\
    shape updated_inputs = [1; 3] /\ shape labels = [1; 3] /\
    shape sampled_tokids = [1; 3] /\
    forall ib il, ib < 1 -> il < 3 ->
      (get gen_labels [ib; il] = (-100)%Z ->
       get updated_inputs [ib; il] = get inputs [ib; il]) /\
      (get gen_labels [ib; il] <> (-100)%Z ->
       get updated_inputs [ib; il] = get sampled_tokids [ib; il]) /\
      (get gen_labels [ib; il] <> (-100)%Z /\
       get updated_inputs [ib; il] <> get raw_inputs [ib; il] ->
       get labels [ib; il] = 1%Z) /\
      (~ (get gen_labels [ib; il] <> (-100)%Z /\
          get updated_inputs [ib; il] <> get raw_inputs [ib; il]) ->
       get labels [ib; il] = 0%Z).
Proof.
  intros inputs raw_inputs gen_logits gen_labels.
  apply (get_discriminator_inputs_spec round32 inputs raw_inputs gen_logits
           gen_labels false (fun _ => 0%R) 1 3 3).
  - lia.
  - lia.
  - reflexivity.
  - reflexivity.
  - repeat constructor; unfold int64_range; lia.
  - reflexivity.
  - reflexivity.
  - lia.
  - lia.
  - reflexivity.
  - reflexivity.
Defined.

(** ** The pretraining loss *)

Section Criterion.

Lemma infer_shape_rows (k v : nat) :
  0 < v -> infer_shape (k * v) [(-1)%Z; Z.of_nat v] = OK [k; v].
Proof.
  intros Hv. unfold infer_shape.
  assert (E1 : (Z.of_nat v =? -1)%Z = false) by (apply Z.eqb_neq; lia).
  assert (E2 : (Z.of_nat v <? -1)%Z = false) by (apply Z.ltb_ge; lia).
  cbn [filter existsb map length]. change (-1 =? -1)%Z with true.
  change (-1 <? -1)%Z with false. rewrite E1, E2.
  cbn [negb orb filter existsb map length Nat.sub numel fold_right].
  rewrite Nat2Z.id, Nat.mul_1_r.
  replace (v =? 0) with false by (symmetry; apply Nat.eqb_neq; lia).
  rewrite Nat.div_mul by lia. reflexivity.
Qed.

Lemma reshape_infer_rows {A : Type} (x : tensor A) (k v : nat) :
  numel (shape x) = k * v -> 0 < v ->
  reshape_infer x [(-1)%Z; Z.of_nat v] = OK (Tensor [k; v] (data x)).
Proof.
  intros Hn Hv. unfold reshape_infer. rewrite Hn, infer_shape_rows by assumption.
  cbn [bind]. apply reshape_ok. rewrite Hn. simpl. lia.
Qed.

Lemma reshape_infer_flat {A : Type} (x : tensor A) :
  reshape_infer x [(-1)%Z] = OK (Tensor [numel (shape x)] (data x)).
Proof.
  unfold reshape_infer. rewrite infer_shape_flat. cbn [bind].
  apply reshape_ok. simpl. lia.
Qed.

Lemma rsum_app (l1 l2 : list R) : rsum (l1 ++ l2) = (rsum l1 + rsum l2)%R.
Proof.
  unfold rsum. induction l1 as [|a l1 IH]; cbn [app fold_right]; [lra|].
  rewrite IH. lra.
Qed.

Lemma rsum_ones (n : nat) : rsum (map IZR (repeat 1%Z n)) = INR n.
Proof.
  unfold rsum. induction n as [|n IH]; [reflexivity|].
  cbn [repeat map fold_right]. rewrite IH, S_INR. lra.
Qed.

(** The sum of the 0/1 tensor that marks the labels other than -100. *)
Lemma rsum_mask_positions (labels : list Z) (n : nat) :
  length labels = n ->
  rsum (where_data (map (fun z => (z =? -100)%Z) labels)
                   (map IZR (repeat 0%Z n)) (map IZR (repeat 1%Z n)))
  = INR (length (filter (fun y => negb (y =? -100)%Z) labels)).
Proof.
  unfold rsum. revert n. induction labels as [|y labels IH]; intros [|n] Hn;
    cbn [length] in Hn; try lia; [reflexivity|].
  cbn [map repeat where_data fold_right filter].
  rewrite (IH n) by lia.
  destruct (y =? -100)%Z; cbn [negb length]; [lra | rewrite S_INR; lra].
Qed.

Lemma filter_nil_forallb (labels : list Z) :
  length (filter (fun y => negb (y =? -100)%Z) labels) = 0 <->
  forallb (fun y => (y =? -100)%Z) labels = true.
Proof.
  induction labels as [|y labels IH]; cbn [filter forallb length]; [tauto|].
  destruct (y =? -100)%Z; cbn [negb andb length]; [exact IH|].
  split; [lia | discriminate].
Qed.

(** The sums of a masked tensor and of the mask. *)
Lemma rsum_where_zero (c : list bool) (x : list R) (n : nat) :
  length c = n -> length x = n ->
  rsum (where_data c x (map IZR (repeat 0%Z n)))
  = rsum (map snd (filter fst (combine c x))).
Proof.
  unfold rsum. revert x n. induction c as [|a c IH]; intros [|v x] [|n] Hc Hx;
    cbn [length] in *; try lia; [reflexivity|].
  cbn [repeat map where_data fold_right combine filter fst].
  rewrite (IH x n) by lia.
  destruct a; cbn [map snd fold_right]; lra.
Qed.

Lemma rsum_where_count (c : list bool) (n : nat) :
  length c = n ->
  rsum (where_data c (map IZR (repeat 1%Z n)) (map IZR (repeat 0%Z n)))
  = INR (length (filter (fun a : bool => a) c)).
Proof.
  unfold rsum. revert n. induction c as [|a c IH]; intros [|n] Hc;
    cbn [length] in *; try lia; [reflexivity|].
  cbn [repeat map where_data fold_right filter].
  rewrite (IH n) by lia.
  destruct a; cbn [length]; [rewrite S_INR; lra | lra].
Qed.

Lemma data_build_zip {A B C : Type} `{Default A} `{Default B}
  (f : A -> B -> C) (x : tensor A) (y : tensor B) :
  wf x -> wf y -> shape x = shape y ->
  data (build (shape x) (fun idx => f (get x idx) (get y idx)))
  = map (fun p => f (fst p) (snd p)) (combine (data x) (data y)).
Proof.
  intros Wx Wy E. unfold build; cbn [data].
  assert (Ly : length (data y) = length (data x)) by (rewrite Wx, Wy, E; reflexivity).
  rewrite <- Wx.
  apply (nth_ext _ _ (f dflt dflt) (f dflt dflt)).
  - rewrite !length_map, length_seq, length_combine, Ly. lia.
  - intros k Hk. rewrite length_map, length_seq in Hk.
    rewrite nth_map_seq by assumption.
    change (f dflt dflt) with ((fun p => f (fst p) (snd p)) (dflt, dflt)).
    rewrite map_nth, combine_nth by (symmetry; assumption).
    cbn [fst snd]. unfold get.
    rewrite ravel_unravel by (rewrite <- Wx; assumption).
    rewrite <- E, ravel_unravel by (rewrite <- Wx; assumption).
    reflexivity.
Qed.

Lemma combine_map_r {A B C : Type} (g : B -> C) (l1 : list A) (l2 : list B) :
  combine l1 (map g l2) = map (fun p => (fst p, g (snd p))) (combine l1 l2).
Proof.
  revert l2. induction l1 as [|a l1 IH]; intros [|b l2]; cbn; try reflexivity.
  f_equal. apply IH.
Qed.

End Criterion.

(** C7: ElectraPretrainingCriterion.forward returns
    gen_weight * gen_loss + disc_weight * disc_loss, where gen_loss is the
    finite value 0 when every generator label is the sentinel -100 (no
    quotient is taken, so it is neither NaN nor a division by zero) and
    otherwise the summed token cross-entropy over the number of
    non-sentinel labels, which is not zero; and where disc_loss is the
    summed binary cross-entropy over the number of elements of
    discriminator_labels when attention_mask is None, and otherwise the sum
    over the positions where the mask is true over the number of such
    positions, a quotient that is NaN when the mask keeps no position. *)
Theorem ElectraPretrainingCriterion_forward_spec
  (self : Electra.ElectraPretrainingCriterion)
  (generator_prediction_scores discriminator_prediction_scores : tensor R)
  (generator_labels discriminator_labels : tensor Z)
  (attention_mask : option (tensor bool)) (b l : nat) :
  0 < Electra.vocab_size self -> 0 < b -> 0 < l ->
  shape generator_prediction_scores = [b; l; Electra.vocab_size self] ->
  shape generator_labels = [b; l] -> wf generator_labels ->
  Forall (fun y => y = (-100)%Z \/ (0 <= y < Z.of_nat (Electra.vocab_size self))%Z)
         (data generator_labels) ->
  shape discriminator_prediction_scores = [b; l] ->
  wf discriminator_prediction_scores ->
  shape discriminator_labels = [b; l] -> wf discriminator_labels ->
  (forall m, attention_mask = Some m -> shape m = [b; l] /\ wf m) ->
  let labels := data generator_labels in
  let token_loss :=
    Electra.cross_entropy_rows
      (rows (Electra.vocab_size self) (data generator_prediction_scores)) labels in
  let gen_loss :=
    if forallb (fun y => (y =? -100)%Z) labels then Finite 0
    else Finite (rsum token_loss
                 / INR (length (filter (fun y => negb (y =? -100)%Z) labels))) in
  let bce :=
    map (fun p => Electra.bce_with_logits (fst p) (IZR (snd p)))
        (combine (data discriminator_prediction_scores)
                 (data discriminator_labels)) in
  let disc_loss :=
    match attention_mask with
    | None => fdiv (rsum bce) (INR (numel (shape discriminator_labels)))
    | Some m =>
        fdiv (rsum (map snd (filter fst (combine (data m) bce))))
             (INR (length (filter (fun a : bool => a) (data m))))
    end in
  Electra.forward self generator_prediction_scores discriminator_prediction_scores
    generator_labels discriminator_labels attention_mask
  = OK (fadd (fscale (Electra.gen_weight self) gen_loss)
             (fscale (Electra.disc_weight self) disc_loss)).
Proof.
  intros Hv _ Hl Sg Sgl Wgl Vgl Sd Wd Sdl Wdl Hm labels token_loss gen_loss bce disc_loss.
  set (V := Electra.vocab_size self) in *.
  unfold Electra.forward. fold V.
  rewrite (reshape_infer_rows generator_prediction_scores (b * l) V)
    by (try assumption; rewrite Sg; simpl; lia).
  cbn [bind]. rewrite reshape_infer_flat. cbn [bind].
  (* the generator loss *)
  unfold Electra.gen_loss_fct. cbn [shape data]. rewrite Sgl.
  replace (b * l =? numel [b; l]) with true
    by (symmetry; apply Nat.eqb_eq; simpl; lia).
  replace (forallb _ (data generator_labels)) with true.
  2:{ symmetry. apply forallb_forall. intros y Hy.
      rewrite Forall_forall in Vgl. destruct (Vgl y Hy) as [-> | Hr]; [reflexivity|].
      apply orb_true_iff; right.
      apply andb_true_iff; split; [apply Z.leb_le | apply Z.ltb_lt]; lia. }
  cbn [bind].
  rewrite where_ok by (cbn [map1 astype_float zeros_like ones_like full shape]; reflexivity).
  cbn [bind]. unfold sum. cbn [data map1 astype_float zeros_like ones_like full shape].
  rewrite (rsum_mask_positions (data generator_labels) (numel (shape generator_labels)))
    by exact Wgl.
  fold labels token_loss.
  assert (Egen :
    (if Req_dec_T (INR (length (filter (fun y => negb (y =? -100)%Z) labels))) 0
     then Finite 0
     else fdiv (rsum token_loss)
               (INR (length (filter (fun y => negb (y =? -100)%Z) labels))))
    = gen_loss).
  { unfold gen_loss.
    destruct (Req_dec_T _ 0) as [E0 | N0].
    - change 0%R with (INR 0) in E0. apply INR_eq in E0.
      apply (proj1 (filter_nil_forallb labels)) in E0. rewrite E0. reflexivity.
    - destruct (forallb (fun y => (y =? -100)%Z) labels) eqn:Eall.
      + apply (proj2 (filter_nil_forallb labels)) in Eall. rewrite Eall in N0.
        exfalso. apply N0. reflexivity.
      + unfold fdiv. destruct (Req_dec_T _ 0); [contradiction | reflexivity]. }
  rewrite Egen.
  (* the discriminator loss *)
  rewrite Sdl.
  rewrite (reshape_infer_rows discriminator_prediction_scores b l)
    by (try assumption; rewrite Sd; simpl; lia).
  cbn [bind].
  set (ds := Tensor [b; l] (data discriminator_prediction_scores)).
  set (dl := astype_float discriminator_labels).
  assert (Sdsdl : shape ds = shape dl).
  { unfold ds, dl, astype_float; cbn [shape map1]. congruence. }
  assert (Wds : wf ds).
  { unfold wf, ds; cbn [shape data]. rewrite Wd, Sd. reflexivity. }
  assert (Wdl' : wf dl) by (apply wf_map1; assumption).
  unfold Electra.disc_loss_fct.
  destruct (list_eq_dec Nat.eq_dec (shape ds) (shape dl)) as [_ | N]; [|contradiction].
  rewrite map2_same_shape by assumption. cbn [bind].
  set (dloss := build (shape ds) _).
  assert (Ddloss : data dloss = bce).
  { unfold dloss. rewrite data_build_zip by assumption.
    unfold ds, dl, astype_float; cbn [data map1]. rewrite combine_map_r, map_map.
    reflexivity. }
  assert (Lbce : length bce = numel (shape discriminator_labels)).
  { rewrite <- Ddloss, Sdl. unfold dloss. apply (wf_build (shape ds)). }
  assert (Hn : numel (shape discriminator_labels) = numel [b; l]) by (rewrite Sdl; reflexivity).
  destruct attention_mask as [m|].
  - destruct (Hm m eq_refl) as [Sm Wm].
    rewrite where_ok
      by (cbn [map1 astype_float zeros_like full shape dloss build ds]; congruence).
    cbn [bind].
    rewrite where_ok
      by (cbn [map1 astype_float zeros_like ones_like full shape]; congruence).
    cbn [bind]. cbn [data map1 astype_float zeros_like ones_like full shape].
    rewrite Ddloss.
    rewrite rsum_where_zero by (rewrite ?Wm, ?Lbce, ?Sm, ?Sdl; reflexivity).
    rewrite rsum_where_count by (rewrite ?Wm, ?Sm, ?Sdl; reflexivity).
    reflexivity.
  - cbn [bind]. cbn [data map1 astype_float ones_like full shape].
    rewrite Ddloss, rsum_ones. unfold disc_loss. rewrite Sdl. reflexivity.
Qed.

Lemma ElectraPretrainingCriterion_forward_spec_witness :
  let self := {| Electra.vocab_size := 2; Electra.gen_weight := 1%R;
                 Electra.disc_weight := 50%R |} in
  let generator_prediction_scores := Tensor [1; 2; 2] [0%R; 1%R; 1%R; 0%R] in
  let discriminator_prediction_scores := Tensor [1; 2] [1%R; (-1)%R] in
  let generator_labels := Tensor [1; 2] [1%Z; (-100)%Z] in
  let discriminator_labels := Tensor [1; 2] [1%Z; 0%Z] in
  let attention_mask := Tensor [1; 2] [true; false] in
  let labels := data generator_labels in
  let token_loss :=
    Electra.cross_entropy_rows
      (rows (Electra.vocab_size self) (data generator_prediction_scores)) labels in
  let gen_loss :=
    if forallb (fun y => (y =? -100)%Z) labels then Finite 0
    else Finite (rsum token_loss
                 / INR (length (filter (fun y => negb (y =? -100)%Z) labels))) in
  let bce :=
    map (fun p => Electra.bce_with_logits (fst p) (IZR (snd p)))
        (combine (data discriminator_prediction_scores)
                 (data discriminator_labels)) in
  let disc_loss :=
    fdiv (rsum (map snd (filter fst (combine (data attention_mask) bce))))
         (INR (length (filter (fun a : bool => a) (data attention_mask)))) in
  Electra.forward self generator_prediction_scores discriminator_prediction_scores
    generator_labels discriminator_labels (Some attention_mask)
  = OK (fadd (fscale (Electra.gen_weight self) gen_loss)
             (fscale (Electra.disc_weight self) disc_loss)).
Proof.
  intros self gps dps gl dl m.
  apply (ElectraPretrainingCriterion_forward_spec self gps dps gl dl (Some m) 1 2).
  - cbn; lia.
  - lia.
  - lia.
  - reflexivity.
  - reflexivity.
  - reflexivity.
  - constructor; [right; cbn; lia | constructor; [left; reflexivity | constructor]].
  - reflexivity.
  - reflexivity.
  - reflexivity.
  - reflexivity.
  - intros m' E. injection E as <-. split; reflexivity.
Defined.

(** ** Further properties of the NeZha layers *)

(** X1: for an odd depth and a length of at least 1 the last column of the
    relative-position table is zero: the loop over range(depth // 2) never
    writes it. *)
Theorem odd_depth_last_column_is_zero
  (length depth : nat) (max_relative_position : Z) :
  Nat.odd depth = true -> 1 <= length ->
  (Z.of_nat length < 2 ^ 62)%Z -> (0 <= max_relative_position < 2 ^ 62)%Z ->
  exists e,
    NeZha.generate_relative_positions_embeddings
      length (Z.of_nat depth) max_relative_position = OK e /\
    forall i j, i < length -> j < length -> get e [i; j; depth - 1] = 0%R.
Proof.
  intros Hodd Hpos Hl Hm.
  destruct (generate_ok length depth max_relative_position Hm Hl Hpos)
    as (e & E & _ & _ & G).
  exists e. split; [assumption|].
  intros i j Hi Hj.
  assert (Hd : depth = 2 * (depth / 2) + 1).
  { apply Nat.odd_spec in Hodd. destruct Hodd as [k Hk].
    rewrite Hk at 2. rewrite half_double_succ. exact Hk. }
  rewrite G by lia. unfold NeZha.table_entry.
  destruct (Nat.ltb_spec (depth - 1) (2 * (depth / 2))); [lia | reflexivity].
Qed.

Lemma odd_depth_last_column_is_zero_witness :
  exists e,
    NeZha.generate_relative_positions_embeddings 2 (Z.of_nat 3) 1 = OK e /\
    forall i j, i < 2 -> j < 2 -> get e [i; j; 3 - 1] = 0%R.
Proof.
  apply (odd_depth_last_column_is_zero 2 3 1); [reflexivity | lia | lia | lia].
Defined.

(** X2: transpose_for_scores turns hidden states of shape
    [b, s, heads * d] into [b, heads, s, d], head h of position i holding the
    columns h * d .. h * d + d - 1 of that position. *)
Theorem transpose_for_scores_splits_heads
  (self : NeZha.NeZhaAttention) (x : tensor R) (b s : nat) :
  shape x = [b; s; NeZha.num_attention_heads self * NeZha.attention_head_size self] ->
  exists y, NeZha.transpose_for_scores self x = OK y /\
    shape y = [b; NeZha.num_attention_heads self; s; NeZha.attention_head_size self] /\
    forall ib ih i k,
      ib < b -> ih < NeZha.num_attention_heads self -> i < s ->
      k < NeZha.attention_head_size self ->
      get y [ib; ih; i; k] = get x [ib; i; ih * NeZha.attention_head_size self + k].
Proof.
  intros Sx.
  destruct (transpose_for_scores_ok self x b s Sx) as (y & E & S & _ & G).
  exists y. auto.
Qed.

Lemma transpose_for_scores_splits_heads_witness :
  let lin := {| weight := zeros [4; 4]; bias := zeros [4] |} in
  let drop := {| rate := 0%R; training := false; keep := fun _ => true |} in
  let self :=
    {| NeZha.num_attention_heads := 2;
       NeZha.attention_head_size := 2;
       NeZha.all_head_size := 4;
       NeZha.query := lin; NeZha.key := lin; NeZha.value := lin;
       NeZha.relative_positions_embeddings := zeros [3; 3; 2];
       NeZha.attention_dropout := drop;
       NeZha.dense := lin;
       NeZha.layer_norm := {| ln_weight := []; ln_bias := []; epsilon := 0%R |};
       NeZha.output_dropout := drop |} in
  let x := Tensor [1; 1; 4] [1%R; 2%R; 3%R; 4%R] in
  exists y, NeZha.transpose_for_scores self x = OK y /\
    shape y = [1; 2; 1; 2] /\
    forall ib ih i k, ib < 1 -> ih < 2 -> i < 1 -> k < 2 ->
      get y [ib; ih; i; k] = get x [ib; i; ih * 2 + k].
Proof.
  intros lin drop self x.
  apply (transpose_for_scores_splits_heads self x 1 1). reflexivity.
Defined.

(** X3: transpose_for_scores raises when the last axis of its input is not
    num_attention_heads * attention_head_size wide. *)
Theorem transpose_for_scores_raises
  (self : NeZha.NeZhaAttention) (x : tensor R) (b s w : nat) :
  shape x = [b; s; w] -> 0 < b -> 0 < s ->
  w <> NeZha.num_attention_heads self * NeZha.attention_head_size self ->
  NeZha.transpose_for_scores self x = Raise ValueError.
Proof.
  intros Sx Hb Hs Hw. unfold NeZha.transpose_for_scores, reshape.
  rewrite Sx. cbn [removelast app numel fold_right].
  replace (_ =? _) with false; [reflexivity|].
  symmetry. apply Nat.eqb_neq. intros E. apply Hw.
  rewrite !Nat.mul_1_r in E.
  apply Nat.mul_cancel_l in E; [|lia]. apply Nat.mul_cancel_l in E; [|lia].
  exact E.
Qed.

Lemma transpose_for_scores_raises_witness :
  let lin := {| weight := zeros [4; 4]; bias := zeros [4] |} in
  let drop := {| rate := 0%R; training := false; keep := fun _ => true |} in
  let self :=
    {| NeZha.num_attention_heads := 2;
       NeZha.attention_head_size := 2;
       NeZha.all_head_size := 4;
       NeZha.query := lin; NeZha.key := lin; NeZha.value := lin;
       NeZha.relative_positions_embeddings := zeros [3; 3; 2];
       NeZha.attention_dropout := drop;
       NeZha.dense := lin;
       NeZha.layer_norm := {| ln_weight := []; ln_bias := []; epsilon := 0%R |};
       NeZha.output_dropout := drop |} in
  NeZha.transpose_for_scores self (Tensor [1; 1; 3] [1%R; 2%R; 3%R])
  = Raise ValueError.
Proof.
  intros lin drop self.
  apply (transpose_for_scores_raises self _ 1 1 3); [reflexivity | lia | lia | cbn; lia].
Defined.

(** X4: on a well-shaped input NeZhaAttention.forward returns hidden states
    of the shape of its input and scores of shape [b, heads, s, s]. *)
Theorem forward_shapes
  (self : NeZha.NeZhaAttention) (hidden len b s : nat)
  (hidden_states attention_mask : tensor R) :
  NeZha.attention_ok hidden len self ->
  shape hidden_states = [b; s; hidden] ->
  s <= len ->
  broadcast_shapes [b; NeZha.num_attention_heads self; s; s] (shape attention_mask)
  = OK [b; NeZha.num_attention_heads self; s; s] ->
  exists out scores,
    NeZha.forward self hidden_states attention_mask = OK (out, scores) /\
    shape out = [b; s; hidden] /\
    shape scores = [b; NeZha.num_attention_heads self; s; s].
Proof.
  intros Hok Hhs Hs Hmask.
  destruct (forward_trace self hidden len b s hidden_states attention_mask
              Hok Hhs Hs Hmask)
    as (mq & mk & mv & q & k & v & kt & qk & kp & qk2 & scores & ctx & vp & ctx2
        & ctxt & merged & proj & res & out & _ & _ & _ & _ & _ & _ & _ & _ & _
        & _ & _ & _ & _ & _ & _ & _ & _ & Ebody & _ & _ & _ & _
        & (Sscores & _ & _ & _ & Sout) & _).
  exists out, scores. split; [|split; assumption].
  unfold NeZha.forward. rewrite Ebody. reflexivity.
Qed.

Lemma forward_shapes_witness :
  let lin := {| weight := zeros [2; 2]; bias := zeros [2] |} in
  let drop := {| rate := 0%R; training := false; keep := fun _ => true |} in
  let self :=
    {| NeZha.num_attention_heads := 1;
       NeZha.attention_head_size := 2;
       NeZha.all_head_size := 2;
       NeZha.query := lin; NeZha.key := lin; NeZha.value := lin;
       NeZha.relative_positions_embeddings := zeros [3; 3; 2];
       NeZha.attention_dropout := drop;
       NeZha.dense := lin;
       NeZha.layer_norm :=
         {| ln_weight := [1%R; 1%R]; ln_bias := [0%R; 0%R]; epsilon := 0%R |};
       NeZha.output_dropout := drop |} in
  exists out scores,
    NeZha.forward self (zeros [1; 3; 2]) (zeros [1; 1; 1; 3]) = OK (out, scores) /\
    shape out = [1; 3; 2] /\ shape scores = [1; 1; 3; 3].
Proof.
  intros lin drop self.
  apply (forward_shapes self 2 3 1 3 (zeros [1; 3; 2]) (zeros [1; 1; 1; 3])).
  - constructor; reflexivity.
  - reflexivity.
  - lia.
  - reflexivity.
Defined.

Section Totality.

Import NeZha.

Lemma Linear_forward_2d_ok (l : Linear) (x : tensor R) (b i o : nat) :
  shape x = [b; i] -> shape (weight l) = [i; o] -> shape (bias l) = [o] ->
  exists y, Linear_forward l x = OK y /\ shape y = [b; o] /\ wf y.
Proof.
  intros Ex Ew Eb. unfold Linear_forward.
  rewrite (matmul_ok x (weight l) [] [] [] b i o Ex Ew eq_refl); cbn [bind].
  unfold add. erewrite map2_broadcast.
  - eexists; split; [reflexivity | split; [reflexivity | apply wf_build]].
  - rewrite shape_build, Eb. unfold broadcast_shapes; simpl.
    rewrite Nat.eqb_refl. reflexivity.
Qed.

Lemma broadcast_extended_mask (b h s : nat) :
  broadcast_shapes [b; h; s; s] [b; 1; 1; s] = OK [b; h; s; s].
Proof.
  unfold broadcast_shapes. cbn [rev app broadcast_rev bind].
  rewrite !Nat.eqb_refl. cbn [bind].
  destruct (h =? 1); cbn [bind]; destruct (s =? 1); cbn [bind]; reflexivity.
Qed.

Lemma NeZhaLayer_forward_ok (self : NeZhaLayer) (hidden inter len b s : nat)
  (hidden_states attention_mask : tensor R) :
  layer_ok hidden inter len self ->
  shape hidden_states = [b; s; hidden] -> s <= len ->
  shape attention_mask = [b; 1; 1; s] ->
  exists h a,
    NeZhaLayer_forward self hidden_states attention_mask = OK (h, a) /\
    shape h = [b; s; hidden] /\
    shape a = [b; num_attention_heads (attention self); s; s].
Proof.
  intros [Hatt Efw Efb Eow Eob Enw Enb] Hhs Hs Hmask.
  assert (Hbm : broadcast_shapes [b; num_attention_heads (attention self); s; s]
                  (shape attention_mask)
                = OK [b; num_attention_heads (attention self); s; s])
    by (rewrite Hmask; apply broadcast_extended_mask).
  destruct (forward_trace (attention self) hidden len b s hidden_states
              attention_mask Hatt Hhs Hs Hbm)
    as (mq & mk & mv & q & k & v & kt & qk & kp & qk2 & scores & ctx & vp & ctx2
        & ctxt & merged & proj & res & out & _ & _ & _ & _ & _ & _ & _ & _ & _
        & _ & _ & _ & _ & _ & _ & _ & _ & Ebody & _ & _ & _ & _
        & (Sscores & _ & _ & _ & Sout) & _).
  unfold NeZhaLayer_forward, forward. rewrite Ebody. cbn [bind fst snd
    layer_normed_context_layer attention_scores].
  destruct (Linear_forward_ok _ _ _ _ _ _ Sout Efw Efb) as (f1 & E1 & S1 & _).
  rewrite E1; cbn [bind].
  assert (S1' : shape (map1 (activation self) f1) = [b; s; inter]) by exact S1.
  destruct (Linear_forward_ok _ _ _ _ _ _ S1' Eow Eob) as (f2 & E2 & S2 & _).
  rewrite E2; cbn [bind].
  unfold add. rewrite map2_same_shape by (rewrite shape_Dropout_forward; congruence).
  cbn [bind].
  destruct (LayerNorm_forward_ok (layer_layer_norm self)
              (build (shape (Dropout_forward (dropout self) f2))
                 (fun idx => (get (Dropout_forward (dropout self) f2) idx
                              + get out idx)%R)))
    as (y & Ey & Sy).
  - rewrite shape_build, shape_Dropout_forward, S2, Enw. reflexivity.
  - rewrite shape_build, shape_Dropout_forward, S2, Enb. reflexivity.
  - rewrite Ey; cbn [bind]. exists y, scores. split; [reflexivity|].
    split; [|assumption].
    rewrite Sy, shape_build, shape_Dropout_forward. assumption.
Qed.

Lemma encoder_loop_ok (layers : list NeZhaLayer) (hidden inter len b s : nat)
  (hidden_states attention_mask : tensor R)
  (all_encoder_layers all_encoder_att : list (tensor R)) :
  Forall (layer_ok hidden inter len) layers ->
  shape hidden_states = [b; s; hidden] -> s <= len ->
  shape attention_mask = [b; 1; 1; s] ->
  exists hs atts,
    encoder_loop layers hidden_states attention_mask
                 all_encoder_layers all_encoder_att
    = OK (all_encoder_layers ++ hidden_states :: hs, all_encoder_att ++ atts) /\
    length hs = length layers /\ length atts = length layers /\
    Forall (fun h => shape h = [b; s; hidden]) hs /\
    Forall2 (fun l a => shape a = [b; num_attention_heads (attention l); s; s])
            layers atts.
Proof.
  intros Hall. revert hidden_states all_encoder_layers all_encoder_att.
  induction Hall as [|lm rest Hlm _ IH]; intros h L A Hh Hs Hmask.
  - exists [], []. cbn [encoder_loop]. rewrite app_nil_r.
    repeat split; constructor.
  - cbn [encoder_loop].
    destruct (NeZhaLayer_forward_ok lm hidden inter len b s h attention_mask
                Hlm Hh Hs Hmask) as (h' & a & E & Sh' & Sa).
    rewrite E; cbn [bind fst snd].
    destruct (IH h' (L ++ [h]) (A ++ [a]) Sh' Hs Hmask)
      as (hs & atts & E' & Lhs & Latts & Fhs & Fatts).
    exists (h' :: hs), (a :: atts). rewrite E', <- !app_assoc. cbn [app length].
    repeat split; try (f_equal; assumption); constructor; assumption.
Qed.

Lemma NeZhaEncoder_forward_outputs_aux
  (self : NeZhaEncoder) (hidden inter len b s : nat)
  (hidden_states attention_mask : tensor R) :
  Forall (layer_ok hidden inter len) (layer self) ->
  shape hidden_states = [b; s; hidden] -> s <= len ->
  shape attention_mask = [b; 1; 1; s] ->
  exists hs atts,
    NeZhaEncoder_forward self hidden_states attention_mask
    = OK (hidden_states :: hs, atts) /\
    length hs = length (layer self) /\
    length atts = length (layer self) /\
    Forall (fun h => shape h = [b; s; hidden]) hs /\
    Forall2 (fun l a => shape a = [b; num_attention_heads (attention l); s; s])
            (layer self) atts.
Proof.
  intros Hall Hh Hs Hmask.
  destruct (encoder_loop_ok (layer self) hidden inter len b s hidden_states
              attention_mask [] [] Hall Hh Hs Hmask)
    as (hs & atts & E & Lhs & Latts & Fhs & Fatts).
  exists hs, atts. repeat split; assumption.
Qed.

End Totality.

(** X5: NeZhaEncoder.forward on hidden states [b, s, hidden] with s within
    the table length and the additive mask [b, 1, 1, s] succeeds; it returns
    the input followed by one hidden state per layer, all of the input's
    shape, and one score tensor [b, heads, s, s] per layer. *)
Theorem NeZhaEncoder_forward_outputs
  (self : NeZha.NeZhaEncoder) (hidden inter len b s : nat)
  (hidden_states attention_mask : tensor R) :
  Forall (NeZha.layer_ok hidden inter len) (NeZha.layer self) ->
  shape hidden_states = [b; s; hidden] -> s <= len ->
  shape attention_mask = [b; 1; 1; s] ->
  exists hs atts,
    NeZha.NeZhaEncoder_forward self hidden_states attention_mask
    = OK (hidden_states :: hs, atts) /\
    length hs = length (NeZha.layer self) /\
    length atts = length (NeZha.layer self) /\
    Forall (fun h => shape h = [b; s; hidden]) hs /\
    Forall2 (fun l a =>
               shape a = [b; NeZha.num_attention_heads (NeZha.attention l); s; s])
            (NeZha.layer self) atts.
Proof.
  apply NeZhaEncoder_forward_outputs_aux.
Qed.

Lemma NeZhaEncoder_forward_outputs_witness :
  let self := {| NeZha.layer := [Examples.tiny_layer; Examples.tiny_layer] |} in
  exists hs atts,
    NeZha.NeZhaEncoder_forward self (zeros [1; 3; 2]) (zeros [1; 1; 1; 3])
    = OK (zeros [1; 3; 2] :: hs, atts) /\
    length hs = length (NeZha.layer self) /\
    length atts = length (NeZha.layer self) /\
    Forall (fun h => shape h = [1; 3; 2]) hs /\
    Forall2 (fun l a =>
               shape a = [1; NeZha.num_attention_heads (NeZha.attention l); 3; 3])
            (NeZha.layer self) atts.
Proof.
  intros self.
  apply (NeZhaEncoder_forward_outputs self 2 4 3 1 3 (zeros [1; 3; 2])
           (zeros [1; 1; 1; 3])).
  - repeat constructor.
  - reflexivity.
  - lia.
  - reflexivity.
Defined.

Section ModelTotality.

Import NeZha.

Lemma Embedding_forward_ok (w : tensor R) (ids : tensor Z) (v h : nat) :
  shape w = [v; h] -> valid_ids v ids = true ->
  exists e, Embedding_forward w ids = OK e /\ shape e = shape ids ++ [h] /\ wf e.
Proof.
  intros Sw Hv. unfold Embedding_forward. rewrite Sw.
  unfold valid_ids in Hv. rewrite Hv.
  eexists. split; [reflexivity|]. split; [reflexivity | apply wf_build].
Qed.

Lemma Embedding_forward_raises (w : tensor R) (ids : tensor Z) (v h : nat) :
  shape w = [v; h] -> valid_ids v ids = false ->
  Embedding_forward w ids = Raise ValueError.
Proof.
  intros Sw Hv. unfold Embedding_forward. rewrite Sw.
  unfold valid_ids in Hv. rewrite Hv. reflexivity.
Qed.

Lemma position_ids_ok (input_ids : tensor Z) (b s : nat) :
  shape input_ids = [b; s] ->
  exists p,
    (position_ids <- unsqueeze (arange (nth 1 (shape input_ids) 0)) 0 ;;
     expand_as position_ids input_ids) = OK p.
Proof.
  intros Si. rewrite Si. cbn [nth]. unfold unsqueeze.
  cbn [arange shape length Nat.leb firstn skipn app bind data].
  unfold expand_as. cbn [shape]. rewrite Si.
  assert (E : broadcast_shapes [1; s] [b; s] = OK [b; s]).
  { unfold broadcast_shapes. cbn [rev app broadcast_rev bind].
    destruct (Nat.eqb_spec 1 b) as [<- | Hb]; cbn [Nat.eqb bind];
      rewrite Nat.eqb_refl; reflexivity. }
  rewrite E. cbn [bind].
  destruct (list_eq_dec Nat.eq_dec [b; s] [b; s]); [|contradiction].
  eexists. reflexivity.
Qed.

Lemma NeZhaEmbeddings_forward_shape (self : NeZhaEmbeddings)
  (input_ids : tensor Z) (token_type_ids : tensor Z) (vocab types hidden b s : nat) :
  shape (word_embeddings self) = [vocab; hidden] ->
  shape (token_type_embeddings self) = [types; hidden] ->
  use_relative_position self = true ->
  length (ln_weight (emb_layer_norm self)) = hidden ->
  length (ln_bias (emb_layer_norm self)) = hidden ->
  shape input_ids = [b; s] -> shape token_type_ids = [b; s] ->
  (valid_ids vocab input_ids = true -> valid_ids types token_type_ids = true ->
   exists e, NeZhaEmbeddings_forward self input_ids (Some token_type_ids) = OK e /\
             shape e = [b; s; hidden]) /\
  (valid_ids vocab input_ids && valid_ids types token_type_ids = false ->
   NeZhaEmbeddings_forward self input_ids (Some token_type_ids) = Raise ValueError).
Proof.
  intros Sw St Hrel Lw Lb Si Stt.
  destruct (position_ids_ok input_ids b s Si) as (p & Ep).
  unfold NeZhaEmbeddings_forward.
  match goal with
  | |- context [bind ?a (fun p1 => bind (@?f p1) ?k)] =>
      assert (Eassoc : bind a (fun p1 => bind (f p1) k) = bind (bind a f) k)
        by (destruct a; reflexivity)
  end.
  rewrite Eassoc, Ep. cbn [bind]. clear Eassoc Ep. rewrite Hrel. cbn [negb].
  split.
  - intros Hv Hvt.
    destruct (Embedding_forward_ok _ _ _ _ Sw Hv) as (we & Ewe & Swe & _).
    destruct (Embedding_forward_ok _ _ _ _ St Hvt) as (te & Ete & Ste & _).
    rewrite Ewe; cbn [bind]. rewrite Ete; cbn [bind].
    unfold add. rewrite map2_same_shape by congruence. cbn [bind].
    destruct (LayerNorm_forward_ok (emb_layer_norm self)
                (build (shape we) (fun idx => (get we idx + get te idx)%R)))
      as (y & Ey & Sy).
    + rewrite shape_build, Swe, Si, Lw. reflexivity.
    + rewrite shape_build, Swe, Si, Lb. reflexivity.
    + rewrite Ey; cbn [bind]. eexists. split; [reflexivity|].
      rewrite shape_Dropout_forward, Sy, shape_build, Swe, Si. reflexivity.
  - intros Hv. apply andb_false_iff in Hv.
    destruct (valid_ids vocab input_ids) eqn:Hvi.
    + destruct Hv as [Hv | Hv]; [discriminate|].
      destruct (Embedding_forward_ok _ _ _ _ Sw Hvi) as (we & Ewe & _).
      rewrite Ewe; cbn [bind].
      rewrite (Embedding_forward_raises _ _ _ _ St Hv). reflexivity.
    + rewrite (Embedding_forward_raises _ _ _ _ Sw Hvi). reflexivity.
Qed.

Lemma NeZhaPooler_forward_ok (self : NeZhaPooler) (x : tensor R) (b s hidden : nat) :
  shape (weight (pooler_dense self)) = [hidden; hidden] ->
  shape (bias (pooler_dense self)) = [hidden] ->
  shape x = [b; s; hidden] -> 0 < s ->
  exists y, NeZhaPooler_forward self x = OK y /\ shape y = [b; hidden].
Proof.
  intros Sw Sb Sx Hs. unfold NeZhaPooler_forward, select_first. rewrite Sx.
  replace (s =? 0) with false by (symmetry; apply Nat.eqb_neq; lia).
  cbn [bind].
  destruct (Linear_forward_2d_ok (pooler_dense self)
              (build [b; hidden] (fun idx => get x [nth 0 idx 0; 0; nth 1 idx 0]))
              b hidden hidden eq_refl Sw Sb) as (y & Ey & Sy & _).
  rewrite Ey; cbn [bind]. eexists. split; [reflexivity | exact Sy].
Qed.

Lemma last_cons_Forall {A : Type} (P : A -> Prop) (a d : A) (l : list A) :
  P a -> Forall P l -> P (last (a :: l) d).
Proof.
  intros Ha Hl. revert a Ha. induction Hl as [|x l Hx _ IH]; intros a Ha.
  - exact Ha.
  - change (last (a :: x :: l) d) with (last (x :: l) d). apply IH. exact Hx.
Qed.

Lemma NeZhaModel_forward_ok
  (self : NeZha.NeZhaModel) (vocab types hidden inter len b s : nat)
  (input_ids : tensor Z) (token_type_ids : option (tensor Z))
  (attention_mask : option (tensor R)) :
  NeZha.model_ok vocab types hidden inter len self ->
  shape input_ids = [b; s] -> 0 < s -> s <= len ->
  forallb (fun z => (0 <=? z)%Z && (z <? Z.of_nat vocab)%Z) (data input_ids) = true ->
  match token_type_ids with
  | None => 0 < types
  | Some t =>
      shape t = [b; s] /\
      forallb (fun z => (0 <=? z)%Z && (z <? Z.of_nat types)%Z) (data t) = true
  end ->
  (forall m, attention_mask = Some m -> shape m = [b; s] /\ wf m) ->
  exists sequence_output pooled_output,
    NeZha.NeZhaModel_forward self input_ids token_type_ids attention_mask
    = OK (sequence_output, pooled_output) /\
    shape sequence_output = [b; s; hidden] /\
    shape pooled_output = [b; hidden].
Proof.
  intros [Sw St Hrel Lw Lb Hlayers Spw Spb] Si Hs Hlen Hv Htt Hm.
  destruct (extended_attention_mask_ok input_ids attention_mask b s Si Hm)
    as (ext & Eext & Sext & _).
  unfold NeZha.NeZhaModel_forward. rewrite Eext; cbn [bind].
  set (tt := match token_type_ids with
             | Some ids => ids
             | None => zeros_like input_ids
             end).
  assert (Stt : shape tt = [b; s]).
  { unfold tt. destruct token_type_ids as [t|]; [apply Htt | exact Si]. }
  assert (Vtt : valid_ids types tt = true).
  { unfold tt, valid_ids. destruct token_type_ids as [t|]; [apply Htt|].
    apply forallb_forall. intros z Hz. unfold zeros_like, full in Hz.
    cbn [data] in Hz. apply repeat_spec in Hz. subst z.
    apply andb_true_iff; split; [reflexivity | apply Z.ltb_lt; lia]. }
  destruct (NeZhaEmbeddings_forward_shape (NeZha.embeddings self) input_ids tt
              vocab types hidden b s Sw St Hrel Lw Lb Si Stt) as [Hemb _].
  destruct (Hemb Hv Vtt) as (emb & Eemb & Semb).
  rewrite Eemb; cbn [bind].
  destruct (NeZhaEncoder_forward_outputs_aux (NeZha.encoder self) hidden inter len
              b s emb ext Hlayers Semb Hlen Sext)
    as (hs & atts & Eenc & _ & _ & Fhs & _).
  rewrite Eenc; cbn [bind fst].
  assert (Slast : shape (last (emb :: hs) (zeros [])) = [b; s; hidden])
    by (apply (last_cons_Forall (fun h => shape h = [b; s; hidden])); assumption).
  destruct (NeZhaPooler_forward_ok (NeZha.pooler self) _ b s hidden Spw Spb Slast Hs)
    as (p & Ep & Sp).
  rewrite Ep; cbn [bind]. do 2 eexists. split; [reflexivity|]. split; assumption.
Qed.

End ModelTotality.

(** X6: NeZhaModel.forward on token ids within the vocabulary, a sequence of
    1 to len positions (len the table length, 512 as constructed) and no mask
    or a [b, s] mask succeeds: the sequence output has shape [b, s, hidden]
    and the pooled output [b, hidden]. *)
Theorem NeZhaModel_forward_succeeds
  (self : NeZha.NeZhaModel) (vocab types hidden inter len b s : nat)
  (input_ids : tensor Z) (token_type_ids : option (tensor Z))
  (attention_mask : option (tensor R)) :
  NeZha.model_ok vocab types hidden inter len self ->
  shape input_ids = [b; s] -> 0 < s -> s <= len ->
  forallb (fun z => (0 <=? z)%Z && (z <? Z.of_nat vocab)%Z) (data input_ids) = true ->
  match token_type_ids with
  | None => 0 < types
  | Some t =>
      shape t = [b; s] /\
      forallb (fun z => (0 <=? z)%Z && (z <? Z.of_nat types)%Z) (data t) = true
  end ->
  (forall m, attention_mask = Some m -> shape m = [b; s] /\ wf m) ->
  exists sequence_output pooled_output,
    NeZha.NeZhaModel_forward self input_ids token_type_ids attention_mask
    = OK (sequence_output, pooled_output) /\
    shape sequence_output = [b; s; hidden] /\
    shape pooled_output = [b; hidden].
Proof. apply NeZhaModel_forward_ok. Qed.

Lemma NeZhaModel_forward_succeeds_witness :
  let input_ids := Tensor [1; 3] [5%Z; 0%Z; 7%Z] in
  exists sequence_output pooled_output,
    NeZha.NeZhaModel_forward Examples.tiny_model input_ids None None
    = OK (sequence_output, pooled_output) /\
    shape sequence_output = [1; 3; 2] /\
    shape pooled_output = [1; 2].
Proof.
  intros input_ids.
  apply (NeZhaModel_forward_succeeds Examples.tiny_model 8 2 2 4 3 1 3 input_ids
           None None).
  - repeat constructor.
  - reflexivity.
  - lia.
  - lia.
  - reflexivity.
  - lia.
  - intros m E. discriminate.
Defined.

(** X7: NeZhaModel.forward on a sequence longer than the relative-position
    table of its layers raises, whatever the token ids are. *)
Theorem NeZhaModel_forward_too_long
  (self : NeZha.NeZhaModel) (vocab types hidden inter len b s : nat)
  (input_ids : tensor Z) (token_type_ids : option (tensor Z))
  (attention_mask : option (tensor R)) :
  NeZha.model_ok vocab types hidden inter len self ->
  NeZha.layer (NeZha.encoder self) <> [] ->
  shape input_ids = [b; s] -> 1 < len -> len < s ->
  (forall t, token_type_ids = Some t -> shape t = [b; s]) ->
  (forall m, attention_mask = Some m -> shape m = [b; s] /\ wf m) ->
  raises (NeZha.NeZhaModel_forward self input_ids token_type_ids attention_mask).
Proof.
  intros [Sw St Hrel Lw Lb Hlayers Spw Spb] Hne Si Hlen Hs Htt Hm.
  destruct (extended_attention_mask_ok input_ids attention_mask b s Si Hm)
    as (ext & Eext & Sext & _).
  unfold NeZha.NeZhaModel_forward. rewrite Eext; cbn [bind].
  set (tt := match token_type_ids with
             | Some ids => ids
             | None => zeros_like input_ids
             end).
  assert (Stt : shape tt = [b; s]).
  { unfold tt. destruct token_type_ids as [t|]; [apply Htt; reflexivity | exact Si]. }
  destruct (NeZhaEmbeddings_forward_shape (NeZha.embeddings self) input_ids tt
              vocab types hidden b s Sw St Hrel Lw Lb Si Stt) as [Hemb Hraise].
  destruct (valid_ids vocab input_ids && valid_ids types tt) eqn:Hv.
  - apply andb_true_iff in Hv. destruct Hv as [Hv1 Hv2].
    destruct (Hemb Hv1 Hv2) as (emb & Eemb & Semb).
    rewrite Eemb; cbn [bind]. unfold NeZha.NeZhaEncoder_forward.
    destruct (NeZha.layer (NeZha.encoder self)) as [|l rest]; [congruence|].
    pose proof (Forall_inv Hlayers) as Hl.
    cbn [NeZha.encoder_loop]. unfold NeZha.NeZhaLayer_forward.
    rewrite (forward_raises (NeZha.attention l) hidden len b s emb ext
               (NeZha.ok_attention _ _ _ _ Hl) Semb Hlen Hs).
    exact I.
  - rewrite (Hraise eq_refl). exact I.
Qed.

Lemma NeZhaModel_forward_too_long_witness :
  raises (NeZha.NeZhaModel_forward Examples.tiny_model
            (Tensor [1; 4] [5%Z; 0%Z; 7%Z; 1%Z]) None None).
Proof.
  apply (NeZhaModel_forward_too_long Examples.tiny_model 8 2 2 4 3 1 4).
  - repeat constructor.
  - discriminate.
  - reflexivity.
  - lia.
  - lia.
  - intros t E. discriminate.
  - intros m E. discriminate.
Defined.

(** X8: NeZhaModel.forward raises ValueError when a token id or a token type
    id is outside its embedding table. *)
Theorem NeZhaModel_forward_out_of_vocabulary
  (self : NeZha.NeZhaModel) (vocab types hidden inter len b s : nat)
  (input_ids token_type_ids : tensor Z) (attention_mask : option (tensor R)) :
  NeZha.model_ok vocab types hidden inter len self ->
  shape input_ids = [b; s] -> shape token_type_ids = [b; s] ->
  (forall m, attention_mask = Some m -> shape m = [b; s] /\ wf m) ->
  valid_ids vocab input_ids && valid_ids types token_type_ids = false ->
  NeZha.NeZhaModel_forward self input_ids (Some token_type_ids) attention_mask
  = Raise ValueError.
Proof.
  intros [Sw St Hrel Lw Lb Hlayers Spw Spb] Si Stt Hm Hv.
  destruct (extended_attention_mask_ok input_ids attention_mask b s Si Hm)
    as (ext & Eext & Sext & _).
  unfold NeZha.NeZhaModel_forward. rewrite Eext; cbn [bind].
  destruct (NeZhaEmbeddings_forward_shape (NeZha.embeddings self) input_ids
              token_type_ids vocab types hidden b s Sw St Hrel Lw Lb Si Stt)
    as [_ Hraise].
  rewrite (Hraise Hv). reflexivity.
Qed.

Lemma NeZhaModel_forward_out_of_vocabulary_witness :
  NeZha.NeZhaModel_forward Examples.tiny_model
    (Tensor [1; 2] [5%Z; 8%Z]) (Some (Tensor [1; 2] [0%Z; 1%Z])) None
  = Raise ValueError.
Proof.
  apply (NeZhaModel_forward_out_of_vocabulary Examples.tiny_model 8 2 2 4 3 1 2).
  - repeat constructor.
  - reflexivity.
  - reflexivity.
  - intros m E. discriminate.
  - reflexivity.
Defined.

(** X9: NeZhaPooler.forward reads the first token only: hidden states of one
    shape that agree at position 0 have the same pooled output. *)
Theorem NeZhaPooler_forward_first_token
  (self : NeZha.NeZhaPooler) (x y : tensor R) (b s h : nat) :
  shape x = [b; s; h] -> shape y = [b; s; h] ->
  (forall ib k, ib < b -> k < h -> get x [ib; 0; k] = get y [ib; 0; k]) ->
  NeZha.NeZhaPooler_forward self x = NeZha.NeZhaPooler_forward self y.
Proof.
  intros Sx Sy Hxy. unfold NeZha.NeZhaPooler_forward, select_first.
  rewrite Sx, Sy. destruct (s =? 0); [reflexivity|].
  cbn [bind].
  rewrite (build_ext [b; h] (fun idx => get x [nth 0 idx 0; 0; nth 1 idx 0])
                     (fun idx => get y [nth 0 idx 0; 0; nth 1 idx 0])).
  - reflexivity.
  - intros [|ib [|k [|? ?]]]; cbn [in_bounds]; try tauto.
    intros (Hb & Hk & _). cbn [nth]. apply Hxy; assumption.
Qed.

Lemma NeZhaPooler_forward_first_token_witness :
  NeZha.NeZhaPooler_forward (NeZha.pooler Examples.tiny_model)
    (Tensor [1; 2; 2] [1%R; 2%R; 3%R; 4%R])
  = NeZha.NeZhaPooler_forward (NeZha.pooler Examples.tiny_model)
      (Tensor [1; 2; 2] [1%R; 2%R; 5%R; 6%R]).
Proof.
  apply (NeZhaPooler_forward_first_token _ _ _ 1 2 2).
  - reflexivity.
  - reflexivity.
  - intros ib k Hb Hk.
    assert (ib = 0) by lia. subst ib.
    destruct k as [|[|k]]; [reflexivity | reflexivity | lia].
Defined.

Section Heads.

Lemma unstack_pair {A : Type} `{Default A} (x : tensor A) (b s : nat) :
  shape x = [2; b; s] ->
  exists t0 t1,
    unstack x = OK [t0; t1] /\ shape t0 = [b; s] /\ shape t1 = [b; s] /\
    forall ib i, ib < b -> i < s ->
      get t0 [ib; i] = get x [0; ib; i] /\ get t1 [ib; i] = get x [1; ib; i].
Proof.
  intros Sx. unfold unstack. rewrite Sx. cbn [seq map].
  do 2 eexists. split; [reflexivity|]. split; [reflexivity|]. split; [reflexivity|].
  intros ib i Hb Hi.
  assert (Hr : ravel [b; s] [ib; i] < numel [b; s])
    by (apply ravel_lt; simpl; lia).
  unfold get. cbn [shape data]. rewrite Sx.
  rewrite !nth_firstn.
  destruct (Nat.ltb_spec (ravel [b; s] [ib; i]) (numel [b; s])); [|lia].
  rewrite !nth_skipn. split; f_equal; simpl; lia.
Qed.

End Heads.

(** X10: on an input NeZhaModel.forward accepts,
    NeZhaForSequenceClassification.forward returns logits of shape
    [batch, num_classes] and NeZhaForTokenClassification.forward logits of
    shape [batch, sequence, num_classes]. *)
Theorem classification_heads_shapes
  (nezha : NeZha.NeZhaModel) (dropout : Dropout) (classifier : Linear)
  (vocab types hidden inter len b s num_classes : nat)
  (input_ids : tensor Z) (attention_mask : option (tensor R)) :
  NeZha.model_ok vocab types hidden inter len nezha ->
  shape (weight classifier) = [hidden; num_classes] ->
  shape (bias classifier) = [num_classes] ->
  shape input_ids = [b; s] -> 0 < s -> s <= len -> 0 < types ->
  valid_ids vocab input_ids = true ->
  (forall m, attention_mask = Some m -> shape m = [b; s] /\ wf m) ->
  (exists logits,
     NeZha.NeZhaForSequenceClassification_forward
       {| NeZha.sc_nezha := nezha; NeZha.sc_dropout := dropout;
          NeZha.sc_classifier := classifier |} input_ids None attention_mask
     = OK logits /\ shape logits = [b; num_classes]) /\
  (exists logits,
     NeZha.NeZhaForTokenClassification_forward
       {| NeZha.tc_nezha := nezha; NeZha.tc_dropout := dropout;
          NeZha.tc_classifier := classifier |} input_ids None attention_mask
     = OK logits /\ shape logits = [b; s; num_classes]).
Proof.
  intros Hok Sw Sb Si Hs Hlen Ht Hv Hm.
  destruct (NeZhaModel_forward_ok nezha vocab types hidden inter len b s input_ids
              None attention_mask Hok Si Hs Hlen Hv Ht Hm)
    as (seq_out & pooled & E & Sseq & Spooled).
  split.
  - unfold NeZha.NeZhaForSequenceClassification_forward.
    cbn [NeZha.sc_nezha NeZha.sc_dropout NeZha.sc_classifier].
    rewrite E; cbn [bind snd].
    destruct (Linear_forward_2d_ok classifier (Dropout_forward dropout pooled)
                b hidden num_classes) as (y & Ey & Sy & _);
      [rewrite shape_Dropout_forward; assumption | assumption | assumption |].
    exists y. split; assumption.
  - unfold NeZha.NeZhaForTokenClassification_forward.
    cbn [NeZha.tc_nezha NeZha.tc_dropout NeZha.tc_classifier].
    rewrite E; cbn [bind fst].
    destruct (Linear_forward_ok classifier (Dropout_forward dropout seq_out)
                b s hidden num_classes) as (y & Ey & Sy & _);
      [rewrite shape_Dropout_forward; assumption | assumption | assumption |].
    exists y. split; assumption.
Qed.

Lemma classification_heads_shapes_witness :
  let input_ids := Tensor [2; 3] [5%Z; 0%Z; 7%Z; 1%Z; 2%Z; 3%Z] in
  let classifier := Examples.tiny_linear 2 3 in
  (exists logits,
     NeZha.NeZhaForSequenceClassification_forward
       {| NeZha.sc_nezha := Examples.tiny_model;
          NeZha.sc_dropout := Examples.no_dropout;
          NeZha.sc_classifier := classifier |} input_ids None None
     = OK logits /\ shape logits = [2; 3]) /\
  (exists logits,
     NeZha.NeZhaForTokenClassification_forward
       {| NeZha.tc_nezha := Examples.tiny_model;
          NeZha.tc_dropout := Examples.no_dropout;
          NeZha.tc_classifier := classifier |} input_ids None None
     = OK logits /\ shape logits = [2; 3; 3]).
Proof.
  intros input_ids classifier.
  apply (classification_heads_shapes Examples.tiny_model Examples.no_dropout
           classifier 8 2 2 4 3 2 3 3 input_ids None).
  - repeat constructor.
  - reflexivity.
  - reflexivity.
  - reflexivity.
  - lia.
  - lia.
  - lia.
  - reflexivity.
  - intros m E. discriminate.
Defined.

(** X11: NeZhaForQuestionAnswering.forward splits the two columns of the
    classifier's output: the start logit of a token is column 0 and the end
    logit column 1 of the logits of that token, both results having shape
    [batch, sequence]. *)
Theorem question_answering_splits_logits
  (self : NeZha.NeZhaForQuestionAnswering)
  (vocab types hidden inter len b s : nat)
  (input_ids : tensor Z) (attention_mask : option (tensor R)) :
  NeZha.model_ok vocab types hidden inter len (NeZha.qa_nezha self) ->
  shape (weight (NeZha.qa_classifier self)) = [hidden; 2] ->
  shape (bias (NeZha.qa_classifier self)) = [2] ->
  shape input_ids = [b; s] -> 0 < s -> s <= len -> 0 < types ->
  valid_ids vocab input_ids = true ->
  (forall m, attention_mask = Some m -> shape m = [b; s] /\ wf m) ->
  exists sequence_output pooled_output logits start_logits end_logits,
    NeZha.NeZhaModel_forward (NeZha.qa_nezha self) input_ids None attention_mask
    = OK (sequence_output, pooled_output) /\
    Linear_forward (NeZha.qa_classifier self) sequence_output = OK logits /\
    NeZha.NeZhaForQuestionAnswering_forward self input_ids None attention_mask
    = OK (start_logits, end_logits) /\
    shape start_logits = [b; s] /\ shape end_logits = [b; s] /\
    forall ib i, ib < b -> i < s ->
      get start_logits [ib; i] = get logits [ib; i; 0] /\
      get end_logits [ib; i] = get logits [ib; i; 1].
Proof.
  intros Hok Sw Sb Si Hs Hlen Ht Hv Hm.
  destruct (NeZhaModel_forward_ok (NeZha.qa_nezha self) vocab types hidden inter
              len b s input_ids None attention_mask Hok Si Hs Hlen Hv Ht Hm)
    as (seq_out & pooled & E & Sseq & Spooled).
  destruct (Linear_forward_ok (NeZha.qa_classifier self) seq_out b s hidden 2
              Sseq Sw Sb) as (logits & El & Sl & _).
  set (lt := build [2; b; s] (fun idx =>
               get logits [nth 1 idx 0; nth 2 idx 0; nth 0 idx 0])).
  assert (Et : transpose logits [2; 0; 1] = OK lt)
    by (rewrite transpose_ok by (rewrite Sl; reflexivity); rewrite Sl; reflexivity).
  destruct (unstack_pair lt b s eq_refl) as (t0 & t1 & Eu & S0 & S1 & G).
  exists seq_out, pooled, logits, t0, t1.
  split; [assumption|]. split; [assumption|].
  split.
  { unfold NeZha.NeZhaForQuestionAnswering_forward.
    rewrite E; cbn [bind fst]. rewrite El; cbn [bind]. rewrite Et; cbn [bind].
    rewrite Eu; cbn [bind]. reflexivity. }
  split; [assumption|]. split; [assumption|].
  intros ib i Hb Hi. destruct (G ib i Hb Hi) as [-> ->].
  unfold lt. rewrite !get_build by (simpl; lia). split; reflexivity.
Qed.

Lemma question_answering_splits_logits_witness :
  let self := {| NeZha.qa_nezha := Examples.tiny_model;
                 NeZha.qa_classifier := Examples.tiny_linear 2 2 |} in
  let input_ids := Tensor [1; 3] [5%Z; 0%Z; 7%Z] in
  exists sequence_output pooled_output logits start_logits end_logits,
    NeZha.NeZhaModel_forward (NeZha.qa_nezha self) input_ids None None
    = OK (sequence_output, pooled_output) /\
    Linear_forward (NeZha.qa_classifier self) sequence_output = OK logits /\
    NeZha.NeZhaForQuestionAnswering_forward self input_ids None None
    = OK (start_logits, end_logits) /\
    shape start_logits = [1; 3] /\ shape end_logits = [1; 3] /\
    forall ib i, ib < 1 -> i < 3 ->
      get start_logits [ib; i] = get logits [ib; i; 0] /\
      get end_logits [ib; i] = get logits [ib; i; 1].
Proof.
  intros self input_ids.
  apply (question_answering_splits_logits self 8 2 2 4 3 1 3 input_ids None).
  - repeat constructor.
  - reflexivity.
  - reflexivity.
  - reflexivity.
  - lia.
  - lia.
  - lia.
  - reflexivity.
  - intros m E. discriminate.
Defined.

Section ModelConstruction.

Import NeZha.

Lemma Embedding_new_ok (n h : Z) (sample : list nat -> R) :
  (0 < n)%Z -> (0 < h)%Z ->
  Embedding_new n h sample = OK (build [Z.to_nat n; Z.to_nat h] sample).
Proof.
  intros Hn Hh. unfold Embedding_new.
  replace ((n <=? 0)%Z || (h <=? 0)%Z) with false
    by (symmetry; apply orb_false_iff; split; apply Z.leb_gt; lia).
  reflexivity.
Qed.

Lemma Embedding_new_cases (n h : Z) (sample : list nat -> R) :
  Embedding_new n h sample = Raise ValueError \/
  exists w, Embedding_new n h sample = OK w.
Proof.
  unfold Embedding_new.
  destruct ((n <=? 0)%Z || (h <=? 0)%Z); [left | right; eexists]; reflexivity.
Qed.

Lemma LayerNorm_new_ok (n : Z) (eps : R) :
  (0 < n)%Z ->
  LayerNorm_new n eps
  = OK {| ln_weight := repeat 1%R (Z.to_nat n);
          ln_bias := repeat 0%R (Z.to_nat n);
          epsilon := eps |}.
Proof.
  intros Hn. unfold LayerNorm_new.
  replace (n <=? 0)%Z with false by (symmetry; apply Z.leb_gt; lia).
  reflexivity.
Qed.

Lemma NeZhaEmbeddings_init_cases (vocab hidden : Z) (p : R) (max_pos types : Z)
  (use_rel : bool) (init : nat -> list nat -> R) (d_emb : nat -> bool) :
  (0 < hidden)%Z ->
  NeZhaEmbeddings_init vocab hidden p max_pos types use_rel init d_emb
  = Raise ValueError \/
  exists e,
    NeZhaEmbeddings_init vocab hidden p max_pos types use_rel init d_emb = OK e.
Proof.
  intros Hh. unfold NeZhaEmbeddings_init.
  destruct (Embedding_new_cases vocab hidden (init 6)) as [-> | (w & ->)];
    [left; reflexivity|].
  cbn [bind].
  destruct use_rel; cbn [negb bind].
  - destruct (Embedding_new_cases types hidden (init 8)) as [-> | (t & ->)];
      [left; reflexivity|].
    cbn [bind]. rewrite LayerNorm_new_ok by assumption.
    right. eexists. reflexivity.
  - destruct (Embedding_new_cases max_pos hidden (init 7)) as [-> | (q & ->)];
      [left; reflexivity|].
    cbn [bind].
    destruct (Embedding_new_cases types hidden (init 8)) as [-> | (t & ->)];
      [left; reflexivity|].
    cbn [bind]. rewrite LayerNorm_new_ok by assumption.
    right. eexists. reflexivity.
Qed.

Lemma NeZhaEmbeddings_init_ok (vocab hidden : Z) (p : R) (max_pos types : Z)
  (use_rel : bool) (init : nat -> list nat -> R) (d_emb : nat -> bool) :
  (0 < vocab)%Z -> (0 < hidden)%Z -> (0 < types)%Z ->
  (use_rel = false -> (0 < max_pos)%Z) ->
  exists e,
    NeZhaEmbeddings_init vocab hidden p max_pos types use_rel init d_emb = OK e /\
    use_relative_position e = use_rel /\
    shape (word_embeddings e) = [Z.to_nat vocab; Z.to_nat hidden] /\
    shape (token_type_embeddings e) = [Z.to_nat types; Z.to_nat hidden] /\
    length (ln_weight (emb_layer_norm e)) = Z.to_nat hidden /\
    length (ln_bias (emb_layer_norm e)) = Z.to_nat hidden.
Proof.
  intros Hv Hh Ht Hp. unfold NeZhaEmbeddings_init.
  rewrite Embedding_new_ok by assumption. cbn [bind].
  destruct use_rel; cbn [negb bind].
  - rewrite Embedding_new_ok by assumption. cbn [bind].
    rewrite LayerNorm_new_ok by assumption. cbn [bind].
    eexists. split; [reflexivity|]. cbn. rewrite !repeat_length. auto.
  - rewrite Embedding_new_ok by auto. cbn [bind].
    rewrite Embedding_new_ok by assumption. cbn [bind].
    rewrite LayerNorm_new_ok by assumption. cbn [bind].
    eexists. split; [reflexivity|]. cbn. rewrite !repeat_length. auto.
Qed.

Lemma attention_ok_init_weights (normal : nat -> list nat -> R)
  (a : NeZhaAttention) (hidden len : nat) :
  attention_ok hidden len a -> attention_ok hidden len (init_weights_attention normal a).
Proof. intros []. constructor; cbn; assumption. Qed.

Lemma layer_ok_init_weights (normal : nat -> list nat -> R)
  (l : NeZhaLayer) (hidden inter len : nat) :
  layer_ok hidden inter len l -> layer_ok hidden inter len (init_weights_layer normal l).
Proof.
  intros []. constructor; cbn; try assumption.
  apply attention_ok_init_weights. assumption.
Qed.

Lemma init_weights_layers_spec (P : NeZhaLayer -> Prop)
  (normal : nat -> list nat -> R) (layers : list NeZhaLayer) (k : nat) :
  (forall normal' l, In l layers -> P (init_weights_layer normal' l)) ->
  length (init_weights_layers normal k layers) = length layers /\
  Forall P (init_weights_layers normal k layers).
Proof.
  revert k. induction layers as [|l rest IH]; intros k HP; cbn [init_weights_layers].
  - split; [reflexivity | constructor].
  - destruct (IH (S k)) as [Hlen Hall]; [intros; apply HP; right; assumption|].
    split; [cbn [length]; f_equal; assumption|].
    constructor; [apply HP; left; reflexivity | assumption].
Qed.

Lemma NeZhaLayer_init_ok (F_gelu : R -> R)
  (hidden heads inter : Z) (act_name : string) (act : R -> R) (p1 p2 : R)
  (m : Z) (eps : R) (init : nat -> list nat -> R) (d1 d2 d3 : nat -> bool) :
  (0 < hidden)%Z -> (0 < heads)%Z -> (hidden mod heads = 0)%Z ->
  (0 < inter)%Z -> (0 <= m < 2 ^ 62)%Z ->
  ACT2FN F_gelu act_name = Some act ->
  exists l,
    NeZhaLayer_init F_gelu hidden heads inter act_name p1 p2 m eps init d1 d2 d3
    = OK l /\
    layer_ok (Z.to_nat hidden) (Z.to_nat inter) 512 l /\
    Z.of_nat (attention_head_size (attention l)) = (hidden / heads)%Z.
Proof.
  intros Hh Hheads Hmod Hi Hm Hact. unfold NeZhaLayer_init.
  rewrite LayerNorm_new_ok by lia. cbn [bind].
  destruct (NeZhaAttention_init_ok hidden heads p1 p2 m eps init d1 d2
              Hh Hheads Hmod Hm) as (a & Ea & Hok & Hsize & _).
  rewrite Ea; cbn [bind].
  destruct (Linear_new_ok hidden inter (init 4)) as (f1 & E1 & W1 & B1); [lia | lia |].
  destruct (Linear_new_ok inter hidden (init 5)) as (f2 & E2 & W2 & B2); [lia | lia |].
  rewrite E1, E2; cbn [bind]. rewrite Hact.
  eexists. split; [reflexivity|]. split; [|exact Hsize].
  constructor; cbn; try assumption; apply repeat_length.
Qed.

Lemma NeZhaModel_init_ok (F_gelu : R -> R) (cfg : NeZhaConfig) (act : R -> R)
  (init normal : nat -> list nat -> R) (d_emb d_hidden d_attn d_ffn : nat -> bool) :
  (0 < cfg_vocab_size cfg)%Z -> (0 < cfg_type_vocab_size cfg)%Z ->
  (0 < cfg_hidden_size cfg)%Z -> (0 < cfg_num_attention_heads cfg)%Z ->
  (cfg_hidden_size cfg mod cfg_num_attention_heads cfg = 0)%Z ->
  (0 < cfg_intermediate_size cfg)%Z ->
  (0 <= cfg_max_relative_position cfg < 2 ^ 62)%Z ->
  cfg_use_relative_position cfg = true ->
  ACT2FN F_gelu (cfg_hidden_act cfg) = Some act ->
  exists self,
    NeZhaModel_init F_gelu cfg init normal d_emb d_hidden d_attn d_ffn = OK self /\
    model_ok (Z.to_nat (cfg_vocab_size cfg)) (Z.to_nat (cfg_type_vocab_size cfg))
             (Z.to_nat (cfg_hidden_size cfg)) (Z.to_nat (cfg_intermediate_size cfg))
             512 self /\
    length (layer (encoder self)) = Z.to_nat (cfg_num_hidden_layers cfg) /\
    epsilon (emb_layer_norm (embeddings self)) = 1e-12%R /\
    Forall (fun l =>
              epsilon (layer_layer_norm l) = 1e-12%R /\
              epsilon (layer_norm (attention l)) = 1e-12%R /\
              Z.of_nat (attention_head_size (attention l))
              = (cfg_hidden_size cfg / cfg_num_attention_heads cfg)%Z)
           (layer (encoder self)).
Proof.
  intros Hv Ht Hh Hheads Hmod Hi Hm Hrel Hact. unfold NeZhaModel_init.
  destruct (NeZhaEmbeddings_init_ok (cfg_vocab_size cfg) (cfg_hidden_size cfg)
              (cfg_hidden_dropout_prob cfg) (cfg_max_position_embeddings cfg)
              (cfg_type_vocab_size cfg) (cfg_use_relative_position cfg) init d_emb)
    as (e & Ee & Erel & Sw & St & Lw & Lb); try lia.
  { rewrite Hrel. discriminate. }
  rewrite Ee; cbn [bind]. unfold NeZhaEncoder_init.
  destruct (NeZhaLayer_init_ok F_gelu (cfg_hidden_size cfg)
              (cfg_num_attention_heads cfg) (cfg_intermediate_size cfg)
              (cfg_hidden_act cfg) act (cfg_hidden_dropout_prob cfg)
              (cfg_attention_probs_dropout_prob cfg) (cfg_max_relative_position cfg)
              (cfg_layer_norm_eps cfg) init d_hidden d_attn d_ffn
              Hh Hheads Hmod Hi Hm Hact) as (l & El & Hl & Hsize).
  rewrite El; cbn [bind]. unfold NeZhaPooler_init.
  destruct (Linear_new_ok (cfg_hidden_size cfg) (cfg_hidden_size cfg) (init 9))
    as (pd & Epd & Wpd & Bpd); [lia | lia |].
  rewrite Epd; cbn [bind].
  eexists. split; [reflexivity|].
  cbn [layer encoder embeddings pooler pooler_dense].
  set (n := Z.to_nat (cfg_num_hidden_layers cfg)).
  destruct (init_weights_layers_spec
              (fun l' => layer_ok (Z.to_nat (cfg_hidden_size cfg))
                           (Z.to_nat (cfg_intermediate_size cfg)) 512 l' /\
                         epsilon (layer_layer_norm l') = 1e-12%R /\
                         epsilon (layer_norm (attention l')) = 1e-12%R /\
                         Z.of_nat (attention_head_size (attention l'))
                         = (cfg_hidden_size cfg / cfg_num_attention_heads cfg)%Z)
              normal (repeat l n) 0) as [Hlen Hall].
  { intros normal' l' Hin. apply repeat_spec in Hin. subst l'.
    split; [apply layer_ok_init_weights; assumption|].
    cbn. auto. }
  rewrite repeat_length in Hlen.
  split; [|split; [exact Hlen | split; [reflexivity|]]].
  - constructor; cbn; try assumption.
    + rewrite Hrel in Erel. exact Erel.
    + eapply Forall_impl; [|exact Hall]. intros a Ha. apply Ha.
  - eapply Forall_impl; [|exact Hall]. intros a Ha. apply Ha.
Qed.

End ModelConstruction.

(** X12: NeZhaModel.__init__ raises ValueError when hidden_size is not a
    multiple of num_attention_heads (the other sizes being valid): the check
    of the attention layer is reached and fails. *)
Theorem NeZhaModel_init_not_divisible
  (F_gelu : R -> R) (cfg : NeZha.NeZhaConfig)
  (init normal : nat -> list nat -> R) (d_emb d_hidden d_attn d_ffn : nat -> bool) :
  (0 <= NeZha.cfg_vocab_size cfg)%Z -> (0 <= NeZha.cfg_type_vocab_size cfg)%Z ->
  (NeZha.cfg_use_relative_position cfg = false ->
   (0 <= NeZha.cfg_max_position_embeddings cfg)%Z) ->
  (0 < NeZha.cfg_hidden_size cfg)%Z -> (0 < NeZha.cfg_num_attention_heads cfg)%Z ->
  (NeZha.cfg_hidden_size cfg mod NeZha.cfg_num_attention_heads cfg <> 0)%Z ->
  NeZha.NeZhaModel_init F_gelu cfg init normal d_emb d_hidden d_attn d_ffn
  = Raise ValueError.
Proof.
  intros Hv Ht Hp Hh Hheads Hmod. unfold NeZha.NeZhaModel_init.
  destruct (NeZhaEmbeddings_init_cases (NeZha.cfg_vocab_size cfg)
              (NeZha.cfg_hidden_size cfg) (NeZha.cfg_hidden_dropout_prob cfg)
              (NeZha.cfg_max_position_embeddings cfg) (NeZha.cfg_type_vocab_size cfg)
              (NeZha.cfg_use_relative_position cfg) init d_emb Hh)
    as [Ee | (e & Ee)]; rewrite Ee; cbn [bind]; [reflexivity|].
  unfold NeZha.NeZhaEncoder_init, NeZha.NeZhaLayer_init.
  rewrite LayerNorm_new_ok by lia. cbn [bind].
  rewrite NeZhaAttention_init_raises by assumption. reflexivity.
Qed.

Lemma NeZhaModel_init_not_divisible_witness :
  let cfg :=
    {| NeZha.cfg_vocab_size := 8;
       NeZha.cfg_hidden_size := 6;
       NeZha.cfg_num_hidden_layers := 2;
       NeZha.cfg_num_attention_heads := 4;
       NeZha.cfg_intermediate_size := 8;
       NeZha.cfg_hidden_act := "relu";
       NeZha.cfg_hidden_dropout_prob := 0%R;
       NeZha.cfg_attention_probs_dropout_prob := 0%R;
       NeZha.cfg_max_position_embeddings := 512;
       NeZha.cfg_type_vocab_size := 2;
       NeZha.cfg_initializer_range := 0%R;
       NeZha.cfg_max_relative_position := 64;
       NeZha.cfg_layer_norm_eps := 0%R;
       NeZha.cfg_use_relative_position := true |} in
  NeZha.NeZhaModel_init (fun x => x) cfg (fun _ _ => 0%R) (fun _ _ => 0%R)
    (fun _ => true) (fun _ => true) (fun _ => true) (fun _ => true)
  = Raise ValueError.
Proof.
  intros cfg. apply NeZhaModel_init_not_divisible; cbn; try lia; discriminate.
Defined.

(** X13: with positive sizes, a known activation and relative positions on,
    NeZhaModel.__init__ succeeds and builds num_hidden_layers layers of the
    shapes forward needs, each with a table of length 512 and head size
    hidden_size / num_attention_heads; init_weights leaves every layer norm
    with epsilon 1e-12, whatever layer_norm_eps was configured. *)
Theorem NeZhaModel_init_succeeds
  (F_gelu : R -> R) (cfg : NeZha.NeZhaConfig) (act : R -> R)
  (init normal : nat -> list nat -> R) (d_emb d_hidden d_attn d_ffn : nat -> bool) :
  (0 < NeZha.cfg_vocab_size cfg)%Z -> (0 < NeZha.cfg_type_vocab_size cfg)%Z ->
  (0 < NeZha.cfg_hidden_size cfg)%Z -> (0 < NeZha.cfg_num_attention_heads cfg)%Z ->
  (NeZha.cfg_hidden_size cfg mod NeZha.cfg_num_attention_heads cfg = 0)%Z ->
  (0 < NeZha.cfg_intermediate_size cfg)%Z ->
  (0 <= NeZha.cfg_max_relative_position cfg < 2 ^ 62)%Z ->
  NeZha.cfg_use_relative_position cfg = true ->
  NeZha.ACT2FN F_gelu (NeZha.cfg_hidden_act cfg) = Some act ->
  exists self,
    NeZha.NeZhaModel_init F_gelu cfg init normal d_emb d_hidden d_attn d_ffn
    = OK self /\
    NeZha.model_ok (Z.to_nat (NeZha.cfg_vocab_size cfg))
      (Z.to_nat (NeZha.cfg_type_vocab_size cfg))
      (Z.to_nat (NeZha.cfg_hidden_size cfg))
      (Z.to_nat (NeZha.cfg_intermediate_size cfg)) 512 self /\
    length (NeZha.layer (NeZha.encoder self))
    = Z.to_nat (NeZha.cfg_num_hidden_layers cfg) /\
    epsilon (NeZha.emb_layer_norm (NeZha.embeddings self)) = 1e-12%R /\
    Forall (fun l =>
              epsilon (NeZha.layer_layer_norm l) = 1e-12%R /\
              epsilon (NeZha.layer_norm (NeZha.attention l)) = 1e-12%R /\
              Z.of_nat (NeZha.attention_head_size (NeZha.attention l))
              = (NeZha.cfg_hidden_size cfg / NeZha.cfg_num_attention_heads cfg)%Z)
           (NeZha.layer (NeZha.encoder self)).
Proof. apply NeZhaModel_init_ok. Qed.

Lemma NeZhaModel_init_succeeds_witness :
  let cfg := Examples.tiny_config in
  exists self,
    NeZha.NeZhaModel_init (fun x => x) cfg (fun _ _ => 0%R) (fun _ _ => 0%R)
      (fun _ => true) (fun _ => true) (fun _ => true) (fun _ => true)
    = OK self /\
    NeZha.model_ok (Z.to_nat (NeZha.cfg_vocab_size cfg))
      (Z.to_nat (NeZha.cfg_type_vocab_size cfg))
      (Z.to_nat (NeZha.cfg_hidden_size cfg))
      (Z.to_nat (NeZha.cfg_intermediate_size cfg)) 512 self /\
    length (NeZha.layer (NeZha.encoder self))
    = Z.to_nat (NeZha.cfg_num_hidden_layers cfg) /\
    epsilon (NeZha.emb_layer_norm (NeZha.embeddings self)) = 1e-12%R /\
    Forall (fun l =>
              epsilon (NeZha.layer_layer_norm l) = 1e-12%R /\
              epsilon (NeZha.layer_norm (NeZha.attention l)) = 1e-12%R /\
              Z.of_nat (NeZha.attention_head_size (NeZha.attention l))
              = (NeZha.cfg_hidden_size cfg / NeZha.cfg_num_attention_heads cfg)%Z)
           (NeZha.layer (NeZha.encoder self)).
Proof.
  intros cfg.
  apply (NeZhaModel_init_succeeds (fun x => x) cfg NeZha.relu);
    cbn; try lia; reflexivity.
Defined.

(** X14: the token ids get_discriminator_inputs decodes from the one-hot
    sample of sample_from_softmax are exactly the argmax of
    softmax(logits + noise) computed inside it, with or without sampling and
    whatever the rounding of the float type: the argmax of a one-hot
    encoding gives back the encoded class. *)
Theorem sampled_tokids_is_softmax_sample (rnd : R -> R)
  (logits : tensor R) (use_softmax_sample : bool) (rng : nat -> R) (b l v : nat) :
  shape logits = [b; l; v] -> 0 < v ->
  let gumbel_noise :=
    if use_softmax_sample then
      map1 (fun u => (- ln (- ln (u + 1e-9) + 1e-9))%R) (rand (shape logits) rng)
    else zeros (shape logits) in
  exists noisy softmax_sample sampled_tokens,
    add logits gumbel_noise = OK noisy /\
    argmax (softmax_rounded rnd noisy) = OK softmax_sample /\
    Electra.sample_from_softmax rnd logits use_softmax_sample rng
    = OK sampled_tokens /\
    shape sampled_tokens = [b; l; v] /\
    argmax sampled_tokens = OK softmax_sample.
Proof.
  intros Sl Hv noise.
  destruct (sample_from_softmax_trace rnd logits use_softmax_sample rng b l v Sl Hv)
    as (noisy & ids & st & E1 & E2 & E3 & S3 & E4 & _).
  exists noisy, ids, st. repeat split; assumption.
Qed.

Lemma sampled_tokids_is_softmax_sample_witness :
  let logits := Tensor [1; 2; 3] [0%R; 1%R; 0%R; 0%R; 0%R; 1%R] in
  let gumbel_noise :=
    map1 (fun u => (- ln (- ln (u + 1e-9) + 1e-9))%R)
         (rand (shape logits) (fun _ => 0.5%R)) in
  exists noisy softmax_sample sampled_tokens,
    add logits gumbel_noise = OK noisy /\
    argmax (softmax_rounded round32 noisy) = OK softmax_sample /\
    Electra.sample_from_softmax round32 logits true (fun _ => 0.5%R)
    = OK sampled_tokens /\
    shape sampled_tokens = [1; 2; 3] /\
    argmax sampled_tokens = OK softmax_sample.
Proof.
  intros logits.
  apply (sampled_tokids_is_softmax_sample round32 logits true (fun _ => 0.5%R) 1 2 3).
  - reflexivity.
  - lia.
Defined.


(** X15: when every input token is a token of the vocabulary,
    get_discriminator_inputs succeeds and every token of the updated inputs
    and every sampled token is again a token of the vocabulary, and every
    discriminator label is 0 or 1. *)
Theorem discriminator_inputs_stay_in_vocabulary (rnd : R -> R)
  (inputs raw_inputs : tensor Z) (gen_logits : tensor R) (gen_labels : tensor Z)
  (use_softmax_sample : bool) (rng : nat -> R) (b l v : nat) :
  shape inputs = [b; l] -> wf inputs ->
  Forall (fun z => (0 <= z < Z.of_nat v)%Z) (data inputs) ->
  shape raw_inputs = [b; l] ->
  shape gen_logits = [b; l; v] -> 0 < v -> (Z.of_nat v <= 2 ^ 63)%Z ->
  shape gen_labels = [b; l] -> wf gen_labels ->
  exists updated_inputs labels sampled_tokids,
    Electra.get_discriminator_inputs rnd inputs raw_inputs gen_logits gen_labels
      use_softmax_sample rng = OK (updated_inputs, labels, sampled_tokids) /\
    Forall (fun z => (0 <= z < Z.of_nat v)%Z) (data updated_inputs) /\
    Forall (fun z => (0 <= z < Z.of_nat v)%Z) (data sampled_tokids) /\
    Forall (fun z => z = 0%Z \/ z = 1%Z) (data labels).
Proof.
  intros Si Wi Ri Sr Sg Hv Hv63 Sl Wl.
  assert (Ri' : Forall int64_range (data inputs)).
  { eapply Forall_impl; [|exact Ri]. intros z Hz. unfold int64_range. cbn beta in Hz. lia. }
  destruct (get_discriminator_inputs_values rnd inputs raw_inputs gen_logits
              gen_labels use_softmax_sample rng b l v Si Wi Ri' Sr Sg Hv Hv63 Sl Wl)
    as (noisy & upd & labels & ids & _ & _ & E & (Su & Wu) & (Slab & Wlab)
        & (Sids & Wids) & Rids & G).
  exists upd, labels, ids. split; [exact E|].
  split; [|split; [exact Rids|]].
  - apply Forall_data; [assumption|]. rewrite Su. intros idx Hidx.
    destruct (in_bounds_2 _ _ _ Hidx) as (ib & il & -> & Hb & Hl).
    destruct (G ib il Hb Hl) as [-> _].
    destruct (get gen_labels [ib; il] =? -100)%Z.
    + apply (get_Forall (fun z => (0 <= z < Z.of_nat v)%Z));
        [assumption | assumption | rewrite Si; exact Hidx].
    + apply (get_Forall (fun z => (0 <= z < Z.of_nat v)%Z));
        [assumption | assumption | rewrite Sids; exact Hidx].
  - apply Forall_data; [assumption|]. rewrite Slab. intros idx Hidx.
    destruct (in_bounds_2 _ _ _ Hidx) as (ib & il & -> & Hb & Hl).
    destruct (G ib il Hb Hl) as [_ ->].
    destruct (get gen_labels [ib; il] =? -100)%Z; [left; reflexivity|].
    destruct (get upd [ib; il] =? get raw_inputs [ib; il])%Z; auto.
Qed.

Lemma discriminator_inputs_stay_in_vocabulary_witness :
  let inputs := Tensor [1; 2] [2%Z; 1%Z] in
  let raw_inputs := Tensor [1; 2] [0%Z; 1%Z] in
  let gen_logits := Tensor [1; 2; 3] [0%R; 1%R; 0%R; 0%R; 0%R; 1%R] in
  let gen_labels := Tensor [1; 2] [0%Z; (-100)%Z] in
  exists updated_inputs labels sampled_tokids,
    Electra.get_discriminator_inputs round32 inputs raw_inputs gen_logits
      gen_labels true (fun _ => 0.5%R) = OK (updated_inputs, labels, sampled_tokids) /\
    Forall (fun z => (0 <= z < Z.of_nat 3)%Z) (data updated_inputs) /\
    Forall (fun z => (0 <= z < Z.of_nat 3)%Z) (data sampled_tokids) /\
    Forall (fun z => z = 0%Z \/ z = 1%Z) (data labels).
Proof.
  intros inputs raw_inputs gen_logits gen_labels.
  apply (discriminator_inputs_stay_in_vocabulary round32 inputs raw_inputs
           gen_logits gen_labels true (fun _ => 0.5%R) 1 2 3).
  - reflexivity.
  - reflexivity.
  - repeat constructor; cbn; lia.
  - reflexivity.
  - reflexivity.
  - lia.
  - cbn; lia.
  - reflexivity.
  - reflexivity.
Defined.

(** ** Position ids, embeddings and the padding mask of ELECTRA *)

Section ElectraInputs.

Import Electra.

Lemma cumsum_row_ones (n : nat) (acc : Z) :
  (0 <= acc)%Z -> (acc + Z.of_nat n < 2 ^ 63)%Z ->
  cumsum_row acc (repeat 1%Z n)
  = map (fun i => (acc + 1 + Z.of_nat i)%Z) (seq 0 n).
Proof.
  revert acc. induction n as [|n IH]; intros acc Ha Hn; [reflexivity|].
  cbn [repeat cumsum_row seq map].
  assert (E : add64 acc 1 = (acc + 1)%Z)
    by (apply wrap64_small; unfold int64_range; lia).
  rewrite E, IH by lia. f_equal; [lia|].
  rewrite <- seq_shift, map_map. apply map_ext. intros i. lia.
Qed.

Lemma repeat_concat {A : Type} (x : A) (b l : nat) :
  repeat x (b * l) = concat (repeat (repeat x l) b).
Proof.
  induction b as [|b IH]; [reflexivity|].
  cbn [Nat.mul repeat concat]. rewrite repeat_app, IH. reflexivity.
Qed.

Lemma map_repeat {A B : Type} (f : A -> B) (x : A) (n : nat) :
  map f (repeat x n) = repeat (f x) n.
Proof. induction n as [|n IH]; [reflexivity|]. cbn [repeat map]. f_equal. exact IH. Qed.

Lemma default_position_ids_ok (input_ids : tensor Z) (b l : nat) :
  shape input_ids = [b; l] -> (Z.of_nat l < 2 ^ 63)%Z ->
  exists position_ids,
    default_position_ids input_ids = OK position_ids /\
    shape position_ids = [b; l] /\ wf position_ids /\
    forall ib il, ib < b -> il < l -> get position_ids [ib; il] = Z.of_nat il.
Proof.
  intros Si Hl. unfold default_position_ids, subtract_int.
  rewrite map2_same_shape by reflexivity.
  eexists. split; [reflexivity|]. rewrite shape_build.
  cbn [cumsum shape ones_like full]. rewrite Si.
  split; [reflexivity|]. split; [apply wf_build|].
  intros ib il Hb Hil.
  rewrite get_build by (simpl; lia).
  unfold ones_like. rewrite Si. rewrite get_full by (simpl; lia).
  unfold get, cumsum. cbn [shape data full].
  change (last_dim [b; l]) with l.
  replace (numel [b; l]) with (b * l) by (cbn [numel fold_right]; lia).
  rewrite repeat_concat.
  rewrite rows_concat
    by (try lia; apply Forall_forall; intros r Hr;
        apply repeat_spec in Hr; subst r; apply repeat_length).
  rewrite map_repeat, cumsum_row_ones by lia.
  set (row := map _ (seq 0 l)).
  assert (Lrow : length row = l) by (unfold row; rewrite length_map, length_seq; reflexivity).
  replace (ravel [b; l] [ib; il]) with (ib * length row + il)
    by (rewrite Lrow; cbn [ravel numel fold_right]; lia).
  rewrite nth_concat_repeat by (rewrite ?Lrow; assumption).
  unfold row. rewrite nth_map_seq by assumption.
  unfold sub64. rewrite wrap64_small by (unfold int64_range; lia). lia.
Qed.

Lemma valid_ids_true (n : nat) (ids : tensor Z) :
  wf ids ->
  (forall idx, in_bounds (shape ids) idx -> (0 <= get ids idx < Z.of_nat n)%Z) ->
  valid_ids n ids = true.
Proof.
  intros Wi Hr. unfold valid_ids. apply forallb_forall.
  pose proof (Forall_data (fun z => (0 <= z < Z.of_nat n)%Z) ids Wi Hr) as Hall.
  rewrite Forall_forall in Hall. intros z Hz. specialize (Hall z Hz). cbn beta in Hall.
  apply andb_true_iff; split; [apply Z.leb_le | apply Z.ltb_lt]; lia.
Qed.

Lemma valid_ids_false (n : nat) (ids : tensor Z) (idx : list nat) :
  wf ids -> in_bounds (shape ids) idx -> (Z.of_nat n <= get ids idx)%Z ->
  valid_ids n ids = false.
Proof.
  intros Wi Hb Hge. destruct (valid_ids n ids) eqn:Hv; [|reflexivity].
  unfold valid_ids in Hv. rewrite forallb_forall in Hv.
  assert (Hall : Forall (fun z => (z < Z.of_nat n)%Z) (data ids)).
  { apply Forall_forall. intros z Hz. specialize (Hv z Hz).
    apply andb_true_iff in Hv. destruct Hv as [_ Hv]. apply Z.ltb_lt in Hv. exact Hv. }
  pose proof (get_Forall _ ids idx Wi Hall Hb) as Hlt. cbn beta in Hlt. lia.
Qed.

Lemma default_position_ids_valid (input_ids : tensor Z) (b l positions : nat) :
  shape input_ids = [b; l] -> (Z.of_nat l < 2 ^ 63)%Z ->
  exists position_ids,
    default_position_ids input_ids = OK position_ids /\
    shape position_ids = [b; l] /\
    (l <= positions -> valid_ids positions position_ids = true) /\
    (0 < b -> positions < l -> valid_ids positions position_ids = false).
Proof.
  intros Si Hl.
  destruct (default_position_ids_ok input_ids b l Si Hl) as (p & Ep & Sp & Wp & Gp).
  exists p. split; [exact Ep|]. split; [exact Sp|]. split.
  - intros Hle. apply valid_ids_true; [assumption|]. rewrite Sp. intros idx Hidx.
    destruct (in_bounds_2 _ _ _ Hidx) as (ib & il & -> & Hb & Hil).
    rewrite Gp by assumption. lia.
  - intros Hb Hlt. apply (valid_ids_false positions p [0; l - 1]); [assumption | |].
    + rewrite Sp. simpl. lia.
    + rewrite Gp by lia. lia.
Qed.

Lemma valid_ids_zeros_like {A : Type} (x : tensor A) (n : nat) :
  0 < n -> valid_ids n (zeros_like x) = true.
Proof.
  intros Hn. unfold valid_ids. apply forallb_forall. intros z Hz.
  unfold zeros_like, full in Hz. cbn [data] in Hz. apply repeat_spec in Hz. subst z.
  apply andb_true_iff; split; [reflexivity | apply Z.ltb_lt; lia].
Qed.

Lemma ElectraEmbeddings_forward_ok (self : ElectraEmbeddings)
  (input_ids : tensor Z) (vocab positions types e b l : nat) :
  shape (word_embeddings self) = [vocab; e] ->
  shape (position_embeddings self) = [positions; e] ->
  shape (token_type_embeddings self) = [types; e] ->
  length (ln_weight (layer_norm self)) = e ->
  length (ln_bias (layer_norm self)) = e ->
  shape input_ids = [b; l] -> (Z.of_nat l < 2 ^ 63)%Z ->
  valid_ids vocab input_ids = true -> 0 < types ->
  (l <= positions ->
   exists out, ElectraEmbeddings_forward self input_ids None None = OK out /\
               shape out = [b; l; e]) /\
  (0 < b -> positions < l ->
   ElectraEmbeddings_forward self input_ids None None = Raise ValueError).
Proof.
  intros Sw Sp St Lw Lb Si Hl Hv Ht.
  destruct (default_position_ids_valid input_ids b l positions Si Hl)
    as (p & Ep & Spos & Vtrue & Vfalse).
  unfold ElectraEmbeddings_forward. rewrite Ep; cbn [bind].
  destruct (Embedding_forward_ok _ _ _ _ Sw Hv) as (we & Ewe & Swe & _).
  rewrite Ewe; cbn [bind]. split.
  - intros Hle.
    destruct (Embedding_forward_ok _ _ _ _ Sp (Vtrue Hle)) as (pe & Epe & Spe & _).
    destruct (Embedding_forward_ok _ _ _ _ St (valid_ids_zeros_like input_ids types Ht))
      as (te & Ete & Ste & _).
    rewrite Epe; cbn [bind]. rewrite Ete; cbn [bind].
    unfold add. rewrite map2_same_shape by congruence. cbn [bind].
    rewrite map2_same_shape
      by (rewrite shape_build, Ste, Swe; cbn [zeros_like full shape]; congruence).
    cbn [bind]. rewrite !shape_build.
    match goal with
    | |- context [LayerNorm_forward ?ln ?x] =>
        destruct (LayerNorm_forward_ok ln x) as (y & Ey & Sy)
    end.
    + rewrite shape_build, Swe, Si, Lw. reflexivity.
    + rewrite shape_build, Swe, Si, Lb. reflexivity.
    + rewrite Ey; cbn [bind]. eexists. split; [reflexivity|].
      rewrite shape_Dropout_forward, Sy, shape_build, Swe, Si. reflexivity.
  - intros Hb Hlt.
    rewrite (Embedding_forward_raises _ _ _ _ Sp (Vfalse Hb Hlt)). reflexivity.
Qed.

Lemma default_attention_mask_ok (input_ids : tensor Z) (pad : Z) (b l : nat) :
  shape input_ids = [b; l] -> wf input_ids ->
  exists m,
    default_attention_mask input_ids pad = OK m /\
    shape m = [b; 1; 1; l] /\ wf m /\
    forall ib il, ib < b -> il < l ->
      get m [ib; 0; 0; il]
      = if (get input_ids [ib; il] =? pad)%Z then (-1e9)%R else 0%R.
Proof.
  intros Si Wi. unfold default_attention_mask, unsqueeze.
  cbn [map1 astype_float astype_int shape data]. rewrite Si.
  cbn [length Nat.leb firstn skipn app bind shape data].
  eexists. split; [reflexivity|]. split; [reflexivity|]. split.
  - unfold wf; cbn [shape data]. rewrite !length_map, Wi, Si.
    cbn [numel fold_right]. lia.
  - intros ib il Hb Hl. unfold get; cbn [shape data]. rewrite Si.
    replace (ravel [b; 1; 1; l] [ib; 0; 0; il]) with (ravel [b; l] [ib; il])
      by (cbn [ravel numel fold_right]; lia).
    assert (Hlt : ravel [b; l] [ib; il] < length (data input_ids)).
    { rewrite Wi, Si. apply ravel_lt. simpl. lia. }
    rewrite !map_map.
    match goal with
    | |- nth ?k (map ?f ?d) _ = _ =>
        rewrite (nth_indep (map f d) dflt (f 0%Z)) by (rewrite length_map; exact Hlt);
        rewrite (map_nth f d 0%Z k)
    end.
    change (@dflt Z Default_Z) with 0%Z. cbv beta.
    destruct (nth (ravel [b; l] [ib; il]) (data input_ids) 0 =? pad)%Z; lra.
Qed.

End ElectraInputs.

(** X16: the position ids ElectraEmbeddings.forward makes when none are
    given depend only on the shape of input_ids: the id at row ib and
    column il is il. *)
Theorem default_position_ids_are_columns (input_ids : tensor Z) (b l : nat) :
  shape input_ids = [b; l] -> (Z.of_nat l < 2 ^ 63)%Z ->
  exists position_ids,
    Electra.default_position_ids input_ids = OK position_ids /\
    shape position_ids = [b; l] /\ wf position_ids /\
    forall ib il, ib < b -> il < l -> get position_ids [ib; il] = Z.of_nat il.
Proof. apply default_position_ids_ok. Qed.

Lemma default_position_ids_are_columns_witness :
  let input_ids := Tensor [2; 3] [5%Z; 0%Z; 7%Z; 1%Z; 1%Z; 0%Z] in
  exists position_ids,
    Electra.default_position_ids input_ids = OK position_ids /\
    shape position_ids = [2; 3] /\ wf position_ids /\
    forall ib il, ib < 2 -> il < 3 -> get position_ids [ib; il] = Z.of_nat il.
Proof.
  intros input_ids. apply (default_position_ids_are_columns input_ids 2 3).
  - reflexivity.
  - cbn; lia.
Defined.

(** X17: ElectraEmbeddings.forward, given only input_ids, within the
    vocabulary and no longer than the position table, succeeds with an
    output of shape [b, l, embedding_size]. *)
Theorem ElectraEmbeddings_forward_succeeds (self : Electra.ElectraEmbeddings)
  (input_ids : tensor Z) (vocab positions types e b l : nat) :
  shape (Electra.word_embeddings self) = [vocab; e] ->
  shape (Electra.position_embeddings self) = [positions; e] ->
  shape (Electra.token_type_embeddings self) = [types; e] ->
  length (ln_weight (Electra.layer_norm self)) = e ->
  length (ln_bias (Electra.layer_norm self)) = e ->
  shape input_ids = [b; l] -> (Z.of_nat l < 2 ^ 63)%Z ->
  valid_ids vocab input_ids = true -> 0 < types ->
  l <= positions ->
  exists out,
    Electra.ElectraEmbeddings_forward self input_ids None None = OK out /\
    shape out = [b; l; e].
Proof.
  intros Sw Sp St Lw Lb Si Hl Hv Ht.
  apply (ElectraEmbeddings_forward_ok self input_ids vocab positions types e b l);
    assumption.
Qed.

Lemma ElectraEmbeddings_forward_succeeds_witness :
  let input_ids := Tensor [1; 3] [5%Z; 0%Z; 7%Z] in
  exists out,
    Electra.ElectraEmbeddings_forward (Examples.tiny_embeddings 8 4 2 2)
      input_ids None None = OK out /\
    shape out = [1; 3; 2].
Proof.
  intros input_ids.
  apply (ElectraEmbeddings_forward_succeeds (Examples.tiny_embeddings 8 4 2 2)
           input_ids 8 4 2 2 1 3); try reflexivity; cbn; lia.
Defined.

(** X18: ElectraEmbeddings.forward, given only input_ids, raises ValueError
    when the sequence is longer than the position table: the position ids
    it makes run up to l - 1. *)
Theorem ElectraEmbeddings_forward_too_long (self : Electra.ElectraEmbeddings)
  (input_ids : tensor Z) (vocab positions types e b l : nat) :
  shape (Electra.word_embeddings self) = [vocab; e] ->
  shape (Electra.position_embeddings self) = [positions; e] ->
  shape (Electra.token_type_embeddings self) = [types; e] ->
  length (ln_weight (Electra.layer_norm self)) = e ->
  length (ln_bias (Electra.layer_norm self)) = e ->
  shape input_ids = [b; l] -> (Z.of_nat l < 2 ^ 63)%Z ->
  valid_ids vocab input_ids = true -> 0 < types ->
  0 < b -> positions < l ->
  Electra.ElectraEmbeddings_forward self input_ids None None = Raise ValueError.
Proof.
  intros Sw Sp St Lw Lb Si Hl Hv Ht.
  apply (ElectraEmbeddings_forward_ok self input_ids vocab positions types e b l);
    assumption.
Qed.

Lemma ElectraEmbeddings_forward_too_long_witness :
  let input_ids := Tensor [1; 3] [5%Z; 0%Z; 7%Z] in
  Electra.ElectraEmbeddings_forward (Examples.tiny_embeddings 8 2 2 2)
    input_ids None None = Raise ValueError.
Proof.
  intros input_ids.
  apply (ElectraEmbeddings_forward_too_long (Examples.tiny_embeddings 8 2 2 2)
           input_ids 8 2 2 2 1 3); try reflexivity; cbn; lia.
Defined.

(** X19: the attention mask ElectraModel.forward makes when none is given
    has shape [b, 1, 1, l] and is -1e9 at the positions of input_ids that
    hold pad_token_id and 0 at all the others. *)
Theorem default_attention_mask_values (input_ids : tensor Z) (pad : Z) (b l : nat) :
  shape input_ids = [b; l] -> wf input_ids ->
  exists m,
    Electra.default_attention_mask input_ids pad = OK m /\
    shape m = [b; 1; 1; l] /\ wf m /\
    forall ib il, ib < b -> il < l ->
      get m [ib; 0; 0; il]
      = if (get input_ids [ib; il] =? pad)%Z then (-1e9)%R else 0%R.
Proof. apply default_attention_mask_ok. Qed.

Lemma default_attention_mask_values_witness :
  let input_ids := Tensor [1; 3] [5%Z; 7%Z; 0%Z] in
  exists m,
    Electra.default_attention_mask input_ids 0 = OK m /\
    shape m = [1; 1; 1; 3] /\ wf m /\
    forall ib il, ib < 1 -> il < 3 ->
      get m [ib; 0; 0; il]
      = if (get input_ids [ib; il] =? 0)%Z then (-1e9)%R else 0%R.
Proof.
  intros input_ids. apply (default_attention_mask_values input_ids 0 1 3); reflexivity.
Defined.

(** ** The encoder input of ELECTRA, tied weights and the sign of the loss *)

Section ElectraModel.

Import Electra.

Lemma default_attention_mask_total (input_ids : tensor Z) (pad : Z) (b l : nat) :
  shape input_ids = [b; l] ->
  exists m, default_attention_mask input_ids pad = OK m.
Proof.
  intros Si. unfold default_attention_mask, unsqueeze.
  cbn [map1 astype_float astype_int shape data]. rewrite Si.
  cbn [length Nat.leb firstn skipn app bind shape data].
  eexists. reflexivity.
Qed.

Lemma t_ok (x : tensor R) (m n : nat) :
  shape x = [m; n] ->
  exists y, t x = OK y /\ shape y = [n; m] /\
    forall i j, i < m -> j < n -> get y [j; i] = get x [i; j].
Proof.
  intros Sx. unfold t. rewrite Sx.
  rewrite transpose_ok by (rewrite Sx; reflexivity).
  eexists. split; [reflexivity|]. rewrite Sx. split; [reflexivity|].
  intros i j Hi Hj. rewrite get_build by (simpl; lia). reflexivity.
Qed.










End ElectraModel.

(** X20: ElectraModel.forward, given no position ids, raises ValueError on
    a sequence longer than the position table, with or without an attention
    mask and whatever the encoder is: the embeddings fail before it is
    called. *)
Theorem ElectraModel_forward_too_long (self : Electra.ElectraModel)
  (input_ids : tensor Z) (attention_mask : option (tensor R))
  (vocab positions types e b l : nat) :
  shape (Electra.word_embeddings (Electra.embeddings self)) = [vocab; e] ->
  shape (Electra.position_embeddings (Electra.embeddings self)) = [positions; e] ->
  shape (Electra.token_type_embeddings (Electra.embeddings self)) = [types; e] ->
  length (ln_weight (Electra.layer_norm (Electra.embeddings self))) = e ->
  length (ln_bias (Electra.layer_norm (Electra.embeddings self))) = e ->
  shape input_ids = [b; l] -> (Z.of_nat l < 2 ^ 63)%Z ->
  valid_ids vocab input_ids = true -> 0 < types ->
  0 < b -> positions < l ->
  Electra.ElectraModel_forward self input_ids None None attention_mask
  = Raise ValueError.
Proof.
  intros Sw Sp St Lw Lb Si Hl Hv Ht Hb Hlt. unfold Electra.ElectraModel_forward.
  assert (Em : exists m,
             match attention_mask with
             | Some m => OK m
             | None => Electra.default_attention_mask input_ids (Electra.pad_token_id self)
             end = OK m).
  { destruct attention_mask as [m|]; [eexists; reflexivity|].
    apply (default_attention_mask_total input_ids _ b l Si). }
  destruct Em as (m & Em). rewrite Em; cbn [bind].
  destruct (ElectraEmbeddings_forward_ok (Electra.embeddings self) input_ids
              vocab positions types e b l Sw Sp St Lw Lb Si Hl Hv Ht) as [_ Hraise].
  rewrite (Hraise Hb Hlt). reflexivity.
Qed.

Lemma ElectraModel_forward_too_long_witness :
  let input_ids := Tensor [1; 3] [5%Z; 0%Z; 7%Z] in
  Electra.ElectraModel_forward (Examples.tiny_electra 8 2 2 2) input_ids None None None
  = Raise ValueError.
Proof.
  intros input_ids.
  apply (ElectraModel_forward_too_long (Examples.tiny_electra 8 2 2 2) input_ids None
           8 2 2 2 1 3); try reflexivity; cbn; lia.
Defined.

(** X21: when _tie_or_clone_weights returns, the output embeddings keep the
    shape of their weight; the new weight is the input embeddings' weight or
    its transpose, and a bias, when there is one, has as many entries as the
    weight has columns. *)
Theorem tie_or_clone_weights_keeps_shape
  (output_weight : tensor R) (output_bias : option (tensor R))
  (input_weight new_weight : tensor R) :
  Electra.tie_or_clone_weights output_weight output_bias input_weight = OK new_weight ->
  shape new_weight = shape output_weight /\
  (new_weight = input_weight \/ t input_weight = OK new_weight) /\
  (forall b, output_bias = Some b ->
             last_dim (shape output_weight) = nth 0 (shape b) 0).
Proof.
  unfold Electra.tie_or_clone_weights. intros E.
  assert (Hw : shape new_weight = shape output_weight /\
               (new_weight = input_weight \/ t input_weight = OK new_weight) /\
               (forall b, output_bias = Some b ->
                          last_dim (shape new_weight) = nth 0 (shape b) 0)).
  { destruct (list_eq_dec Nat.eq_dec (shape output_weight) (shape input_weight))
      as [Es | Ns]; cbn [bind] in E.
    - destruct output_bias as [b|].
      + destruct (Nat.eqb_spec (last_dim (shape input_weight)) (nth 0 (shape b) 0))
          as [Eb | Nb]; [|discriminate].
        injection E as <-. split; [congruence|]. split; [left; reflexivity|].
        intros b' Eb'. injection Eb' as <-. exact Eb.
      + injection E as <-. split; [congruence|]. split; [left; reflexivity|].
        intros b' Eb'. discriminate.
    - destruct (t input_weight) as [tr | err]; cbn [bind] in E; [|discriminate].
      destruct (list_eq_dec Nat.eq_dec (shape output_weight) (shape tr))
        as [Et | Nt]; cbn [bind] in E; [|discriminate].
      destruct output_bias as [b|].
      + destruct (Nat.eqb_spec (last_dim (shape tr)) (nth 0 (shape b) 0))
          as [Eb | Nb]; [|discriminate].
        injection E as <-. split; [congruence|]. split; [right; reflexivity|].
        intros b' Eb'. injection Eb' as <-. exact Eb.
      + injection E as <-. split; [congruence|]. split; [right; reflexivity|].
        intros b' Eb'. discriminate. }
  destruct Hw as (Hs & Hor & Hb). rewrite Hs in Hb. auto.
Qed.

Lemma tie_or_clone_weights_keeps_shape_witness :
  let output_weight := zeros [2; 3] in
  let input_weight := full [3; 2] 1%R in
  exists new_weight,
    Electra.tie_or_clone_weights output_weight (Some (zeros [3])) input_weight
    = OK new_weight /\
    shape new_weight = shape output_weight /\
    (new_weight = input_weight \/ t input_weight = OK new_weight) /\
    (forall b, Some (zeros [3]) = Some b ->
               last_dim (shape output_weight) = nth 0 (shape b) 0).
Proof.
  intros output_weight input_weight. eexists.
  assert (E : Electra.tie_or_clone_weights output_weight (Some (zeros [3])) input_weight
              = OK (build [2; 3] (fun idx =>
                      get input_weight
                        (map (fun c => nth (index_of c [1; 0]) idx 0) (seq 0 2)))))
    by reflexivity.
  split; [exact E|].
  exact (tie_or_clone_weights_keeps_shape output_weight (Some (zeros [3]))
           input_weight _ E).
Defined.

(** X22: _tie_or_clone_weights raises ValueError when the weight of the
    output embeddings has neither the shape of the input embeddings' weight
    nor that of its transpose. *)
Theorem tie_or_clone_weights_raises
  (output_weight : tensor R) (output_bias : option (tensor R))
  (input_weight : tensor R) (m n : nat) :
  shape input_weight = [m; n] ->
  shape output_weight <> [m; n] -> shape output_weight <> [n; m] ->
  Electra.tie_or_clone_weights output_weight output_bias input_weight
  = Raise ValueError.
Proof.
  intros Si N1 N2. unfold Electra.tie_or_clone_weights.
  destruct (list_eq_dec Nat.eq_dec (shape output_weight) (shape input_weight))
    as [Es | _]; [congruence|].
  destruct (t_ok input_weight m n Si) as (tr & Et & St & _).
  rewrite Et; cbn [bind].
  destruct (list_eq_dec Nat.eq_dec (shape output_weight) (shape tr))
    as [Es | _]; [congruence|].
  reflexivity.
Qed.

Lemma tie_or_clone_weights_raises_witness :
  Electra.tie_or_clone_weights (zeros [2; 2]) None (zeros [3; 2]) = Raise ValueError.
Proof.
  apply (tie_or_clone_weights_raises (zeros [2; 2]) None (zeros [3; 2]) 3 2).
  - reflexivity.
  - discriminate.
  - discriminate.
Defined.


